(** * FlappyBirdAI: the evolutionary trainer and its neural controller

    A shallow embedding of [genetic.py], [genetic_controller.py],
    [genetic_helper.py], the exporter and the importer of
    [export_weights.py] and the report of [test_js_python_match.py], with
    the properties the specification states about them and further
    properties of the code.

    Modelling conventions.
    - Python and numpy floats are real numbers ([R]): rounding, infinities
      and NaN are outside this model.  The aggregation of the scores and
      the blend of two weight vectors, whose results the rounding can
      change, are given on binary64 as well (module [Binary64]).
    - A one-dimensional numpy array is a [list R].  No statement of the
      sources updates a weight array in place ([+] and [np.clip] build new
      arrays), so arrays are values.
    - [Genetic_AI] instances are mutable and compared by identity: they
      live in a store ([objects]) and are handled through their position
      in it ([oid]), which plays the role of Python's [id].
    - The generators behind [random] and [np.random] are tapes of raw
      draws that the library calls consume; a property proved for every
      tape holds for every run of the generator.
    - The simulator [flappybird.mains] is not part of the sources: the
      functions that call it take it as a parameter. *)

From Stdlib Require Import Reals Lra Lia ZArith String.
From Stdlib Require Floats.
From stdpp Require Import base list.

(** ** Exceptions, results and the state monad of the interpreter *)

Inductive exn : Type :=
| ValueError
| IndexError
| ZeroDivisionError
| ReferenceError.

Inductive result (A : Type) : Type :=
| Return (a : A)
| Throw (e : exn).
Arguments Return {A} a.
Arguments Throw {A} e.

Record tape (A : Type) : Type := Tape { draws : nat -> A; cursor : nat }.
Arguments Tape {A} draws cursor.
Arguments draws {A} t n.
Arguments cursor {A} t.

Definition next_draw {A} (t : tape A) : A * tape A :=
  (draws t (cursor t), Tape (draws t) (S (cursor t))).

(** The fields of a [Genetic_AI] instance ([genetic.py], lines 19-40). *)
Record Genetic_AI : Type := mkGenetic_AI {
  num_features : nat;
  hidden_size : nat;
  genotype : list R;
  fit_score : R;
  fit_rel : R;
  previous_y : option R
}.

(** References to instances are positions in the store. *)
Abbreviation oid := nat (only parsing).

Record world : Type := World {
  objects : list Genetic_AI;
  py_random : tape R;
  py_choice : tape nat;
  np_random : tape R
}.

Inductive outcome (A : Type) : Type :=
| Ok (a : A) (w : world)
| Raise (e : exn)
| Timeout.
Arguments Ok {A} a w.
Arguments Raise {A} e.
Arguments Timeout {A}.

Definition M (A : Type) : Type := world -> outcome A.

Definition ret {A} (a : A) : M A := fun w => Ok a w.

Definition bind {A B} (m : M A) (k : A -> M B) : M B :=
  fun w => match m w with
           | Ok a w' => k a w'
           | Raise e => Raise e
           | Timeout => Timeout
           end.

Definition raise {A} (e : exn) : M A := fun _ => Raise e.

Definition lift {A} (r : result A) : M A :=
  match r with
  | Return a => ret a
  | Throw e => raise e
  end.

Notation "x <- m ;; k" := (bind m (fun x => k))
  (at level 100, m at next level, right associativity).
Notation "m ;;; k" := (bind m (fun _ => k))
  (at level 100, right associativity).

(** [for x in xs: body], threading the variables the body assigns. *)
Fixpoint for_ {A S} (xs : list A) (body : A -> S -> M S) (s : S) : M S :=
  match xs with
  | [] => ret s
  | x :: xs' => s' <- body x s ;; for_ xs' body s'
  end.

Definition range (n : nat) : list nat := seq 0 n.

(** [while cond: body]; the fuel bounds the number of iterations. *)
Fixpoint while_ {S} (fuel : nat) (cond : S -> bool) (body : S -> M S) (s : S)
  : M S :=
  if cond s then
    match fuel with
    | O => fun _ => Timeout
    | S fuel' => s' <- body s ;; while_ fuel' cond body s'
    end
  else ret s.

(** ** The object store *)

Definition new_object (a : Genetic_AI) : M oid :=
  fun w => Ok (length (objects w))
              (World (objects w ++ [a]) (py_random w) (py_choice w) (np_random w)).

Definition getattr (o : oid) : M Genetic_AI :=
  fun w => match objects w !! o with
           | Some a => Ok a w
           | None => Raise ReferenceError
           end.

Definition setattr (o : oid) (f : Genetic_AI -> Genetic_AI) : M unit :=
  fun w => match objects w !! o with
           | Some a =>
               Ok tt (World (<[o := f a]> (objects w))
                            (py_random w) (py_choice w) (np_random w))
           | None => Raise ReferenceError
           end.

Definition with_previous_y (v : option R) (a : Genetic_AI) : Genetic_AI :=
  mkGenetic_AI (num_features a) (hidden_size a) (genotype a)
               (fit_score a) (fit_rel a) v.

Definition with_fit_score (v : R) (a : Genetic_AI) : Genetic_AI :=
  mkGenetic_AI (num_features a) (hidden_size a) (genotype a)
               v (fit_rel a) (previous_y a).

Definition with_fit_rel (v : R) (a : Genetic_AI) : Genetic_AI :=
  mkGenetic_AI (num_features a) (hidden_size a) (genotype a)
               (fit_score a) v (previous_y a).

(** ** Comparisons of floats *)

Definition Rltb (x y : R) : bool := if Rlt_dec x y then true else false.
Definition Rleb (x y : R) : bool := if Rle_dec x y then true else false.

(** ** numpy *)

Definition Rsum (l : list R) : R := fold_right Rplus 0%R l.

(** A two-dimensional array, stored row by row. *)
Record matrix : Type := Matrix { nrows : nat; ncols : nat; mdata : list R }.

(** [a.reshape(rows, cols)] *)
Definition np_reshape (a : list R) (rows cols : nat) : result matrix :=
  if length a =? rows * cols then Return (Matrix rows cols a)
  else Throw ValueError.

(** [np.dot(v, m)] for a vector and a matrix. *)
Definition np_dot_vm (v : list R) (m : matrix) : result (list R) :=
  if length v =? nrows m then
    Return (map (fun j =>
                   Rsum (imap (fun i x => (x * nth (i * ncols m + j) (mdata m) 0)%R) v))
                (seq 0 (ncols m)))
  else Throw ValueError.

(** [np.dot(a, b)] for two vectors. *)
Definition np_dot_vv (a b : list R) : result R :=
  if length a =? length b then Return (Rsum (zip_with Rmult a b))
  else Throw ValueError.

(** [a + b] on vectors, with numpy's broadcasting of a length-one operand. *)
Definition np_add (a b : list R) : result (list R) :=
  if length a =? length b then Return (zip_with Rplus a b)
  else match a, b with
       | [x], _ => Return (map (fun y => (x + y)%R) b)
       | _, [y] => Return (map (fun x => (x + y)%R) a)
       | _, _ => Throw ValueError
       end.

(** [np.clip(a, lo, hi)] = [minimum(maximum(a, lo), hi)] *)
Definition np_clip (a : list R) (lo hi : R) : list R :=
  map (fun x => Rmin (Rmax x lo) hi) a.

(** [np.mean(a)] *)
Definition np_mean (a : list R) : R := (Rsum a / INR (length a))%R.

(** [np.std(a)]: the population standard deviation. *)
Definition np_std (a : list R) : R :=
  sqrt (np_mean (map (fun x => ((x - np_mean a) * (x - np_mean a))%R) a)).

(** [a[i]] on a list or a vector. *)
Definition getitem {A} (a : list A) (i : nat) : result A :=
  match a !! i with
  | Some x => Return x
  | None => Throw IndexError
  end.

(** [size] consecutive raw draws of a tape. *)
Definition take_draws {A} (size : nat) (t : tape A) : list A * tape A :=
  (map (draws t) (seq (cursor t) size), Tape (draws t) (cursor t + size)).

(** [np.random.normal(loc, scale, size)]: location plus scale times a
    standard normal draw. *)
Definition np_random_normal (loc scale : R) (size : nat) : M (list R) :=
  fun w =>
    if Rltb scale 0 then Raise ValueError
    else let '(zs, t) := take_draws size (np_random w) in
         Ok (map (fun z => (loc + scale * z)%R) zs)
            (World (objects w) (py_random w) (py_choice w) t).

(** [np.random.uniform(low, high, size)]: a draw [u] of [[0, 1)] mapped to
    [low + (high - low) * u]. *)
Definition np_random_uniform (low high : R) (size : nat) : M (list R) :=
  fun w =>
    let '(us, t) := take_draws size (np_random w) in
    Ok (map (fun u => (low + (high - low) * u)%R) us)
       (World (objects w) (py_random w) (py_choice w) t).

(** ** random *)

(** [random.random()] *)
Definition random_random : M R :=
  fun w => let '(u, t) := next_draw (py_random w) in
           Ok u (World (objects w) t (py_choice w) (np_random w)).

(** [random.randint(a, b)]: [a] plus a raw draw reduced modulo the width. *)
Definition random_randint (a b : Z) : M Z :=
  fun w =>
    if (b <? a)%Z then Raise ValueError
    else let '(k, t) := next_draw (py_choice w) in
         Ok (a + Z.of_nat k mod (b - a + 1))%Z
            (World (objects w) (py_random w) t (np_random w)).

(** [k] picks without replacement, each a raw draw reduced modulo the
    number of elements left. *)
Fixpoint sample_picks {A} (k : nat) (pool : list A) (t : tape nat)
  : list A * tape nat :=
  match k with
  | O => ([], t)
  | S k' =>
      let i := fst (next_draw t) mod length pool in
      match pool !! i with
      | Some x =>
          let rest := sample_picks k' (delete i pool) (snd (next_draw t)) in
          (x :: fst rest, snd rest)
      | None => ([], snd (next_draw t))
      end
  end.

(** [random.sample(population, k)] *)
Definition random_sample {A} (population : list A) (k : nat) : M (list A) :=
  fun w =>
    if length population <? k then Raise ValueError
    else Ok (fst (sample_picks k population (py_choice w)))
            (World (objects w) (py_random w)
                   (snd (sample_picks k population (py_choice w)))
                   (np_random w)).

(** ** genetic.py: class Genetic_AI *)

(** [a[lo:hi]] *)
Definition slice {A} (lo hi : nat) (a : list A) : list A := drop lo (take hi a).

(** [Genetic_AI._xavier_init] (lines 42-45); the division by
    [num_features + hidden_size] is one of a float by a Python integer. *)
Definition _xavier_init (num_features hidden_size size : nat) : M (list R) :=
  if num_features + hidden_size =? 0 then raise ZeroDivisionError
  else
    let limit := sqrt (6 / INR (num_features + hidden_size)) in
    np_random_uniform (- limit) limit size.

(** [Genetic_AI.__init__] (lines 8-40).  The result is the new instance. *)
Definition Genetic_AI__init__ (genotype : option (list R))
    (num_features hidden_size : nat) (mutate : bool) (noise_sd : R) : M oid :=
  let total_weights :=
    num_features * hidden_size + hidden_size + hidden_size + 1 in
  g <- match genotype with
       | None => _xavier_init num_features hidden_size total_weights
       | Some genotype =>
           if negb mutate then ret genotype
           else
             mutation <- np_random_normal 0 noise_sd (length genotype) ;;
             g <- lift (np_add genotype mutation) ;;
             ret (np_clip g (-3) 3)
       end ;;
  new_object (mkGenetic_AI num_features hidden_size g 0 0 None).

(** The defaults of the constructor's keyword arguments (line 8). *)
Definition default_num_features : nat := 6.
Definition default_hidden_size : nat := 8.
Definition default_noise_sd : R := (1 / 10)%R.

(** [Genetic_AI(genotype=..., mutate=...)], the other arguments defaulted. *)
Definition Genetic_AI_new (genotype : option (list R)) (mutate : bool) : M oid :=
  Genetic_AI__init__ genotype default_num_features default_hidden_size
                     mutate default_noise_sd.

(** [Genetic_AI._forward_pass] (lines 50-66). *)
Definition _forward_pass (self : oid) (state : list R) : M R :=
  me <- getattr self ;;
  let w1_end := num_features me * hidden_size me in
  let b1_end := w1_end + hidden_size me in
  let w2_end := b1_end + hidden_size me in
  W1 <- lift (np_reshape (slice 0 w1_end (genotype me))
                         (num_features me) (hidden_size me)) ;;
  let b1 := slice w1_end b1_end (genotype me) in
  let W2 := slice b1_end w2_end (genotype me) in
  b2 <- lift (getitem (genotype me) w2_end) ;;
  pre <- lift (np_dot_vm state W1) ;;
  pre <- lift (np_add pre b1) ;;
  let hidden := map tanh pre in
  out <- lift (np_dot_vv hidden W2) ;;
  ret (out + b2)%R.

(** [Genetic_AI.getMove] (lines 68-89). *)
Definition getMove (self : oid) (state : list R) : M bool :=
  me <- getattr self ;;
  velocity <- match previous_y me with
              | Some prev => y <- lift (getitem state 2) ;; ret (y - prev)%R
              | None => ret 0%R
              end ;;
  y <- lift (getitem state 2) ;;
  setattr self (with_previous_y (Some y)) ;;;
  s0 <- lift (getitem state 0) ;;
  s1 <- lift (getitem state 1) ;;
  s2 <- lift (getitem state 2) ;;
  let enhanced_state :=
    [ (s0 / 256)%R;
      (s1 / 568)%R;
      (s2 / 512)%R;
      (velocity / 10)%R;
      Rmin (s1 / 568) 1;
      if Rltb (Rabs s0) 50 then 1%R else 0%R ] in
  output <- _forward_pass self enhanced_state ;;
  ret (Rltb 0 output).

(** ** genetic_controller.py *)

(** [a.genotype[i]], [len(a.genotype)] and [a.fit_score] through a
    reference to the instance. *)
Definition genotype_at (a : oid) (i : nat) : M R :=
  me <- getattr a ;; lift (getitem (genotype me) i).

Definition genotype_len (a : oid) : M nat :=
  me <- getattr a ;; ret (length (genotype me)).

Definition fit_score_of (a : oid) : M R :=
  me <- getattr a ;; ret (fit_score me).

(** The list [new_genotype] that [cross] has built when it reaches its
    [return] (lines 13-37). *)
Definition cross_new_genotype (a1 a2 : oid) (aggregate : string)
  : M (list R) :=
  if String.eqb aggregate "uniform" then
    n <- genotype_len a1 ;;
    for_ (range n)
      (fun i new_genotype =>
         u <- random_random ;;
         if Rltb u 0.5 then
           x <- genotype_at a1 i ;; ret (new_genotype ++ [x])
         else
           x <- genotype_at a2 i ;; ret (new_genotype ++ [x]))
      []
  else if String.eqb aggregate "blend" then
    f1 <- fit_score_of a1 ;;
    f2 <- fit_score_of a2 ;;
    let total_fitness := (f1 + f2)%R in
    let w1 := if Rltb 0 total_fitness then (f1 / total_fitness)%R else 0.5%R in
    let w2 := if Rltb 0 total_fitness then (f2 / total_fitness)%R else 0.5%R in
    n <- genotype_len a1 ;;
    for_ (range n)
      (fun i new_genotype =>
         x1 <- genotype_at a1 i ;;
         x2 <- genotype_at a2 i ;;
         let new_gene := (w1 * x1 + w2 * x2)%R in
         ret (new_genotype ++ [new_gene]))
      []
  else
    n <- genotype_len a1 ;;
    crossover_point <- random_randint 1 (Z.of_nat n - 1) ;;
    me1 <- getattr a1 ;;
    me2 <- getattr a2 ;;
    ret (slice 0 (Z.to_nat crossover_point) (genotype me1)
         ++ drop (Z.to_nat crossover_point) (genotype me2)).

(** [cross] (lines 9-39). *)
Definition cross (a1 a2 : oid) (aggregate : string) : M oid :=
  new_genotype <- cross_new_genotype a1 a2 aggregate ;;
  Genetic_AI_new (Some new_genotype) true.

(** The value [compute_fitness] returns for the collected scores
    (lines 54-65). *)
Definition fitness_of_scores (fitness : list R) : R :=
  let fitness_array := fitness in
  if 2 <? length fitness then
    let mean_fit := np_mean fitness_array in
    let std_fit := np_std fitness_array in
    if Rltb 0 std_fit then
      let filtered_fitness :=
        List.filter (fun x => Rleb (Rabs (x - mean_fit)) (2 * std_fit))
                    fitness_array in
      if 0 <? length filtered_fitness then np_mean filtered_fitness
      else np_mean fitness_array
    else np_mean fitness_array
  else np_mean fitness_array.

(** [max(l, key=lambda x: x.fit_score)]: the first element whose key no
    later element exceeds. *)
Definition max_by_fit_score (l : list oid) : M oid :=
  match l with
  | [] => raise ValueError
  | x :: xs =>
      kx <- fit_score_of x ;;
      best <- for_ xs
                (fun y best =>
                   ky <- fit_score_of y ;;
                   if Rltb (snd best) ky then ret (y, ky) else ret best)
                (x, kx) ;;
      ret (fst best)
  end.

(** [tournament_selection] (lines 156-161). *)
Definition tournament_selection (population : list oid) (tournament_size : nat)
  : M oid :=
  tournament <- random_sample population
                  (Nat.min tournament_size (length population)) ;;
  max_by_fit_score tournament.

(** Insertion of a keyed element before the first one it is not below. *)
Fixpoint insert_desc (x : oid * R) (l : list (oid * R)) : list (oid * R) :=
  match l with
  | [] => [x]
  | y :: t => if Rltb (snd x) (snd y) then y :: insert_desc x t
              else x :: y :: t
  end.

(** [sorted(population, reverse=True)] under [Genetic_AI.__lt__]
    (genetic.py, lines 47-48): descending fitness, ties in their original
    order. *)
Definition sorted_reverse (population : list oid) : M (list oid) :=
  keyed <- for_ population
             (fun a keyed => k <- fit_score_of a ;; ret (keyed ++ [(a, k)]))
             [] ;;
  ret (map fst (foldr insert_desc [] keyed)).

(** Python's [round] of a float to an integer: to the nearest, a tie to
    the even neighbour. *)
Definition py_round (x : R) : Z :=
  let n := Int_part x in
  let f := frac_part x in
  if Rltb f 0.5 then n
  else if Rltb 0.5 f then (n + 1)%Z
  else if Z.even n then n else (n + 1)%Z.

(** [a[:k]] for a possibly negative [k]. *)
Definition slice_to {A} (k : Z) (a : list A) : list A :=
  if (k <? 0)%Z then take (length a - Z.to_nat (- k)) a
  else take (Z.to_nat k) a.

(** [a += b] on a vector [a]: [b] has the length of [a] or length one. *)
Definition np_iadd (a b : list R) : result (list R) :=
  if length a =? length b then Return (zip_with Rplus a b)
  else match b with
       | [y] => Return (map (fun x => (x + y)%R) a)
       | _ => Throw ValueError
       end.

(** One row of the generation log. *)
Record generation_record : Type := GenerationRecord {
  avg_fit : R;
  avg_gene : list R;
  top_fit : R;
  top_gene : list R;
  elite_fit : R;
  elite_gene : list R
}.

(** The choice of two parents in the crossover loop of [run_X_epochs]
    (lines 127-133). *)
Definition select_parents (fuel : nat) (parents : list oid) : M (oid * oid) :=
  parent1 <- tournament_selection parents 3 ;;
  parent2 <- tournament_selection parents 3 ;;
  parent2 <- while_ fuel
               (fun parent2 => (parent1 =? parent2) && (1 <? length parents))
               (fun _ => tournament_selection parents 3)
               parent2 ;;
  ret (parent1, parent2).

(** The elite loop of [run_X_epochs] (lines 112-119); the state is
    [(elite_fit_score, elite_genes, next_gen)]. *)
Definition elite_selection (sorted_pop : list oid) (num_elite gene_size : nat)
  : M (R * list R * list oid) :=
  for_ (range num_elite)
    (fun i st =>
       let '(elite_fit_score, elite_genes, next_gen) := st in
       e <- lift (getitem sorted_pop i) ;;
       me <- getattr e ;;
       elite_genes' <- lift (np_iadd elite_genes (genotype me)) ;;
       c <- Genetic_AI_new (Some (genotype me)) false ;;
       ret ((elite_fit_score + fit_score me)%R, elite_genes', next_gen ++ [c]))
    (0%R, repeat 0%R gene_size, []).

(** The crossover loop of [run_X_epochs] (lines 126-135). *)
Definition crossover_loop (fuel : nat) (parents : list oid) (count : nat)
    (aggregate : string) (next_gen : list oid) : M (list oid) :=
  for_ (range count)
    (fun _ next_gen =>
       ps <- select_parents fuel parents ;;
       c <- cross (fst ps) (snd ps) aggregate ;;
       ret (next_gen ++ [c]))
    next_gen.

(** The selection part of an epoch (lines 102-135): the next generation,
    with the sums the elite loop accumulates. *)
Definition selection (fuel : nat) (population : list oid)
    (pop_size num_elite : nat) (survival_rate : R) (aggregate : string)
    (gene_size : nat) : M (list oid * (list oid * R * list R)) :=
  sorted_pop <- sorted_reverse population ;;
  top_agent <- lift (getitem sorted_pop 0) ;;
  st <- elite_selection sorted_pop num_elite gene_size ;;
  let '(elite_fit_score, elite_genes, next_gen) := st in
  let num_parents := py_round (INR pop_size * survival_rate) in
  let parents := slice_to num_parents sorted_pop in
  next_gen <- crossover_loop fuel parents (pop_size - num_elite) aggregate
                             next_gen ;;
  ret (next_gen, (sorted_pop, elite_fit_score, elite_genes)).

Section Simulator.

(** [flappybird.mains(agent1=agent)]: one episode, its score. *)
Variable mains : oid -> M R.

(** [compute_fitness] (lines 42-65). *)
Definition compute_fitness (agent : oid) (num_trials : nat) : M R :=
  fitness <- for_ (range num_trials)
               (fun trial fitness =>
                  setattr agent (with_previous_y None) ;;;
                  score <- mains agent ;;
                  ret (fitness ++ [score]))
               [] ;;
  ret (fitness_of_scores fitness).

(** The fitness part of an epoch (lines 80-100); the result is
    [(total_fitness, gene)]. *)
Definition fitness_phase (population : list oid) (pop_size num_trials : nat)
    (gene_size : nat) : M (R * list R) :=
  st <- for_ (range pop_size)
          (fun n st =>
             let '(total_fitness, gene) := st in
             agent <- lift (getitem population n) ;;
             f <- compute_fitness agent num_trials ;;
             setattr agent (with_fit_score f) ;;;
             me <- getattr agent ;;
             gene' <- lift (np_iadd gene (genotype me)) ;;
             ret ((total_fitness + fit_score me)%R, gene'))
          (0%R, repeat 0%R gene_size) ;;
  for_ population
    (fun agent _ =>
       me <- getattr agent ;;
       setattr agent (with_fit_rel (fit_score me / fst st)))
    tt ;;;
  ret st.

(** The body of the epoch loop of [run_X_epochs] (lines 79-151), without
    the writes to the log file: the next population and the row logged. *)
Definition epoch (fuel : nat) (population : list oid)
    (num_trials pop_size : nat) (aggregate : string) (num_elite : nat)
    (survival_rate : R) : M (list oid * generation_record) :=
  first <- lift (getitem population 0) ;;
  gene_size <- genotype_len first ;;
  fs <- fitness_phase population pop_size num_trials gene_size ;;
  let '(total_fitness, gene) := fs in
  sel <- selection fuel population pop_size num_elite survival_rate aggregate
                   gene_size ;;
  let '(next_gen, (sorted_pop, elite_fit_score, elite_genes)) := sel in
  top_agent <- lift (getitem sorted_pop 0) ;;
  top <- getattr top_agent ;;
  if num_elite =? 0 then raise ZeroDivisionError
  else
    ret (next_gen,
         GenerationRecord
           (total_fitness / INR pop_size)
           (map (fun x => (x / INR pop_size)%R) gene)
           (fit_score top)
           (genotype top)
           (elite_fit_score / INR num_elite)
           (map (fun x => (x / INR num_elite)%R) elite_genes)).

(** [run_X_epochs] (lines 68-153), without the log file: the last row of
    [data], with the population the loop ends on. *)
Definition run_X_epochs (fuel num_epochs num_trials pop_size : nat)
    (aggregate : string) (num_elite : nat) (survival_rate : R)
  : M (list oid * generation_record) :=
  population <- for_ (range pop_size)
                  (fun _ population =>
                     a <- Genetic_AI_new None false ;;
                     ret (population ++ [a]))
                  [] ;;
  for_ (range num_epochs)
    (fun _ st =>
       epoch fuel (fst st) num_trials pop_size aggregate num_elite
             survival_rate)
    (population,
     GenerationRecord 1 (repeat 1%R 4) 1 (repeat 1%R 4) 1 (repeat 1%R 4)).

(** ** export_weights.py: the importer *)

Record architecture : Type := Architecture {
  arch_num_features : nat;
  arch_hidden_size : nat;
  total_weights : nat
}.

(** The parsed content of a weight-export file (the metadata strings are
    left out). *)
Record weights_file : Type := WeightsFile {
  weights : list R;
  fitness : R;
  file_architecture : architecture
}.

(** [load_and_test_exported_weights] (lines 139-171); [None] as argument
    is the missing file, [None] as result the [return None] of the handler
    of [FileNotFoundError]. *)
Definition load_and_test_exported_weights (file : option weights_file)
  : M (option oid) :=
  match file with
  | None => ret None
  | Some data =>
      agent <- Genetic_AI_new (Some (weights data)) false ;;
      test_scores <- for_ (range 3)
                       (fun i test_scores =>
                          setattr agent (with_previous_y None) ;;;
                          score <- mains agent ;;
                          ret (test_scores ++ [score]))
                       [] ;;
      let avg_score := np_mean test_scores in
      ret (Some agent)
  end.

End Simulator.

(** ** The specification's formulas *)

(** The sum of [f 0 .. f (n - 1)]. *)
Definition Rsum_upto (n : nat) (f : nat -> R) : R := Rsum (map f (seq 0 n)).

(** The six features the specification derives from a raw state. *)
Definition spec_features (gapDistance horizontalDistance birdHeight : R)
    (lastObservedY : option R) : list R :=
  [ (gapDistance / 256)%R;
    (horizontalDistance / 568)%R;
    (birdHeight / 512)%R;
    (match lastObservedY with
     | Some last => birdHeight - last
     | None => 0
     end / 10)%R;
    Rmin (horizontalDistance / 568) 1;
    if Rltb (Rabs gapDistance) 50 then 1%R else 0%R ].

(** The length the architecture expects of a weight vector. *)
Definition expected_length (features hidden : nat) : nat :=
  features * hidden + hidden + hidden + 1.

(** The consecutive slices of a flat weight vector [W]: [W1] row by row,
    then [b1], [W2] and [b2]. *)
Definition spec_W1 (W : list R) (features hidden i j : nat) : R :=
  nth (i * hidden + j) W 0%R.
Definition spec_b1 (W : list R) (features hidden j : nat) : R :=
  nth (features * hidden + j) W 0%R.
Definition spec_W2 (W : list R) (features hidden j : nat) : R :=
  nth (features * hidden + hidden + j) W 0%R.
Definition spec_b2 (W : list R) (features hidden : nat) : R :=
  nth (features * hidden + hidden + hidden) W 0%R.

(** [tanh(x . W1 + b1) . W2 + b2] *)
Definition spec_output (W : list R) (features hidden : nat) (x : list R) : R :=
  (Rsum_upto hidden
     (fun j =>
        tanh (Rsum_upto features
                (fun i => nth i x 0 * spec_W1 W features hidden i j)
              + spec_b1 W features hidden j)
        * spec_W2 W features hidden j)
   + spec_b2 W features hidden)%R.

(** The store after an assignment to the attributes of one instance. *)
Definition store_update (w : world) (o : oid) (a : Genetic_AI) : world :=
  World (<[o := a]> (objects w)) (py_random w) (py_choice w) (np_random w).

(** The scores within two standard deviations of the mean. *)
Definition retained (scores : list R) : list R :=
  List.filter
    (fun x => Rleb (Rabs (x - np_mean scores)) (2 * np_std scores)) scores.

(** [episodes mains agent w n scores w']: from the world [w], [n] trials in
    a row, each after a reset of lastObservedY, yield [scores] in this order
    and end in [w']. *)
Inductive episodes (mains : oid -> M R) (agent : oid)
  : world -> nat -> list R -> world -> Prop :=
| episodes_none (w : world) : episodes mains agent w 0 [] w
| episodes_more (w w1 w2 w3 : world) (n : nat) (scores : list R) (score : R) :
    episodes mains agent w n scores w1 ->
    setattr agent (with_previous_y None) w1 = Ok tt w2 ->
    mains agent w2 = Ok score w3 ->
    episodes mains agent w (S n) (scores ++ [score]) w3.

(** A simulator that replays scores written on the tape of [random]. *)
Definition replay_mains (agent : oid) : M R := random_random.

(** A tape holding the given values, then zeros. *)
Definition tape_of {A} (d : A) (l : list A) : tape A :=
  Tape (fun n => nth n l d) 0.

(** A world of one controller of the default architecture with all
    weights zero, whose tape of [random] holds the given values. *)
Definition zero_agent : Genetic_AI :=
  mkGenetic_AI 6 8 (repeat 0%R 65) 0 0 None.
Definition world_with (agents : list Genetic_AI) (floats : list R)
    (choices : list nat) (normals : list R) : world :=
  World agents (tape_of 0%R floats) (tape_of 0 choices) (tape_of 0%R normals).

(** The scores of the specification's outlier example. *)
Definition example_scores : list R := [10; 11; 9; 10; 200]%R.

(** The world in which [replay_mains] yields the example's scores, and the
    world five trials later. *)
Definition example_world : world :=
  world_with [zero_agent] example_scores [] [].
Definition example_world_end : world :=
  World [zero_agent] (Tape (fun n => nth n example_scores 0%R) 5)
        (tape_of 0 []) (tape_of 0%R []).

(** A value clipped to [[lo, hi]]. *)
Definition clipped (lo hi v : R) : R :=
  if Rltb v lo then lo else if Rltb hi v then hi else v.

(** The noise mutation adds at index [i]: the [i]-th draw the call makes,
    scaled by the noise's standard deviation. *)
Definition drawn_noise (w : world) (noise_sd : R) (i : nat) : R :=
  (0 + noise_sd * draws (np_random w) (cursor (np_random w) + i))%R.

(** The world after [n] draws of numpy's generator. *)
Definition after_np_draws (w : world) (n : nat) : world :=
  World (objects w) (py_random w) (py_choice w)
        (Tape (draws (np_random w)) (cursor (np_random w) + n)).

(** The world after the allocation of one more instance. *)
Definition with_new_object (w : world) (a : Genetic_AI) : world :=
  World (objects w ++ [a]) (py_random w) (py_choice w) (np_random w).

(** A world whose only controller is [zero_agent], with two draws of
    numpy's generator far in the tails. *)
Definition mutation_world : world := world_with [zero_agent] [] [] [40; -40]%R.

(** A weight vector of three entries, for an architecture that expects 65. *)
Definition short_vector : list R := [1; 2; 3]%R.

(** An export file whose 66 weights are one more than the total its
    architecture declares. *)
Definition long_file : weights_file :=
  WeightsFile (repeat 0%R 66) 150 (Architecture 6 8 65).

(** The empty world, with three scores for [replay_mains] to replay. *)
Definition import_world : world := world_with [] [1; 2; 3]%R [] [].
Definition import_world_end : world :=
  World [mkGenetic_AI 6 8 (repeat 0%R 66) 0 0 None]
        (Tape (fun n => nth n [1; 2; 3]%R 0%R) 3)
        (tape_of 0 []) (tape_of 0%R []).

(** The controllers A, B, C, D of the specification's end-to-end scenario,
    with fitness 40, 30, 20, 10, in a store of their own. *)
Definition agent_A : Genetic_AI := mkGenetic_AI 6 8 (repeat 1%R 65) 40 0 None.
Definition agent_B : Genetic_AI := mkGenetic_AI 6 8 (repeat 2%R 65) 30 0 None.
Definition agent_C : Genetic_AI := mkGenetic_AI 6 8 (repeat 3%R 65) 20 0 None.
Definition agent_D : Genetic_AI := mkGenetic_AI 6 8 (repeat 4%R 65) 10 0 None.
Definition scenario_agents : list Genetic_AI :=
  [agent_A; agent_B; agent_C; agent_D].
Definition scenario_world : world := world_with scenario_agents [] [] [].

(** The fitness of a controller of the store (0 for a dangling
    reference), and the references that are not dangling. *)
Definition fit_in (w : world) (o : oid) : R :=
  match objects w !! o with
  | Some a => fit_score a
  | None => 0%R
  end.
Definition valid (w : world) (o : oid) : Prop := is_Some (objects w !! o).

(** The world after draws of the integer generator of [random]. *)
Definition with_py_choice (w : world) (t : tape nat) : world :=
  World (objects w) (py_random w) t (np_random w).

(** ** Specifications of computations *)

(** [total m w Q]: run from [w], [m] returns a value and a world that
    satisfy [Q].  [post m w Q]: if [m] returns from [w], the value and the
    world satisfy [Q]. *)
Definition total {A} (m : M A) (w : world) (Q : A -> world -> Prop) : Prop :=
  exists a w', m w = Ok a w' /\ Q a w'.
Definition post {A} (m : M A) (w : world) (Q : A -> world -> Prop) : Prop :=
  forall a w', m w = Ok a w' -> Q a w'.

(** [genes_kept w w']: every controller of [w] is a controller of [w'] with
    the same architecture and the same weight vector. *)
Definition genes_kept (w w' : world) : Prop :=
  forall o a, objects w !! o = Some a ->
    exists a', objects w' !! o = Some a'
               /\ genotype a' = genotype a
               /\ num_features a' = num_features a
               /\ hidden_size a' = hidden_size a.

(** [has_len L w o]: [o] is a controller of [w] with [L] weights. *)
Definition has_len (L : nat) (w : world) (o : oid) : Prop :=
  exists a, objects w !! o = Some a /\ length (genotype a) = L.

(** What [cross] allocates on parents of [L] weights: a controller of
    the default architecture with [L] weights, each in [[-3, 3]], fitness 0
    and lastObservedY unset. *)
Definition offspring_record (L : nat) (child : Genetic_AI) : Prop :=
  length (genotype child) = L
  /\ num_features child = 6
  /\ hidden_size child = 8
  /\ fit_score child = 0%R
  /\ previous_y child = None
  /\ Forall (fun gene => (-3 <= gene <= 3)%R) (genotype child).

(** The world after the allocation of several instances. *)
Definition with_new_objects (w : world) (l : list Genetic_AI) : world :=
  World (objects w ++ l) (py_random w) (py_choice w) (np_random w).

(** The copy the elite loop makes of a controller. *)
Definition elite_copy (a : Genetic_AI) : Genetic_AI :=
  mkGenetic_AI 6 8 (genotype a) 0 0 None.

(** The ranking [sorted(population, reverse=True)] computes in [w]. *)
Definition ranked (w : world) (population : list oid) : list oid :=
  map fst (foldr insert_desc [] (map (fun o => (o, fit_in w o)) population)).

(** Two controllers of one feature and one hidden unit, each with the 4
    weights this architecture expects. *)
Definition tiny_agent_1 : Genetic_AI := mkGenetic_AI 1 1 [1; 2; 3; 4]%R 5 0 None.
Definition tiny_agent_2 : Genetic_AI := mkGenetic_AI 1 1 [5; 6; 7; 8]%R 5 0 None.
Definition tiny_world : world :=
  world_with [tiny_agent_1; tiny_agent_2] [] [] [].

(** A controller of the default architecture with one weight too many,
    and one with only three weights. *)
Definition long_agent : Genetic_AI :=
  mkGenetic_AI 6 8 (repeat 0%R 65 ++ [7%R]) 0 0 None.
Definition short_agent : Genetic_AI := mkGenetic_AI 6 8 short_vector 0 0 None.

(** ** genetic_helper.py *)

(** The attributes of a bird and of a pipe that the helpers read. *)
Module Bird.
Record t : Type := mk { x : R; y : R }.
End Bird.

Module Pipe.
Record t : Type := mk { x : R; top_height_px : R; bottom_height_px : R }.
End Pipe.

(** [getVerticalHeight] (lines 7-8). *)
Definition getVerticalHeight (bird : Bird.t) : R := Bird.y bird.

(** [getHorizontalDistance] (lines 10-11). *)
Definition getHorizontalDistance (bird : Bird.t) (pipe : Pipe.t) : R :=
  (Pipe.x pipe - Bird.x bird)%R.

(** [getVeritcalDistance] (lines 13-17). *)
Definition getVeritcalDistance (bird : Bird.t) (pipe : Pipe.t) : R :=
  let centerGap :=
    (Pipe.top_height_px pipe
     + (512 - Pipe.top_height_px pipe - Pipe.bottom_height_px pipe) / 2)%R in
  let birdCenter := (Bird.y bird + 16)%R in
  let gapDistance := (centerGap - birdCenter)%R in
  gapDistance.

(** ** export_weights.py: the exporter *)

(** The weight-export files by name; the directories are taken to exist. *)
Definition files : Type := string -> option weights_file.

(** [json.dump(data, open(filename, 'w'))] *)
Definition write_file (fs : files) (filename : string) (data : weights_file)
  : files :=
  fun name => if String.eqb name filename then Some data else fs name.

(** [export_agent_weights] (lines 13-35): the dictionary returned, with
    the files after the write. *)
Definition export_agent_weights (agent : oid) (filename : string) (fs : files)
  : M (weights_file * files) :=
  me <- getattr agent ;;
  let weights_data :=
    WeightsFile (genotype me) (fit_score me)
                (Architecture 6 8 (length (genotype me))) in
  ret (weights_data, write_file fs filename weights_data).

(** The lists of [create_sample_trained_weights] (lines 113-135). *)
Definition input_hidden : list R :=
  [ -0.8; 0.2; -0.6; 0.4; -0.3; 0.7; -0.5; 0.1;
    0.3; -0.1; 0.5; -0.2; 0.4; -0.3; 0.2; 0.6;
    -0.2; 0.4; -0.1; 0.3; -0.4; 0.2; -0.3; 0.5;
    -0.9; 0.1; -0.7; 0.3; -0.5; 0.8; -0.4; 0.2;
    0.4; -0.2; 0.6; -0.1; 0.3; -0.4; 0.5; -0.3;
    0.2; 0.5; -0.1; 0.4; -0.2; 0.3; 0.1; -0.4 ]%R.
Definition hidden_biases : list R :=
  [0.1; -0.2; 0.0; 0.3; -0.1; 0.2; -0.3; 0.1]%R.
Definition hidden_output : list R :=
  [0.7; -0.3; 0.5; -0.8; 0.4; 0.6; -0.2; 0.9]%R.
Definition output_bias : list R := [-0.1]%R.

Section Exporter.

(** [flappybird.mains], and the state of numpy's generator after
    [np.random.seed(n)]. *)
Variable mains : oid -> M R.
Variable np_seeded : Z -> tape R.

(** [np.random.seed(n)] *)
Definition np_random_seed (n : Z) : M unit :=
  fun w => Ok tt (World (objects w) (py_random w) (py_choice w) (np_seeded n)).

(** [create_sample_trained_weights] (lines 107-137). *)
Definition create_sample_trained_weights : M (list R) :=
  np_random_seed 42 ;;;
  ret (((input_hidden ++ hidden_biases) ++ hidden_output) ++ output_bias).

(** [train_and_export_best_model] (lines 78-105): what it leaves in
    [docs/best_weights.json].  The log of the training run
    ([data/web_export_training.csv], which [run_X_epochs] writes and
    appends to) is no weight-export file and is not modelled. *)
Definition train_and_export_best_model (fuel : nat) (fs : files)
  : M (option weights_file) :=
  results <- run_X_epochs mains fuel 10 3 20 "blend" 3 0.35 ;;
  sample_trained_weights <- create_sample_trained_weights ;;
  trained_agent <- Genetic_AI_new (Some sample_trained_weights) false ;;
  setattr trained_agent (with_fit_score 150) ;;;
  exported <- export_agent_weights trained_agent "docs/best_weights.json" fs ;;
  ret (snd exported "docs/best_weights.json"%string).

End Exporter.

(** ** test_js_python_match.py *)

(** The sample states of [test_neural_network_match] (lines 28-33). *)
Definition test_states : list (list R) :=
  [ [0; 200; 256; 1];
    [-50; 100; 200; 1];
    [50; 150; 300; 1];
    [0; 50; 256; 1] ]%R.

(** The loop of [test_neural_network_match] (lines 39-64) over the given
    states: for each state the decision and the raw output it prints. *)
Definition match_loop (ai : oid) (states : list (list R))
  : M (list (bool * R)) :=
  for_ states
    (fun state report =>
       decision <- getMove ai state ;;
       let velocity := 0%R in
       y <- lift (getitem state 2) ;;
       setattr ai (with_previous_y (Some y)) ;;;
       s0 <- lift (getitem state 0) ;;
       s1 <- lift (getitem state 1) ;;
       s2 <- lift (getitem state 2) ;;
       let enhanced_state :=
         [ (s0 / 256)%R;
           (s1 / 568)%R;
           (s2 / 512)%R;
           (velocity / 10)%R;
           Rmin (s1 / 568) 1;
           if Rltb (Rabs s0) 50 then 1%R else 0%R ] in
       output <- _forward_pass ai enhanced_state ;;
       ret (report ++ [(decision, output)]))
    [].

(** [test_neural_network_match] (lines 10-64): the rows it prints, none
    when the weight file is missing. *)
Definition test_neural_network_match (file : option weights_file)
  : M (list (bool * R)) :=
  match file with
  | None => ret []
  | Some data =>
      ai <- Genetic_AI_new (Some (weights data)) false ;;
      match_loop ai test_states
  end.

(** ** Further notions used in the statements *)

(** A list of keys in descending order. *)
Fixpoint descending (ks : list R) : Prop :=
  match ks with
  | [] => True
  | k :: ks' => Forall (fun k' => (k' <= k)%R) ks' /\ descending ks'
  end.

(** Whether the fitness of a controller is [v]. *)
Definition has_fitness (w : world) (v : R) (o : oid) : bool :=
  if Req_dec_T (fit_in w o) v then true else false.

(** The bound of the uniform distribution behind a fresh weight vector. *)
Definition xavier_limit (features hidden : nat) : R :=
  sqrt (6 / INR (features + hidden)).

(** The vector [create_sample_trained_weights] returns. *)
Definition sample_weights : list R :=
  ((input_hidden ++ hidden_biases) ++ hidden_output) ++ output_bias.

(** A fresh controller of the default architecture with the given
    weights. *)
Definition fresh_controller (g : list R) : Genetic_AI :=
  mkGenetic_AI 6 8 g 0 0 None.

(** A world of one controller with fitness 40, in which [replay_mains]
    yields the scores 1, 2 and 3, and the world after an import and its
    three test episodes. *)
Definition roundtrip_world : world := world_with [agent_A] [1; 2; 3]%R [] [].
Definition roundtrip_world_end : world :=
  World [agent_A; fresh_controller (genotype agent_A)]
        (Tape (fun n => nth n [1; 2; 3]%R 0%R) 3)
        (tape_of 0 []) (tape_of 0%R []).

(** The rows [test_neural_network_match] prints for a weight vector [W]
    (8 hidden units): the decision is taken with the velocity since the
    state before, the raw output with velocity 0. *)
Fixpoint match_rows (W : list R) (prev : option R) (states : list (list R))
  : list (bool * R) :=
  match states with
  | [] => []
  | state :: rest =>
      let s0 := nth 0 state 0%R in
      let s1 := nth 1 state 0%R in
      let s2 := nth 2 state 0%R in
      (Rltb 0 (spec_output W 6 8 (spec_features s0 s1 s2 prev)),
       spec_output W 6 8 (spec_features s0 s1 s2 None))
      :: match_rows W (Some s2) rest
  end.

(** The weight vector of a controller of the store, if it is one. *)
Definition genes_of (w : world) (o : oid) : option (list R) :=
  genotype <$> objects w !! o.

(** Six scores, five of them equal. *)
Definition six_scores : list R := [0; 0; 0; 0; 0; 6]%R.

(** A weight vector of the default architecture in which the only path
    from the input to the output runs from the velocity feature through
    the first hidden unit. *)
Definition velocity_only_weights : list R :=
  repeat 0%R 24 ++ [1%R] ++ repeat 0%R 31 ++ [1%R] ++ repeat 0%R 8.

(** ** The arithmetic of the sources on binary64

    The functions above compute on real numbers, in which sums, quotients
    and square roots are exact.  The scores, the fitness values and the
    weights of the program are binary64 floats; the functions whose result
    depends on the rounding are given here on binary64 as well. *)
Module Binary64.
Import PrimFloat.
#[local] Open Scope float_scope.

(** A Python integer as a float. *)
Definition float_of_nat (n : nat) : float := of_uint63 (Uint63.of_nat n).

(** [np.add.reduce(a)] for an array of fewer than eight values, which
    numpy adds from left to right (longer arrays are added pairwise). *)
Definition np_sum (a : list float) : float := fold_left add a (-0).

(** [np.mean(a)] *)
Definition np_mean (a : list float) : float :=
  np_sum a / float_of_nat (length a).

(** [np.std(a)]: the square root of the mean of the squared deviations
    from the mean. *)
Definition np_std (a : list float) : float :=
  let arrmean := np_mean a in
  let x := map (fun v => v - arrmean) a in
  let x := map (fun v => v * v) x in
  sqrt (np_sum x / float_of_nat (length a)).

(** The scores [compute_fitness] keeps (line 62). *)
Definition retained (fitness_array : list float) : list float :=
  let mean_fit := np_mean fitness_array in
  let std_fit := np_std fitness_array in
  List.filter (fun x => abs (x - mean_fit) <=? 2 * std_fit) fitness_array.

(** The value [compute_fitness] returns for the collected scores
    (lines 54-65). *)
Definition fitness_of_scores (fitness : list float) : float :=
  let fitness_array := fitness in
  if (2 <? length fitness)%nat then
    let mean_fit := np_mean fitness_array in
    let std_fit := np_std fitness_array in
    if 0 <? std_fit then
      let filtered_fitness :=
        List.filter (fun x => abs (x - mean_fit) <=? 2 * std_fit)
                    fitness_array in
      if (0 <? length filtered_fitness)%nat then np_mean filtered_fitness
      else np_mean fitness_array
    else np_mean fitness_array
  else np_mean fitness_array.

(** The weights of the blend branch of [cross] (lines 24-29) for the
    fitness scores of the two parents. *)
Definition blend_weights (fit_score1 fit_score2 : float) : float * float :=
  let total_fitness := fit_score1 + fit_score2 in
  if 0 <? total_fitness then
    (fit_score1 / total_fitness, fit_score2 / total_fitness)
  else (0.5, 0.5).

(** The list [new_genotype] the blend branch of [cross] builds
    (lines 22-33) from the fitness scores and the weight vectors of the
    two parents. *)
Definition cross_blend (fit_score1 fit_score2 : float)
    (genotype1 genotype2 : list float) : result (list float) :=
  let '(w1, w2) := blend_weights fit_score1 fit_score2 in
  fold_left
    (fun acc i =>
       match acc with
       | Throw e => Throw e
       | Return new_genotype =>
           match getitem genotype1 i, getitem genotype2 i with
           | Return x1, Return x2 =>
               let new_gene := w1 * x1 + w2 * x2 in
               Return (new_genotype ++ [new_gene])
           | Throw e, _ => Throw e
           | _, Throw e => Throw e
           end
       end)
    (range (length genotype1)) (Return []).

(** The floats nearest to 0.1, 0.2 and 0.6, and 2.5. *)
Definition one_tenth : float := 1 / 10.
Definition one_fifth : float := 1 / 5.
Definition three_fifths : float := 3 / 5.
Definition five_halves : float := 2.5.

(** Four equal scores and one other, and three equal scores. *)
Definition five_scores : list float := [10; 10; 10; 10; 11].
Definition three_scores : list float := [one_tenth; one_tenth; one_tenth].

End Binary64.

(** ** Further worlds and notions used in the statements *)

(** The scenario's controllers with a generator that draws 0, 0, 0, 1, 1,
    1: the first tournament of three samples A, B, C and the second B, C,
    D.  [parents_world_end] is this world six draws later. *)
Definition parents_world : world :=
  world_with scenario_agents [] [0; 0; 0; 1; 1; 1] [].
Definition parents_world_end : world :=
  World scenario_agents (tape_of 0%R [])
        (Tape (fun n => nth n [0; 0; 0; 1; 1; 1] 0) 6) (tape_of 0%R []).

(** A first parent of four weights and a second of three, both of
    fitness 5. *)
Definition tiny_agent_3 : Genetic_AI := mkGenetic_AI 1 1 [5; 6; 7]%R 5 0 None.
Definition mismatched_world : world :=
  world_with [tiny_agent_1; tiny_agent_3] [] [] [].

(** [retried pool parent1 n q w parent2 w']: the retry loop of the
    crossover loop (lines 132-133), entered in the world [w] with the
    candidate [q] for the second parent, holds [n] further tournaments,
    each because the pool has more than one member and the candidate
    before it is [parent1] itself, and is left in the world [w'] with the
    candidate [parent2]. *)
Inductive retried (pool : list oid) (parent1 : oid)
  : nat -> oid -> world -> oid -> world -> Prop :=
| retried_done (q : oid) (w : world) : retried pool parent1 0 q w q w
| retried_again (n : nat) (q q' parent2 : oid) (w w1 w' : world) :
    q = parent1 ->
    1 < length pool ->
    tournament_selection pool 3 w = Ok q' w1 ->
    retried pool parent1 n q' w1 parent2 w' ->
    retried pool parent1 (S n) q w parent2 w'.

(** ** Basic facts: comparisons, sums, slices *)

Lemma Rltb_true (x y : R) : Rltb x y = true <-> (x < y)%R.
Proof. unfold Rltb. destruct (Rlt_dec x y); split; intros; auto; discriminate. Qed.

Lemma Rltb_false (x y : R) : Rltb x y = false <-> (y <= x)%R.
Proof.
  unfold Rltb. destruct (Rlt_dec x y); split; intros; auto; try discriminate; lra.
Qed.

Lemma Rleb_true (x y : R) : Rleb x y = true <-> (x <= y)%R.
Proof. unfold Rleb. destruct (Rle_dec x y); split; intros; auto; discriminate. Qed.

Lemma Rleb_false (x y : R) : Rleb x y = false <-> (y < x)%R.
Proof.
  unfold Rleb. destruct (Rle_dec x y); split; intros; auto; try discriminate; lra.
Qed.

Lemma length_slice {A} (lo hi : nat) (a : list A) :
  hi <= length a -> length (slice lo hi a) = hi - lo.
Proof. intros H. unfold slice. rewrite length_drop, length_take. lia. Qed.

Lemma nth_lookup_R (l : list R) (i : nat) (x : R) :
  l !! i = Some x -> nth i l 0%R = x.
Proof. intros H. apply nth_lookup_Some with (d := 0%R) in H. exact H. Qed.

Lemma slice_as_map (lo hi : nat) (a : list R) :
  hi <= length a ->
  slice lo hi a = map (fun j => nth (lo + j) a 0%R) (seq 0 (hi - lo)).
Proof.
  intros H. apply list_eq. intros i. unfold slice.
  rewrite lookup_drop, list_lookup_fmap.
  destruct (decide (i < hi - lo)) as [Hi|Hi].
  - rewrite lookup_take_lt by lia. rewrite lookup_seq_lt by lia. simpl.
    destruct (lookup_lt_is_Some_2 a (lo + i)) as [x Hx]; [lia|].
    rewrite Hx. f_equal. symmetry. now apply nth_lookup_R.
  - rewrite lookup_seq_ge by lia. simpl.
    destruct (decide (lo + i < hi)); [lia|].
    apply lookup_ge_None. rewrite length_take. lia.
Qed.

Lemma zip_with_map_same {A B C D} (f : B -> C -> D) (a : A -> B) (b : A -> C)
    (l : list A) :
  zip_with f (map a l) (map b l) = map (fun j => f (a j) (b j)) l.
Proof. induction l as [|x l IH]; simpl; [reflexivity | now rewrite IH]. Qed.

Lemma Rsum_imap (f : nat -> R -> R) (l : list R) :
  Rsum (imap f l) = Rsum_upto (length l) (fun i => f i (nth i l 0%R)).
Proof.
  unfold Rsum_upto. revert f. induction l as [|x l IH]; intros f; [reflexivity|].
  simpl. f_equal. rewrite IH. rewrite <- seq_shift, map_map. reflexivity.
Qed.

Lemma Rsum_upto_ext (n : nat) (f g : nat -> R) :
  (forall i, i < n -> f i = g i) -> Rsum_upto n f = Rsum_upto n g.
Proof.
  intros H. unfold Rsum_upto. f_equal. apply map_ext_in.
  intros i Hi. apply in_seq in Hi. apply H. lia.
Qed.

Lemma nth_slice_0 (n i : nat) (a : list R) :
  i < n -> nth i (slice 0 n a) 0%R = nth i a 0%R.
Proof.
  intros H. unfold slice. rewrite drop_0, !nth_lookup, lookup_take_lt by lia.
  reflexivity.
Qed.

(** ** Inference *)

(** On a weight vector of at least the expected length and an input with
    one entry per feature, the forward pass raises nothing, leaves the world
    as it is and computes the specification's formula. *)
Lemma forward_pass_spec (w : world) (self : oid) (a : Genetic_AI) (x : list R) :
  objects w !! self = Some a ->
  length x = num_features a ->
  expected_length (num_features a) (hidden_size a) <= length (genotype a) ->
  _forward_pass self x w
  = Ok (spec_output (genotype a) (num_features a) (hidden_size a) x) w.
Proof.
  intros Hself Hx Hlen. unfold expected_length in Hlen.
  set (nf := num_features a) in *. set (hs := hidden_size a) in *.
  unfold _forward_pass, bind, getattr. rewrite Hself. fold nf hs.
  unfold np_reshape. rewrite length_slice by lia.
  rewrite Nat.sub_0_r, Nat.eqb_refl. simpl.
  destruct (lookup_lt_is_Some_2 (genotype a) (nf * hs + hs + hs)) as [b2 Hb2];
    [lia|].
  unfold getitem. rewrite Hb2. simpl.
  unfold np_dot_vm. simpl. rewrite Hx, Nat.eqb_refl. simpl.
  unfold np_add. rewrite length_map, length_seq, length_slice by lia.
  replace (nf * hs + hs - nf * hs) with hs by lia. rewrite Nat.eqb_refl. simpl.
  unfold np_dot_vv.
  rewrite length_map, length_zip_with, length_map, length_seq,
    !length_slice by lia.
  replace (nf * hs + hs - nf * hs) with hs by lia.
  replace (nf * hs + hs + hs - (nf * hs + hs)) with hs by lia.
  rewrite Nat.min_id, Nat.eqb_refl. simpl. unfold ret. f_equal.
  unfold spec_output, spec_b2. rewrite (nth_lookup_R _ _ _ Hb2). f_equal.
  rewrite (slice_as_map (nf * hs) (nf * hs + hs)) by lia.
  rewrite (slice_as_map (nf * hs + hs) (nf * hs + hs + hs)) by lia.
  replace (nf * hs + hs - nf * hs) with hs by lia.
  replace (nf * hs + hs + hs - (nf * hs + hs)) with hs by lia.
  rewrite zip_with_map_same, map_map, zip_with_map_same.
  unfold Rsum_upto at 1. f_equal. apply map_ext_in. intros j Hj.
  apply in_seq in Hj. unfold spec_W2, spec_b1. f_equal. f_equal. f_equal.
  rewrite Rsum_imap, Hx. apply Rsum_upto_ext. intros i Hi.
  unfold spec_W1. f_equal. apply nth_slice_0. fold nf in Hi. nia.
Qed.

(** C1 (amended).  For every raw state (gapDistance, horizontalDistance,
    birdHeight, bias) and every controller of six features whose weight
    vector has the length expected for six features and its hidden size,
    [getMove] raises nothing and returns the decision
    [tanh(features . W1 + b1) . W2 + b2 > 0] on the six features
    gapDistance/256, horizontalDistance/568, birdHeight/512, velocity/10,
    min(horizontalDistance/568, 1) and the alignment flag, where velocity is
    birdHeight minus lastObservedY (0 when unset) and W1, b1, W2, b2 are the
    consecutive slices of the flat weight vector; the world it leaves
    differs from the one it found only in that controller, whose
    lastObservedY is now birdHeight and whose other fields are as they
    were. *)
Theorem getMove_spec (w : world) (self : oid) (a : Genetic_AI)
    (gapDistance horizontalDistance birdHeight bias : R) :
  objects w !! self = Some a ->
  num_features a = 6 ->
  length (genotype a) = expected_length 6 (hidden_size a) ->
  getMove self [gapDistance; horizontalDistance; birdHeight; bias] w
  = Ok (Rltb 0 (spec_output (genotype a) 6 (hidden_size a)
                  (spec_features gapDistance horizontalDistance birdHeight
                                 (previous_y a))))
       (store_update w self
          (mkGenetic_AI (num_features a) (hidden_size a) (genotype a)
                        (fit_score a) (fit_rel a) (Some birdHeight))).
Proof.
  intros Hself Hnf Hlen.
  change (mkGenetic_AI (num_features a) (hidden_size a) (genotype a)
                       (fit_score a) (fit_rel a) (Some birdHeight))
    with (with_previous_y (Some birdHeight) a).
  assert (Hlt : self < length (objects w)) by (eapply lookup_lt_Some; eauto).
  unfold getMove, bind at 1, getattr. rewrite Hself.
  assert (Hfp : forall x, length x = 6 ->
            _forward_pass self x
              (store_update w self (with_previous_y (Some birdHeight) a))
            = Ok (spec_output (genotype a) 6 (hidden_size a) x)
                 (store_update w self (with_previous_y (Some birdHeight) a))).
  { intros x Hx.
    rewrite (forward_pass_spec _ self (with_previous_y (Some birdHeight) a) x).
    - simpl. rewrite Hnf. reflexivity.
    - simpl. now apply list_lookup_insert_eq.
    - simpl. now rewrite Hnf.
    - simpl. rewrite Hnf, Hlen. lia. }
  destruct (previous_y a) as [prev|] eqn:Hprev;
    unfold bind, setattr, lift, getitem, ret; simpl; rewrite Hself; simpl;
    fold (store_update w self (with_previous_y (Some birdHeight) a));
    rewrite Hfp by reflexivity; unfold spec_features; reflexivity.
Qed.

Lemma getMove_spec_witness :
  getMove 0 [0; 200; 256; 1]%R (world_with [zero_agent] [] [] [])
  = Ok (Rltb 0 (spec_output (repeat 0%R 65) 6 8
                  (spec_features 0 200 256 None)))
       (store_update (world_with [zero_agent] [] [] []) 0
          (mkGenetic_AI 6 8 (repeat 0%R 65) 0 0 (Some 256%R))).
Proof.
  apply (getMove_spec (world_with [zero_agent] [] [] []) 0 zero_agent);
    reflexivity.
Defined.

(** ** Fitness aggregation *)

Lemma bind_Ok {A B} (m : M A) (k : A -> M B) (w w' : world) (a : A) :
  m w = Ok a w' -> bind m k w = k a w'.
Proof. intros H. unfold bind. now rewrite H. Qed.

Lemma for_cons {A S} (x : A) (xs : list A) (body : A -> S -> M S) (s : S)
    (w : world) :
  for_ (x :: xs) body s w
  = match body x s w with
    | Ok s' w' => for_ xs body s' w'
    | Raise e => Raise e
    | Timeout => Timeout
    end.
Proof. reflexivity. Qed.

Lemma for_snoc {A S} (xs : list A) (x : A) (body : A -> S -> M S) (s : S)
    (w : world) :
  for_ (xs ++ [x]) body s w
  = match for_ xs body s w with
    | Ok s' w' => body x s' w'
    | Raise e => Raise e
    | Timeout => Timeout
    end.
Proof.
  revert s w. induction xs as [|y xs IH]; intros s w; simpl.
  - unfold bind. destruct (body x s w); reflexivity.
  - unfold bind.
    destruct (body y s w) as [s' w'| |]; [apply IH | reflexivity | reflexivity].
Qed.

Lemma range_S (n : nat) : range (S n) = range n ++ [n].
Proof. unfold range. now rewrite seq_S. Qed.

(** The trial loop collects exactly the scores the episodes yield. *)
Lemma trial_loop_episodes (mains : oid -> M R) (agent : oid) (w w' : world)
    (n : nat) (scores : list R) :
  episodes mains agent w n scores w' ->
  for_ (range n)
    (fun trial fitness =>
       setattr agent (with_previous_y None) ;;;
       score <- mains agent ;;
       ret (fitness ++ [score]))
    [] w
  = Ok scores w'.
Proof.
  induction 1 as [w | w w1 w2 w3 n scores score _ IH Hreset Hrun].
  - reflexivity.
  - rewrite range_S, for_snoc, IH. unfold bind. rewrite Hreset, Hrun.
    reflexivity.
Qed.

Lemma episodes_length (mains : oid -> M R) (agent : oid) (w w' : world)
    (n : nat) (scores : list R) :
  episodes mains agent w n scores w' -> length scores = n.
Proof.
  induction 1; [reflexivity|]. rewrite length_app. simpl. lia.
Qed.

Lemma np_std_nonneg (a : list R) : (0 <= np_std a)%R.
Proof. unfold np_std. apply sqrt_pos. Qed.

(** The value returned for the collected scores, by the cases of the
    specification. *)
Lemma fitness_of_scores_cases (scores : list R) :
  (2 < length scores /\ np_std scores <> 0%R ->
   fitness_of_scores scores
   = match retained scores with
     | [] => np_mean scores
     | _ :: _ => np_mean (retained scores)
     end)
  /\ (~ (2 < length scores /\ np_std scores <> 0%R) ->
      fitness_of_scores scores = np_mean scores).
Proof.
  unfold fitness_of_scores. fold (retained scores). split.
  - intros [Hn Hstd].
    destruct (2 <? length scores) eqn:E; [|apply Nat.ltb_ge in E; lia].
    destruct (Rltb 0 (np_std scores)) eqn:E2.
    + destruct (retained scores); reflexivity.
    + apply Rltb_false in E2. pose proof (np_std_nonneg scores). lra.
  - intros Hno.
    destruct (2 <? length scores) eqn:E; [|reflexivity].
    apply Nat.ltb_lt in E.
    destruct (Rltb 0 (np_std scores)) eqn:E2; [|reflexivity].
    apply Rltb_true in E2. exfalso. apply Hno. split; [lia | lra].
Qed.

Lemma Rsum_lower_bound (c : R) (l : list R) :
  l <> [] -> Forall (fun y => (c < y)%R) l -> (c * INR (length l) < Rsum l)%R.
Proof.
  induction l as [|x l IH]; intros Hne Hall; [congruence|].
  apply Forall_cons in Hall as [Hx Hall].
  destruct l as [|y l].
  - simpl. lra.
  - specialize (IH ltac:(discriminate) Hall).
    change (Rsum (x :: y :: l)) with (x + Rsum (y :: l))%R.
    change (length (x :: y :: l)) with (S (length (y :: l))).
    rewrite S_INR. lra.
Qed.

Lemma Rsum_squares_nonneg (m : R) (l : list R) :
  (0 <= Rsum (map (fun x => (x - m) * (x - m)) l))%R.
Proof.
  induction l as [|x l IH]; [simpl; lra|].
  change (0 <= (x - m) * (x - m) + Rsum (map (fun x => (x - m) * (x - m)) l))%R.
  pose proof (Rle_0_sqr (x - m)) as Hsq. unfold Rsqr in Hsq. lra.
Qed.

Lemma np_mean_times_length (a : list R) :
  a <> [] -> (np_mean a * INR (length a) = Rsum a)%R.
Proof.
  intros Hne. unfold np_mean.
  assert (INR (length a) <> 0%R).
  { apply not_0_INR. destruct a; [congruence | discriminate]. }
  field. assumption.
Qed.

Lemma filter_nil_inv {A} (f : A -> bool) (l : list A) :
  List.filter f l = [] -> Forall (fun x => f x = false) l.
Proof.
  induction l as [|x l IH]; simpl; intros H; [constructor|].
  destruct (f x) eqn:E; [discriminate|]. constructor; auto.
Qed.

Lemma filter_all {A} (f : A -> bool) (l : list A) :
  Forall (fun x => f x = true) l -> List.filter f l = l.
Proof.
  induction 1 as [|x l Hx _ IH]; simpl; [reflexivity|]. now rewrite Hx, IH.
Qed.

(** Some score of a non-empty sample lies within two standard deviations
    of the mean: were every squared deviation above four times the
    variance, so would be their mean, the variance itself. *)
Lemma retained_nonempty (scores : list R) :
  scores <> [] -> retained scores <> [].
Proof.
  intros Hne Hnil. apply filter_nil_inv in Hnil.
  set (m := np_mean scores) in *.
  set (sq := map (fun x => ((x - m) * (x - m))%R) scores).
  set (V := np_mean sq).
  assert (Hsd : np_std scores = sqrt V) by reflexivity.
  assert (Hlen : length sq = length scores) by apply length_map.
  assert (Hsqne : sq <> []).
  { intros E. apply Hne. apply length_zero_iff_nil.
    rewrite <- Hlen, E. reflexivity. }
  assert (Hn : (0 < INR (length sq))%R).
  { apply lt_0_INR. destruct sq; [congruence | simpl; lia]. }
  assert (Hsum : (V * INR (length sq) = Rsum sq)%R)
    by now apply np_mean_times_length.
  assert (Hsum0 : (0 <= Rsum sq)%R) by apply Rsum_squares_nonneg.
  assert (HV : (0 <= V)%R).
  { apply Rnot_lt_le. intros HV.
    assert ((V * INR (length sq) < 0 * INR (length sq))%R)
      by (apply Rmult_lt_compat_r; assumption).
    lra. }
  assert (Hbig : Forall (fun y => (4 * V < y)%R) sq).
  { unfold sq. rewrite Forall_map. eapply Forall_impl; [exact Hnil|].
    intros x Hx. simpl in Hx. apply Rleb_false in Hx. rewrite Hsd in Hx.
    pose proof (sqrt_sqrt V HV) as Hs. pose proof (sqrt_pos V) as Hp.
    assert (Habs : (Rabs (x - m) * Rabs (x - m) = (x - m) * (x - m))%R).
    { unfold Rabs. destruct (Rcase_abs (x - m)); lra. }
    rewrite <- Habs. nra. }
  pose proof (Rsum_lower_bound _ _ Hsqne Hbig). nra.
Qed.

(** C10. For every list of more than two scores whose standard deviation
    is not zero, some score lies within two standard deviations of the
    mean, so the filtered sample is not empty, the branch that averages all
    scores again is not taken and the aggregate is the mean of the scores
    retained. *)
Theorem filtered_sample_never_empty (scores : list R) :
  2 < length scores ->
  np_std scores <> 0%R ->
  (exists x, In x scores
             /\ (Rabs (x - np_mean scores) <= 2 * np_std scores)%R)
  /\ retained scores <> []
  /\ fitness_of_scores scores = np_mean (retained scores).
Proof.
  intros Hn Hstd.
  assert (Hne : scores <> []) by (destruct scores; [simpl in Hn; lia | discriminate]).
  pose proof (retained_nonempty scores Hne) as Hret.
  split; [|split; [exact Hret|]].
  - destruct (retained scores) as [|x r] eqn:E; [congruence|].
    exists x. assert (Hin : In x (retained scores)) by (rewrite E; now left).
    unfold retained in Hin. apply filter_In in Hin as [Hin Hx].
    split; [exact Hin | now apply Rleb_true in Hx].
  - destruct (fitness_of_scores_cases scores) as [Hcase _].
    rewrite Hcase by (split; assumption).
    destruct (retained scores); [congruence | reflexivity].
Qed.

(** *** The specification's outlier example *)

Lemma example_mean : np_mean example_scores = 48%R.
Proof. unfold np_mean, example_scores. simpl. lra. Qed.

Lemma example_std : np_std example_scores = sqrt (28882 / 5).
Proof.
  unfold np_std. rewrite example_mean. f_equal.
  unfold np_mean, example_scores. simpl. lra.
Qed.

(** Twice the standard deviation is at least 152, the distance of 200
    from the mean. *)
Lemma example_std_bound : (76 <= np_std example_scores)%R.
Proof.
  rewrite example_std. replace 76%R with (sqrt (76 * 76)).
  - apply sqrt_le_1_alt. lra.
  - apply sqrt_square. lra.
Qed.

Lemma example_retained : retained example_scores = example_scores.
Proof.
  unfold retained. apply filter_all. rewrite example_mean.
  pose proof example_std_bound as Hb.
  set (sd := np_std example_scores) in *. unfold example_scores.
  repeat (apply Forall_cons; split;
          [apply Rleb_true;
           match goal with |- (Rabs ?d <= _)%R =>
             unfold Rabs; destruct (Rcase_abs d); lra end|]).
  now apply Forall_nil.
Qed.

Lemma example_fitness : fitness_of_scores example_scores = 48%R.
Proof.
  destruct (fitness_of_scores_cases example_scores) as [Hcase _].
  rewrite Hcase.
  - rewrite example_retained. apply example_mean.
  - split; [simpl; lia|]. pose proof example_std_bound. lra.
Qed.

Lemma filtered_sample_never_empty_witness :
  (exists x, In x example_scores
             /\ (Rabs (x - np_mean example_scores)
                 <= 2 * np_std example_scores)%R)
  /\ retained example_scores <> []
  /\ fitness_of_scores example_scores = np_mean (retained example_scores).
Proof.
  apply (filtered_sample_never_empty example_scores).
  - simpl. lia.
  - pose proof example_std_bound. lra.
Defined.

Lemma example_episodes :
  episodes replay_mains 0 example_world 5 example_scores example_world_end.
Proof.
  change example_scores
    with ((((([] ++ [10]) ++ [11]) ++ [9]) ++ [10]) ++ [200])%R.
  eapply episodes_more;
    [eapply episodes_more;
     [eapply episodes_more;
      [eapply episodes_more;
       [eapply episodes_more; [apply episodes_none | |] | |] | |] | |] | |];
    reflexivity.
Qed.

Lemma compute_fitness_episodes (mains : oid -> M R) (agent : oid)
    (w w' : world) (n : nat) (scores : list R) :
  episodes mains agent w n scores w' ->
  compute_fitness mains agent n w = Ok (fitness_of_scores scores) w'.
Proof.
  intros H. unfold compute_fitness. unfold bind at 1.
  now rewrite (trial_loop_episodes _ _ _ _ _ _ H).
Qed.

(** C2 (amended in its example).  Whenever the trials of a controller
    yield the scores [scores], [compute_fitness] returns: if the trial
    count is greater than 2 and the standard deviation of the scores is not
    zero, the mean of the scores at most 2 standard deviations from the
    mean, or the mean of all scores if none is; in every other case the
    mean of all scores.  In particular for the scores 10, 11, 9, 10, 200 of
    5 trials the result is 48: twice the standard deviation exceeds 152,
    so 200 is retained. *)
Theorem compute_fitness_spec (mains : oid -> M R) (agent : oid)
    (w w' : world) (n : nat) (scores : list R) :
  episodes mains agent w n scores w' ->
  exists v : R,
    compute_fitness mains agent n w = Ok v w'
    /\ (2 < n /\ np_std scores <> 0%R ->
        v = match retained scores with
            | [] => np_mean scores
            | _ :: _ => np_mean (retained scores)
            end)
    /\ (~ (2 < n /\ np_std scores <> 0%R) -> v = np_mean scores)
    /\ (scores = example_scores -> v = 48%R).
Proof.
  intros H. exists (fitness_of_scores scores).
  pose proof (episodes_length _ _ _ _ _ _ H) as Hlen.
  destruct (fitness_of_scores_cases scores) as [Hyes Hno].
  rewrite Hlen in Hyes, Hno.
  repeat split; auto using compute_fitness_episodes.
  intros ->. apply example_fitness.
Qed.

Lemma compute_fitness_spec_witness :
  exists v : R,
    compute_fitness replay_mains 0 5 example_world = Ok v example_world_end
    /\ (2 < 5 /\ np_std example_scores <> 0%R ->
        v = match retained example_scores with
            | [] => np_mean example_scores
            | _ :: _ => np_mean (retained example_scores)
            end)
    /\ (~ (2 < 5 /\ np_std example_scores <> 0%R) ->
        v = np_mean example_scores)
    /\ (example_scores = example_scores -> v = 48%R).
Proof.
  apply (compute_fitness_spec replay_mains 0 example_world example_world_end
                              5 example_scores).
  apply example_episodes.
Defined.

(** On the example of the specification the aggregate is 48, not 10. *)
Lemma compute_fitness_example_not_10 :
  compute_fitness replay_mains 0 5 example_world = Ok 48%R example_world_end
  /\ 48%R <> 10%R.
Proof.
  split; [|lra].
  rewrite (compute_fitness_episodes _ _ _ _ _ _ example_episodes).
  now rewrite example_fitness.
Qed.

(** ** Construction and mutation *)

Lemma np_clip_clipped (lo hi v : R) :
  (lo <= hi)%R -> Rmin (Rmax v lo) hi = clipped lo hi v.
Proof.
  intros H. unfold clipped, Rmin, Rmax, Rltb.
  destruct (Rle_dec v lo), (Rlt_dec v lo), (Rlt_dec hi v);
    repeat match goal with |- context [Rle_dec ?a ?b] => destruct (Rle_dec a b) end;
    lra.
Qed.

Lemma clipped_bounds (lo hi v : R) :
  (lo <= hi)%R -> (lo <= clipped lo hi v <= hi)%R.
Proof.
  intros H. unfold clipped.
  destruct (Rltb v lo) eqn:E1; [lra|]. apply Rltb_false in E1.
  destruct (Rltb hi v) eqn:E2; [lra|]. apply Rltb_false in E2. lra.
Qed.

Lemma mutated_genes (d : nat -> R) (c : nat) (noise_sd : R) (g : list R) :
  np_clip (zip_with Rplus g
             (map (fun z => (0 + noise_sd * z)%R) (map d (seq c (length g)))))
          (-3) 3
  = imap (fun i x => clipped (-3) 3 (x + (0 + noise_sd * d (c + i)))) g.
Proof.
  unfold np_clip. revert c. induction g as [|x g IH]; intros c; [reflexivity|].
  simpl. f_equal.
  - rewrite Nat.add_0_r. apply np_clip_clipped. lra.
  - rewrite IH. apply imap_ext. intros i y _. simpl.
    now replace (S (c + i)) with (c + S i) by lia.
Qed.

(** What the constructor does with a supplied vector and [mutate=True]. *)
Lemma init_mutate_eq (w : world) (g : list R) (nf hs : nat) (noise_sd : R) :
  (0 <= noise_sd)%R ->
  Genetic_AI__init__ (Some g) nf hs true noise_sd w
  = Ok (length (objects w))
       (with_new_object (after_np_draws w (length g))
          (mkGenetic_AI nf hs
             (imap (fun i x => clipped (-3) 3 (x + drawn_noise w noise_sd i)) g)
             0 0 None)).
Proof.
  intros Hsd. unfold Genetic_AI__init__. simpl negb. cbv iota.
  unfold bind, np_random_normal.
  assert (E : Rltb noise_sd 0 = false) by (apply Rltb_false; lra).
  rewrite E. unfold take_draws, np_add.
  rewrite !length_map, length_seq, Nat.eqb_refl. simpl.
  rewrite mutated_genes. reflexivity.
Qed.

(** What the constructor does with a supplied vector and [mutate=False]:
    it keeps the vector, of whatever length. *)
Lemma init_keep_eq (w : world) (g : list R) (nf hs : nat) (noise_sd : R) :
  Genetic_AI__init__ (Some g) nf hs false noise_sd w
  = Ok (length (objects w)) (with_new_object w (mkGenetic_AI nf hs g 0 0 None)).
Proof. reflexivity. Qed.

Lemma lookup_new_object (w : world) (a : Genetic_AI) :
  objects (with_new_object w a) !! length (objects w) = Some a.
Proof. simpl. apply list_lookup_middle. reflexivity. Qed.

Lemma lookup_old_object (w : world) (a b : Genetic_AI) (o : oid) :
  objects w !! o = Some b -> objects (with_new_object w a) !! o = Some b.
Proof. intros H. simpl. now apply lookup_app_l_Some. Qed.

(** C3. For every source controller and every draw of the noise, the
    constructor called on the source's weight vector with [mutate=True]
    returns a new controller whose weight at each index is the source's
    weight plus the noise drawn for that index, clipped to [[-3, 3]]; every
    gene of the new controller lies in [[-3, 3]]; the source controller is
    as it was. *)
Theorem mutation_spec (w : world) (src : oid) (a : Genetic_AI) (nf hs : nat)
    (noise_sd : R) :
  objects w !! src = Some a ->
  (0 <= noise_sd)%R ->
  exists (new : oid) (w' : world) (child : Genetic_AI),
    Genetic_AI__init__ (Some (genotype a)) nf hs true noise_sd w = Ok new w'
    /\ objects w !! new = None
    /\ objects w' !! new = Some child
    /\ length (genotype child) = length (genotype a)
    /\ (forall i x, genotype a !! i = Some x ->
          genotype child !! i
          = Some (clipped (-3) 3 (x + drawn_noise w noise_sd i)))
    /\ Forall (fun gene => (-3 <= gene <= 3)%R) (genotype child)
    /\ objects w' !! src = Some a.
Proof.
  intros Hsrc Hsd. eexists _, _, _. rewrite init_mutate_eq by assumption.
  split; [reflexivity|]. split; [apply lookup_ge_None; lia|].
  split; [apply (lookup_new_object (after_np_draws w _))|]. simpl.
  split; [apply length_imap|].
  split; [intros i x Hx; rewrite list_lookup_imap, Hx; reflexivity|].
  split; [|now apply lookup_app_l_Some].
  apply Forall_forall. intros gene Hin.
  apply list_elem_of_lookup in Hin as [i Hi].
  rewrite list_lookup_imap in Hi.
  destruct (genotype a !! i) as [x|]; [|discriminate]. simpl in Hi.
  injection Hi as <-. apply clipped_bounds. lra.
Qed.

Lemma mutation_spec_witness :
  exists (new : oid) (w' : world) (child : Genetic_AI),
    Genetic_AI__init__ (Some (genotype zero_agent)) 6 8 true default_noise_sd
                       mutation_world
    = Ok new w'
    /\ objects mutation_world !! new = None
    /\ objects w' !! new = Some child
    /\ length (genotype child) = length (genotype zero_agent)
    /\ (forall i x, genotype zero_agent !! i = Some x ->
          genotype child !! i
          = Some (clipped (-3) 3
                    (x + drawn_noise mutation_world default_noise_sd i)))
    /\ Forall (fun gene => (-3 <= gene <= 3)%R) (genotype child)
    /\ objects w' !! 0 = Some zero_agent.
Proof.
  apply (mutation_spec mutation_world 0 zero_agent 6 8 default_noise_sd).
  - reflexivity.
  - unfold default_noise_sd. lra.
Defined.

(** C4 (amended).  The constructor makes no check of the length of a
    supplied weight vector: for every vector, whatever its length, and
    every architecture, construction succeeds (the noise's standard
    deviation not being negative), the new controller's vector has the
    length of the one supplied, and without mutation it is that vector. *)
Theorem init_accepts_any_length (w : world) (g : list R) (nf hs : nat)
    (mutate : bool) (noise_sd : R) :
  (0 <= noise_sd)%R ->
  exists (new : oid) (w' : world) (child : Genetic_AI),
    Genetic_AI__init__ (Some g) nf hs mutate noise_sd w = Ok new w'
    /\ objects w' !! new = Some child
    /\ num_features child = nf
    /\ hidden_size child = hs
    /\ length (genotype child) = length g
    /\ (mutate = false -> genotype child = g).
Proof.
  intros Hsd. destruct mutate.
  - eexists _, _, _. rewrite init_mutate_eq by assumption.
    split; [reflexivity|].
    split; [apply (lookup_new_object (after_np_draws w _))|].
    simpl. repeat split; [apply length_imap | discriminate].
  - eexists _, _, _. rewrite init_keep_eq.
    split; [reflexivity|]. split; [apply lookup_new_object|].
    simpl. repeat split.
Qed.

Lemma init_accepts_any_length_witness :
  exists (new : oid) (w' : world) (child : Genetic_AI),
    Genetic_AI__init__ (Some short_vector) 6 8 false default_noise_sd
                       (world_with [] [] [] [])
    = Ok new w'
    /\ objects w' !! new = Some child
    /\ num_features child = 6
    /\ hidden_size child = 8
    /\ length (genotype child) = length short_vector
    /\ (false = false -> genotype child = short_vector).
Proof.
  apply (init_accepts_any_length (world_with [] [] [] []) short_vector 6 8
                                 false default_noise_sd).
  unfold default_noise_sd. lra.
Defined.

(** A vector of 3 weights is accepted for the default architecture, which
    expects 65. *)
Lemma init_accepts_short_vector :
  Genetic_AI_new (Some short_vector) false (world_with [] [] [] [])
  = Ok 0 (world_with [mkGenetic_AI 6 8 short_vector 0 0 None] [] [] [])
  /\ length short_vector <> expected_length 6 8.
Proof. split; [reflexivity | simpl; unfold expected_length; lia]. Qed.

(** ** The importer *)

(** C9 (amended).  The importer does not compare the length of the weights
    array with [architecture.total_weights]: for every file read, whatever
    its architecture declares, it builds a controller of the default
    architecture holding the file's weights as they are and, the three test
    episodes having run, returns it. *)
Theorem import_does_not_validate (mains : oid -> M R) (data : weights_file)
    (w w' : world) (scores : list R) :
  episodes mains (length (objects w))
           (with_new_object w (mkGenetic_AI 6 8 (weights data) 0 0 None))
           3 scores w' ->
  load_and_test_exported_weights mains (Some data) w
  = Ok (Some (length (objects w))) w'.
Proof.
  intros H. unfold load_and_test_exported_weights, Genetic_AI_new.
  rewrite (bind_Ok _ _ _ _ _ (init_keep_eq _ _ _ _ _)).
  now rewrite (bind_Ok _ _ _ _ _ (trial_loop_episodes _ _ _ _ _ _ H)).
Qed.

Lemma import_long_file_episodes :
  episodes replay_mains 0
    (with_new_object import_world (mkGenetic_AI 6 8 (weights long_file) 0 0 None))
    3 [1; 2; 3]%R import_world_end.
Proof.
  change [1; 2; 3]%R with ((([] ++ [1]) ++ [2]) ++ [3])%R.
  eapply episodes_more;
    [eapply episodes_more;
     [eapply episodes_more; [apply episodes_none | |] | |] | |];
    reflexivity.
Qed.

Lemma import_does_not_validate_witness :
  load_and_test_exported_weights replay_mains (Some long_file) import_world
  = Ok (Some 0) import_world_end.
Proof.
  apply (import_does_not_validate replay_mains long_file import_world
                                  import_world_end [1; 2; 3]%R).
  apply import_long_file_episodes.
Defined.

(** A file of 66 weights that declares 65 is imported without an error,
    and the controller returned holds the 66 weights. *)
Lemma import_accepts_long_file :
  length (weights long_file) <> total_weights (file_architecture long_file)
  /\ load_and_test_exported_weights replay_mains (Some long_file) import_world
     = Ok (Some 0) import_world_end
  /\ (genotype <$> objects import_world_end !! 0) = Some (weights long_file).
Proof.
  split; [simpl; lia|]. split; [|reflexivity].
  unfold load_and_test_exported_weights, Genetic_AI_new.
  rewrite (bind_Ok _ _ _ _ _ (init_keep_eq _ _ _ _ _)).
  now rewrite (bind_Ok _ _ _ _ _
                 (trial_loop_episodes _ _ _ _ _ _ import_long_file_episodes)).
Qed.

(** ** Crossover *)

(** A loop that appends [f i] at step [i] and leaves the world alone
    builds [f 0 .. f (n - 1)]. *)
Lemma for_range_append {A} (n : nat) (body : nat -> list A -> M (list A))
    (f : nat -> A) (w : world) :
  (forall i acc, i < n -> body i acc w = Ok (acc ++ [f i]) w) ->
  for_ (range n) body [] w = Ok (map f (seq 0 n)) w.
Proof.
  induction n as [|n IH]; intros H; [reflexivity|].
  rewrite range_S, for_snoc, IH by (intros; apply H; lia).
  rewrite H by lia. now rewrite seq_S, map_app.
Qed.

Lemma genotype_at_Ok (w : world) (a : oid) (p : Genetic_AI) (i : nat) (x : R) :
  objects w !! a = Some p -> genotype p !! i = Some x ->
  genotype_at a i w = Ok x w.
Proof.
  intros Ha Hx. unfold genotype_at, bind, getattr, getitem. now rewrite Ha, Hx.
Qed.

Lemma genotype_len_Ok (w : world) (a : oid) (p : Genetic_AI) :
  objects w !! a = Some p -> genotype_len a w = Ok (length (genotype p)) w.
Proof. intros Ha. unfold genotype_len, bind, getattr. now rewrite Ha. Qed.

Lemma fit_score_of_Ok (w : world) (a : oid) (p : Genetic_AI) :
  objects w !! a = Some p -> fit_score_of a w = Ok (fit_score p) w.
Proof. intros Ha. unfold fit_score_of, bind, getattr. now rewrite Ha. Qed.

Lemma lookup_nth_R (l : list R) (i : nat) :
  i < length l -> l !! i = Some (nth i l 0%R).
Proof.
  intros H. destruct (lookup_lt_is_Some_2 l i H) as [x Hx].
  rewrite Hx. f_equal. symmetry. now apply nth_lookup_R.
Qed.

(** The blend of two parents, gene by gene. *)
Lemma blend_loop (w : world) (a1 a2 : oid) (p1 p2 : Genetic_AI) (w1 w2 : R) :
  objects w !! a1 = Some p1 ->
  objects w !! a2 = Some p2 ->
  length (genotype p1) <= length (genotype p2) ->
  for_ (range (length (genotype p1)))
    (fun i new_genotype =>
       x1 <- genotype_at a1 i ;;
       x2 <- genotype_at a2 i ;;
       ret (new_genotype ++ [(w1 * x1 + w2 * x2)%R]))
    [] w
  = Ok (map (fun i => (w1 * nth i (genotype p1) 0 + w2 * nth i (genotype p2) 0)%R)
            (seq 0 (length (genotype p1)))) w.
Proof.
  intros H1 H2 Hlen. apply for_range_append. intros i acc Hi.
  assert (Hi2 : i < length (genotype p2)) by lia.
  rewrite (bind_Ok _ _ _ _ _
             (genotype_at_Ok _ _ _ _ _ H1 (lookup_nth_R _ _ Hi))).
  rewrite (bind_Ok _ _ _ _ _
             (genotype_at_Ok _ _ _ _ _ H2 (lookup_nth_R _ _ Hi2))).
  reflexivity.
Qed.

Lemma convex_between (a b x y : R) :
  (0 <= a)%R -> (0 <= b)%R -> (a + b = 1)%R ->
  (Rmin x y <= a * x + b * y <= Rmax x y)%R.
Proof.
  intros Ha Hb Hab. replace a with (1 - b)%R by lra.
  unfold Rmin, Rmax. destruct (Rle_dec x y) as [Hxy|Hxy].
  - assert (0 <= b * (y - x))%R by (apply Rmult_le_pos; lra).
    assert (0 <= (1 - b) * (y - x))%R by (apply Rmult_le_pos; lra).
    lra.
  - assert (0 <= b * (x - y))%R by (apply Rmult_le_pos; lra).
    assert (0 <= (1 - b) * (x - y))%R by (apply Rmult_le_pos; lra).
    lra.
Qed.

(** C6 (amended).  For every pair of parents of which the second has at
    least as many genes as the first, blend crossover succeeds and
    produces at every gene index i the value wA*parentA[i] + wB*parentB[i];
    when both fitness scores are positive, wA = fitA/(fitA+fitB) and
    wB = fitB/(fitA+fitB), and in exact arithmetic, in which this theorem
    is stated, wA + wB = 1 and the offspring gene lies between the two
    parents' values at i inclusive; whenever the total fitness is not
    positive, both weights are 0.5. *)
Theorem blend_crossover_spec (w : world) (a1 a2 : oid) (p1 p2 : Genetic_AI) :
  objects w !! a1 = Some p1 ->
  objects w !! a2 = Some p2 ->
  length (genotype p1) <= length (genotype p2) ->
  exists (offspring : list R) (wA wB : R),
    cross_new_genotype a1 a2 "blend" w = Ok offspring w
    /\ length offspring = length (genotype p1)
    /\ (forall i x1 x2,
          genotype p1 !! i = Some x1 -> genotype p2 !! i = Some x2 ->
          offspring !! i = Some (wA * x1 + wB * x2)%R)
    /\ ((0 < fit_score p1)%R -> (0 < fit_score p2)%R ->
        wA = (fit_score p1 / (fit_score p1 + fit_score p2))%R
        /\ wB = (fit_score p2 / (fit_score p1 + fit_score p2))%R
        /\ (wA + wB = 1)%R
        /\ (forall i x1 x2 gene,
              genotype p1 !! i = Some x1 -> genotype p2 !! i = Some x2 ->
              offspring !! i = Some gene ->
              (Rmin x1 x2 <= gene <= Rmax x1 x2)%R))
    /\ ((fit_score p1 + fit_score p2 <= 0)%R ->
        wA = 0.5%R /\ wB = 0.5%R).
Proof.
  intros H1 H2 Hlen.
  set (total := (fit_score p1 + fit_score p2)%R).
  set (wA := if Rltb 0 total then (fit_score p1 / total)%R else 0.5%R).
  set (wB := if Rltb 0 total then (fit_score p2 / total)%R else 0.5%R).
  exists (map (fun i => (wA * nth i (genotype p1) 0 + wB * nth i (genotype p2) 0)%R)
              (seq 0 (length (genotype p1)))), wA, wB.
  assert (Hval : forall i x1 x2,
            genotype p1 !! i = Some x1 -> genotype p2 !! i = Some x2 ->
            map (fun i => (wA * nth i (genotype p1) 0
                           + wB * nth i (genotype p2) 0)%R)
                (seq 0 (length (genotype p1))) !! i
            = Some (wA * x1 + wB * x2)%R).
  { intros i x1 x2 Hx1 Hx2. rewrite list_lookup_fmap.
    rewrite lookup_seq_lt by (eapply lookup_lt_Some; eauto). simpl.
    now rewrite (nth_lookup_R _ _ _ Hx1), (nth_lookup_R _ _ _ Hx2). }
  split; [|split; [|split; [|split]]].
  - unfold cross_new_genotype.
    change (String.eqb "blend" "uniform") with false.
    change (String.eqb "blend" "blend") with true. cbv iota.
    rewrite (bind_Ok _ _ _ _ _ (fit_score_of_Ok _ _ _ H1)).
    rewrite (bind_Ok _ _ _ _ _ (fit_score_of_Ok _ _ _ H2)).
    rewrite (bind_Ok _ _ _ _ _ (genotype_len_Ok _ _ _ H1)).
    now apply blend_loop.
  - now rewrite length_map, length_seq.
  - exact Hval.
  - intros Hf1 Hf2.
    assert (Ht : (0 < total)%R) by (unfold total; lra).
    assert (EA : wA = (fit_score p1 / total)%R).
    { unfold wA. now rewrite (proj2 (Rltb_true 0 total) Ht). }
    assert (EB : wB = (fit_score p2 / total)%R).
    { unfold wB. now rewrite (proj2 (Rltb_true 0 total) Ht). }
    assert (Hsum : (wA + wB = 1)%R).
    { rewrite EA, EB. unfold total. field. unfold total in Ht. lra. }
    split; [exact EA|]. split; [exact EB|]. split; [exact Hsum|].
    intros i x1 x2 gene Hx1 Hx2 Hg. rewrite (Hval i x1 x2 Hx1 Hx2) in Hg.
    injection Hg as <-. apply convex_between; [| |exact Hsum].
    + rewrite EA. apply Rlt_le, Rdiv_lt_0_compat; assumption.
    + rewrite EB. apply Rlt_le, Rdiv_lt_0_compat; assumption.
  - intros Ht. fold total in Ht.
    assert (E : Rltb 0 total = false) by now apply Rltb_false.
    unfold wA, wB. rewrite E. split; reflexivity.
Qed.

Lemma blend_crossover_spec_witness :
  exists (offspring : list R) (wA wB : R),
    cross_new_genotype 0 1 "blend" scenario_world = Ok offspring scenario_world
    /\ length offspring = length (genotype agent_A)
    /\ (forall i x1 x2,
          genotype agent_A !! i = Some x1 -> genotype agent_B !! i = Some x2 ->
          offspring !! i = Some (wA * x1 + wB * x2)%R)
    /\ ((0 < fit_score agent_A)%R -> (0 < fit_score agent_B)%R ->
        wA = (fit_score agent_A / (fit_score agent_A + fit_score agent_B))%R
        /\ wB = (fit_score agent_B / (fit_score agent_A + fit_score agent_B))%R
        /\ (wA + wB = 1)%R
        /\ (forall i x1 x2 gene,
              genotype agent_A !! i = Some x1 ->
              genotype agent_B !! i = Some x2 ->
              offspring !! i = Some gene ->
              (Rmin x1 x2 <= gene <= Rmax x1 x2)%R))
    /\ ((fit_score agent_A + fit_score agent_B <= 0)%R ->
        wA = 0.5%R /\ wB = 0.5%R).
Proof.
  apply (blend_crossover_spec scenario_world 0 1 agent_A agent_B).
  - reflexivity.
  - reflexivity.
  - simpl. lia.
Defined.

(** ** Tournament selection *)

Lemma sample_picks_S {A} (k : nat) (pool : list A) (t : tape nat) :
  sample_picks (S k) pool t
  = match pool !! (fst (next_draw t) mod length pool) with
    | Some x =>
        (x :: fst (sample_picks k (delete (fst (next_draw t) mod length pool) pool)
                                (snd (next_draw t))),
         snd (sample_picks k (delete (fst (next_draw t) mod length pool) pool)
                           (snd (next_draw t))))
    | None => ([], snd (next_draw t))
    end.
Proof. reflexivity. Qed.

(** A sample of [k] elements is [k] elements of the pool at pairwise
    distinct positions: with the elements not drawn it rearranges the
    pool. *)
Lemma sample_picks_spec {A} (k : nat) (pool : list A) (t : tape nat) :
  k <= length pool ->
  length (fst (sample_picks k pool t)) = k
  /\ exists rest, fst (sample_picks k pool t) ++ rest ≡ₚ pool.
Proof.
  revert pool t. induction k as [|k IH]; intros pool t Hk.
  - split; [reflexivity|]. exists pool. reflexivity.
  - rewrite sample_picks_S.
    assert (Hi : fst (next_draw t) mod length pool < length pool)
      by (apply Nat.mod_upper_bound; lia).
    destruct (lookup_lt_is_Some_2 _ _ Hi) as [x Hx]. rewrite Hx.
    cbn [fst snd length app].
    assert (Hlen : k <= length (delete (fst (next_draw t) mod length pool) pool)).
    { rewrite length_delete by eauto. lia. }
    destruct (IH _ (snd (next_draw t)) Hlen) as [Hl [rest Hrest]].
    split; [now rewrite Hl|]. exists rest. rewrite Hrest.
    symmetry. now apply delete_Permutation.
Qed.

Lemma random_sample_spec {A} (population : list A) (k : nat) (w : world) :
  k <= length population ->
  exists (sample : list A) (t : tape nat),
    random_sample population k w = Ok sample (with_py_choice w t)
    /\ length sample = k
    /\ exists rest, sample ++ rest ≡ₚ population.
Proof.
  intros Hk. unfold random_sample.
  destruct (length population <? k) eqn:E; [apply Nat.ltb_lt in E; lia|].
  eexists _, _. split; [reflexivity|]. now apply sample_picks_spec.
Qed.

Lemma fit_score_of_valid (w : world) (o : oid) :
  valid w o -> fit_score_of o w = Ok (fit_in w o) w.
Proof.
  intros [a Ha]. unfold fit_in. rewrite Ha. now apply fit_score_of_Ok.
Qed.

(** The scan of [max]: the candidate kept is the first of the largest
    fitness seen. *)
Lemma max_scan (w : world) (xs : list oid) (best : oid) :
  Forall (valid w) xs ->
  exists b : oid,
    for_ xs
      (fun y best =>
         ky <- fit_score_of y ;;
         if Rltb (snd best) ky then ret (y, ky) else ret best)
      (best, fit_in w best) w
    = Ok (b, fit_in w b) w
    /\ (b = best \/ b ∈ xs)
    /\ (fit_in w best <= fit_in w b)%R
    /\ Forall (fun y => (fit_in w y <= fit_in w b)%R) xs.
Proof.
  revert best. induction xs as [|y xs IH]; intros best Hv.
  - exists best. simpl. repeat split; auto. lra.
  - apply Forall_cons in Hv as [Hy Hv]. rewrite for_cons.
    rewrite (bind_Ok _ _ _ _ _ (fit_score_of_valid _ _ Hy)).
    cbn [snd].
    destruct (Rltb (fit_in w best) (fit_in w y)) eqn:E.
    + apply Rltb_true in E. destruct (IH y Hv) as [b (Hrun & Hin & Hle & Hall)].
      exists b. split; [exact Hrun|]. split; [|split].
      * right. destruct Hin as [->|Hin]; [left | right]; auto.
      * lra.
      * apply Forall_cons. split; [exact Hle | exact Hall].
    + apply Rltb_false in E.
      destruct (IH best Hv) as [b (Hrun & Hin & Hle & Hall)].
      exists b. split; [exact Hrun|]. split; [|split].
      * destruct Hin as [->|Hin]; [left | right; right]; auto.
      * exact Hle.
      * apply Forall_cons. split; [lra | exact Hall].
Qed.

(** [max] returns a member of the list no member of which is fitter. *)
Lemma max_by_fit_score_spec (w : world) (l : list oid) :
  l <> [] -> Forall (valid w) l ->
  exists b : oid,
    max_by_fit_score l w = Ok b w
    /\ b ∈ l
    /\ Forall (fun y => (fit_in w y <= fit_in w b)%R) l.
Proof.
  intros Hne Hv. destruct l as [|x xs]; [congruence|].
  apply Forall_cons in Hv as [Hx Hv].
  destruct (max_scan w xs x Hv) as [b (Hrun & Hin & Hle & Hall)].
  exists b. split; [|split].
  - unfold max_by_fit_score.
    rewrite (bind_Ok _ _ _ _ _ (fit_score_of_valid _ _ Hx)).
    rewrite (bind_Ok _ _ _ _ _ Hrun). reflexivity.
  - destruct Hin as [->|Hin]; [left | right]; auto.
  - apply Forall_cons. split; assumption.
Qed.

(** Tournament selection on a non-empty pool and a positive size: a
    sample of [min(tournament_size, |pool|)] members of the pool at
    distinct positions is drawn, and a member of the sample that no other
    member exceeds in fitness is returned; only the generator of [random]
    has advanced. *)
Lemma tournament_selection_spec (w : world) (population : list oid)
    (tournament_size : nat) :
  population <> [] ->
  0 < tournament_size ->
  Forall (valid w) population ->
  exists (winner : oid) (sample : list oid) (t : tape nat),
    tournament_selection population tournament_size w
    = Ok winner (with_py_choice w t)
    /\ length sample = Nat.min tournament_size (length population)
    /\ (exists rest, sample ++ rest ≡ₚ population)
    /\ winner ∈ sample
    /\ Forall (fun y => (fit_in w y <= fit_in w winner)%R) sample.
Proof.
  intros Hne Hk Hv.
  destruct (random_sample_spec population
              (Nat.min tournament_size (length population)) w)
    as (sample & t & Hrun & Hlen & rest & Hperm); [lia|].
  assert (Hsne : sample <> []).
  { intros ->. simpl in Hlen. destruct population; [congruence|].
    simpl in Hlen. lia. }
  assert (Hsv : Forall (valid (with_py_choice w t)) sample).
  { rewrite <- Hperm in Hv. now apply Forall_app in Hv as [Hv _]. }
  destruct (max_by_fit_score_spec _ sample Hsne Hsv) as (b & Hmax & Hin & Hall).
  exists b, sample, t. split; [|repeat split; eauto].
  unfold tournament_selection. now rewrite (bind_Ok _ _ _ _ _ Hrun).
Qed.

(** A tournament as large as the pool samples the whole pool, so it
    returns the pool's fittest member when there is exactly one. *)
Lemma tournament_whole_pool (w : world) (pool : list oid) (k : nat) (best : oid) :
  Forall (valid w) pool ->
  length pool <= k ->
  best ∈ pool ->
  (forall y, y ∈ pool -> y <> best -> (fit_in w y < fit_in w best)%R) ->
  exists t, tournament_selection pool k w = Ok best (with_py_choice w t).
Proof.
  intros Hv Hk Hbest Huniq.
  assert (Hne : pool <> []) by (intros ->; now apply not_elem_of_nil in Hbest).
  assert (Hpos : 0 < k) by (destruct pool; [congruence | simpl in Hk; lia]).
  destruct (tournament_selection_spec w pool k Hne Hpos Hv)
    as (winner & sample & t & Hrun & Hlen & [rest Hperm] & Hin & Hall).
  exists t. rewrite Hrun. f_equal.
  assert (Hrest : rest = []).
  { apply length_zero_iff_nil. apply Permutation_length in Hperm.
    rewrite length_app in Hperm. lia. }
  subst rest. rewrite app_nil_r in Hperm.
  assert (Hb : best ∈ sample) by now rewrite Hperm.
  assert (Hw : winner ∈ pool) by now rewrite <- Hperm.
  destruct (decide (winner = best)) as [|Hneq]; [assumption|].
  specialize (Huniq winner Hw Hneq).
  rewrite Forall_forall in Hall. specialize (Hall best Hb). lra.
Qed.

(** With such a pool of more than one member the retry loop draws the
    first parent again at every turn and never ends. *)
Lemma retry_never_ends (fuel : nat) (w : world) (pool : list oid) (k : nat)
    (best : oid) :
  Forall (valid w) pool ->
  1 < length pool <= k ->
  best ∈ pool ->
  (forall y, y ∈ pool -> y <> best -> (fit_in w y < fit_in w best)%R) ->
  while_ fuel
    (fun parent2 => (best =? parent2) && (1 <? length pool))
    (fun _ => tournament_selection pool k)
    best w
  = Timeout.
Proof.
  intros Hv [Hlen Hk] Hbest Huniq. revert w Hv Huniq.
  induction fuel as [|fuel IH]; intros w Hv Huniq.
  - simpl. rewrite Nat.eqb_refl. cbn [andb].
    destruct (1 <? length pool) eqn:E; [reflexivity|].
    apply Nat.ltb_ge in E. lia.
  - cbn [while_]. rewrite Nat.eqb_refl. cbn [andb].
    destruct (1 <? length pool) eqn:E; [|apply Nat.ltb_ge in E; lia].
    destruct (tournament_whole_pool w pool k best Hv Hk Hbest Huniq) as [t Ht].
    rewrite (bind_Ok _ _ _ _ _ Ht). apply IH; assumption.
Qed.

(** The choice of parents among at most three survivors, one of them
    fitter than the others, does not return. *)
Lemma select_parents_never_returns (fuel : nat) (w : world) (pool : list oid)
    (best : oid) :
  Forall (valid w) pool ->
  1 < length pool <= 3 ->
  best ∈ pool ->
  (forall y, y ∈ pool -> y <> best -> (fit_in w y < fit_in w best)%R) ->
  select_parents fuel pool w = Timeout.
Proof.
  intros Hv Hlen Hbest Huniq. unfold select_parents.
  destruct (tournament_whole_pool w pool 3 best Hv ltac:(lia) Hbest Huniq)
    as [t1 H1].
  rewrite (bind_Ok _ _ _ _ _ H1).
  destruct (tournament_whole_pool (with_py_choice w t1) pool 3 best Hv
              ltac:(lia) Hbest Huniq) as [t2 H2].
  rewrite (bind_Ok _ _ _ _ _ H2).
  unfold bind.
  now rewrite (retry_never_ends fuel (with_py_choice (with_py_choice w t1) t2)
                 pool 3 best Hv Hlen Hbest Huniq).
Qed.

(** ** Rules for [total] and [post] *)

Lemma total_ret {A} (a : A) (w : world) (Q : A -> world -> Prop) :
  Q a w -> total (ret a) w Q.
Proof. intros H. exists a, w. split; [reflexivity | exact H]. Qed.

Lemma total_bind {A B} (m : M A) (k : A -> M B) (w : world)
    (Q : B -> world -> Prop) :
  total m w (fun a w1 => total (k a) w1 Q) -> total (bind m k) w Q.
Proof.
  intros (a & w1 & Hm & b & w2 & Hk & HQ). exists b, w2.
  split; [|exact HQ]. now rewrite (bind_Ok _ _ _ _ _ Hm).
Qed.

Lemma total_mono {A} (m : M A) (w : world) (Q Q' : A -> world -> Prop) :
  total m w Q -> (forall a w', Q a w' -> Q' a w') -> total m w Q'.
Proof. intros (a & w' & Hm & HQ) H. exists a, w'. auto. Qed.

Lemma total_post {A} (m : M A) (w : world) (Q : A -> world -> Prop) :
  total m w Q -> post m w Q.
Proof.
  intros (a & w' & Hm & HQ) a' w'' Hm'. rewrite Hm in Hm'.
  injection Hm' as <- <-. exact HQ.
Qed.

(** A [for] loop over [range n] with an invariant indexed by the number
    of turns made. *)
Lemma total_for_range {St} (n : nat) (body : nat -> St -> M St)
    (I : nat -> St -> world -> Prop) (s : St) (w : world) :
  I 0 s w ->
  (forall i s w, i < n -> I i s w -> total (body i s) w (I (S i))) ->
  total (for_ (range n) body s) w (I n).
Proof.
  intros H0 Hstep. induction n as [|n IH].
  - exists s, w. split; [reflexivity | exact H0].
  - destruct IH as (s1 & w1 & Hrun & HI); [intros; apply Hstep; [lia|assumption]|].
    destruct (Hstep n s1 w1 ltac:(lia) HI) as (s2 & w2 & Hb & HI2).
    exists s2, w2. split; [|exact HI2]. now rewrite range_S, for_snoc, Hrun.
Qed.

Lemma post_ret {A} (a : A) (w : world) (Q : A -> world -> Prop) :
  Q a w -> post (ret a) w Q.
Proof. intros H a' w' E. injection E as <- <-. exact H. Qed.

Lemma post_bind {A B} (m : M A) (k : A -> M B) (w : world)
    (Q : B -> world -> Prop) :
  post m w (fun a w1 => post (k a) w1 Q) -> post (bind m k) w Q.
Proof.
  intros H b w2 E. unfold bind in E.
  destruct (m w) as [a w1| |] eqn:Hm; try discriminate.
  exact (H a w1 Hm b w2 E).
Qed.

Lemma post_mono {A} (m : M A) (w : world) (Q Q' : A -> world -> Prop) :
  post m w Q -> (forall a w', Q a w' -> Q' a w') -> post m w Q'.
Proof. intros H HQ a w' E. auto. Qed.

Lemma post_for {A S} (xs : list A) (body : A -> S -> M S)
    (I : S -> world -> Prop) (s : S) (w : world) :
  I s w ->
  (forall x s w, x ∈ xs -> I s w -> post (body x s) w I) ->
  post (for_ xs body s) w I.
Proof.
  revert s w. induction xs as [|x xs IH]; intros s w H0 Hstep.
  - now apply post_ret.
  - cbn [for_]. apply post_bind.
    eapply post_mono; [apply Hstep; [left | exact H0]|].
    intros s1 w1 H1. apply IH; [exact H1|].
    intros y s2 w2 Hy. apply Hstep. now right.
Qed.

Lemma post_while {S} (fuel : nat) (cond : S -> bool) (body : S -> M S)
    (I : S -> world -> Prop) (s : S) (w : world) :
  I s w ->
  (forall s w, I s w -> cond s = true -> post (body s) w I) ->
  post (while_ fuel cond body s) w (fun s' w' => I s' w' /\ cond s' = false).
Proof.
  revert s w. induction fuel as [|fuel IH]; intros s w H0 Hstep.
  - cbn [while_]. destruct (cond s) eqn:E.
    + intros a w' Hd. discriminate.
    + apply post_ret. auto.
  - cbn [while_]. destruct (cond s) eqn:E.
    + apply post_bind. eapply post_mono; [apply Hstep; assumption|].
      intros s1 w1 H1. now apply IH.
    + apply post_ret. auto.
Qed.

(** ** Weight vectors are kept *)

Lemma genes_kept_refl (w : world) : genes_kept w w.
Proof. intros o a H. exists a. auto. Qed.

Lemma genes_kept_trans (w1 w2 w3 : world) :
  genes_kept w1 w2 -> genes_kept w2 w3 -> genes_kept w1 w3.
Proof.
  intros H12 H23 o a H. destruct (H12 o a H) as (a2 & H2 & E2 & F2 & G2).
  destruct (H23 o a2 H2) as (a3 & H3 & E3 & F3 & G3).
  exists a3. repeat split; congruence.
Qed.

Lemma genes_kept_same_objects (w w' : world) :
  objects w' = objects w -> genes_kept w w'.
Proof. intros E o a H. exists a. rewrite E. auto. Qed.

Lemma genes_kept_update (w : world) (o : oid) (a : Genetic_AI)
    (f : Genetic_AI -> Genetic_AI) :
  objects w !! o = Some a ->
  genotype (f a) = genotype a ->
  num_features (f a) = num_features a ->
  hidden_size (f a) = hidden_size a ->
  genes_kept w (store_update w o (f a)).
Proof.
  intros Ho Hg Hn Hh o' b H. simpl.
  destruct (decide (o = o')) as [E|Hne]; [subst o'|].
  - exists (f a). rewrite list_lookup_insert_eq by (eapply lookup_lt_Some; eauto).
    rewrite Ho in H. injection H as <-. auto.
  - exists b. rewrite list_lookup_insert_ne by assumption. auto.
Qed.

Lemma has_len_kept (L : nat) (w w' : world) (o : oid) :
  genes_kept w w' -> has_len L w o -> has_len L w' o.
Proof.
  intros Hk (a & Ha & Hl). destruct (Hk o a Ha) as (a' & Ha' & E & _).
  exists a'. split; [exact Ha' | congruence].
Qed.

Lemma total_step {A B} (m : M A) (k : A -> M B) (w w1 : world) (a : A)
    (Q : B -> world -> Prop) :
  m w = Ok a w1 -> total (k a) w1 Q -> total (bind m k) w Q.
Proof.
  intros Hm (b & w2 & Hk & HQ). exists b, w2. split; [|exact HQ].
  now rewrite (bind_Ok _ _ _ _ _ Hm).
Qed.

(** The list built by uniform crossover has one gene per gene of the
    first parent, each the gene of one of the parents at its index. *)
Lemma uniform_loop_total (L : nat) (w : world) (a1 a2 : oid)
    (p1 p2 : Genetic_AI) :
  objects w !! a1 = Some p1 -> objects w !! a2 = Some p2 ->
  length (genotype p1) = L -> length (genotype p2) = L ->
  total
    (for_ (range L)
       (fun i new_genotype =>
          u <- random_random ;;
          if Rltb u 0.5 then
            x <- genotype_at a1 i ;; ret (new_genotype ++ [x])
          else
            x <- genotype_at a2 i ;; ret (new_genotype ++ [x]))
       [])
    w (fun g w' =>
         objects w' = objects w /\ length g = L
         /\ forall i x, g !! i = Some x ->
              genotype p1 !! i = Some x \/ genotype p2 !! i = Some x).
Proof.
  intros H1 H2 Hl1 Hl2.
  apply (total_for_range L _
           (fun i g w' =>
              objects w' = objects w /\ length g = i
              /\ forall j x, g !! j = Some x ->
                   genotype p1 !! j = Some x \/ genotype p2 !! j = Some x)).
  { split; [reflexivity|]. split; [reflexivity|]. intros j x Hx.
    now rewrite lookup_nil in Hx. }
  intros i g w1 Hi (Hobj & Hlen & Hfrom).
  eapply total_step; [reflexivity|].
  set (w2 := World _ _ _ _).
  assert (Hobj2 : objects w2 = objects w) by exact Hobj.
  assert (Hx1 : genotype p1 !! i = Some (nth i (genotype p1) 0%R))
    by (apply lookup_nth_R; lia).
  assert (Hx2 : genotype p2 !! i = Some (nth i (genotype p2) 0%R))
    by (apply lookup_nth_R; lia).
  assert (Hsnoc : forall y,
            genotype p1 !! i = Some y \/ genotype p2 !! i = Some y ->
            forall j x, (g ++ [y]) !! j = Some x ->
              genotype p1 !! j = Some x \/ genotype p2 !! j = Some x).
  { intros y Hy j x Hx. apply lookup_snoc_Some in Hx as [[_ Hx]|[-> <-]].
    - now apply Hfrom.
    - now rewrite Hlen. }
  destruct (Rltb _ 0.5).
  - eapply total_step;
      [apply (genotype_at_Ok w2 a1 p1); [now rewrite Hobj2 | exact Hx1]|].
    apply total_ret. split; [exact Hobj2|].
    split; [rewrite length_app; simpl; lia|]. apply Hsnoc. now left.
  - eapply total_step;
      [apply (genotype_at_Ok w2 a2 p2); [now rewrite Hobj2 | exact Hx2]|].
    apply total_ret. split; [exact Hobj2|].
    split; [rewrite length_app; simpl; lia|]. apply Hsnoc. now right.
Qed.

Lemma randint_total (a b : Z) (w : world) :
  (a <= b)%Z ->
  total (random_randint a b) w
        (fun r w' => objects w' = objects w /\ (a <= r <= b)%Z).
Proof.
  intros Hab. unfold random_randint, total.
  destruct (b <? a)%Z eqn:E; [apply Z.ltb_lt in E; lia|].
  eexists _, _. split; [reflexivity|]. split; [reflexivity|].
  simpl fst.
  pose proof (Z.mod_pos_bound (Z.of_nat (draws (py_choice w) (cursor (py_choice w))))
                (b - a + 1) ltac:(lia)).
  lia.
Qed.

(** The list [new_genotype] of [cross]: on parents of [L] weights each
    strategy builds [L] weights; single-point crossover needs [2 <= L]
    for its cut to exist. *)
Lemma cross_new_genotype_total (L : nat) (w : world) (a1 a2 : oid)
    (aggregate : string) :
  has_len L w a1 -> has_len L w a2 ->
  (aggregate <> "uniform"%string -> aggregate <> "blend"%string -> 2 <= L) ->
  total (cross_new_genotype a1 a2 aggregate) w
        (fun g w' => objects w' = objects w /\ length g = L).
Proof.
  intros H1 H2 Hcut. unfold cross_new_genotype.
  destruct H1 as (p1 & Hp1 & Hl1). destruct H2 as (p2 & Hp2 & Hl2).
  destruct (String.eqb aggregate "uniform") eqn:Eu.
  - eapply total_step; [exact (genotype_len_Ok _ _ _ Hp1)|]. rewrite Hl1.
    eapply total_mono; [now apply (uniform_loop_total L w a1 a2 p1 p2)|].
    intros g w' (Hobj & Hlen & _). auto.
  - destruct (String.eqb aggregate "blend") eqn:Eb.
    + eapply total_step; [exact (fit_score_of_Ok _ _ _ Hp1)|].
      eapply total_step; [exact (fit_score_of_Ok _ _ _ Hp2)|].
      eapply total_step; [exact (genotype_len_Ok _ _ _ Hp1)|].
      eexists _, _. split; [apply (blend_loop w a1 a2 p1 p2); auto; lia|].
      split; [reflexivity|]. now rewrite length_map, length_seq.
    + apply String.eqb_neq in Eu, Eb. specialize (Hcut Eu Eb).
      eapply total_step; [exact (genotype_len_Ok _ _ _ Hp1)|].
      apply total_bind.
      eapply total_mono; [apply randint_total; lia|].
      intros cp w1 [Hobj Hcp]. cbv beta.
      eapply total_step;
        [unfold getattr; rewrite Hobj, Hp1; reflexivity|].
      eapply total_step;
        [unfold getattr; rewrite Hobj, Hp2; reflexivity|].
      apply total_ret. split; [exact Hobj|].
      rewrite length_app, length_slice, length_drop by lia. lia.
Qed.

Lemma imap_clipped_bounds (f : nat -> R) (g : list R) :
  Forall (fun gene => (-3 <= gene <= 3)%R)
         (imap (fun i x => clipped (-3) 3 (x + f i)) g).
Proof.
  apply Forall_forall. intros gene Hin.
  apply list_elem_of_lookup in Hin as [i Hi].
  rewrite list_lookup_imap in Hi.
  destruct (g !! i) as [x|]; [|discriminate]. simpl in Hi.
  injection Hi as <-. apply clipped_bounds. lra.
Qed.

(** [cross] on two parents of [L] weights allocates one controller, of
    [L] weights and of the default architecture whatever the parents', and
    changes no other. *)
Lemma cross_total (L : nat) (w : world) (a1 a2 : oid) (aggregate : string) :
  has_len L w a1 -> has_len L w a2 ->
  (aggregate <> "uniform"%string -> aggregate <> "blend"%string -> 2 <= L) ->
  total (cross a1 a2 aggregate) w
        (fun c w' =>
           exists child,
             c = length (objects w)
             /\ objects w' = objects w ++ [child]
             /\ offspring_record L child).
Proof.
  intros H1 H2 Hcut. unfold cross. apply total_bind.
  eapply total_mono; [now apply (cross_new_genotype_total L)|].
  intros g w1 [Hobj Hlen]. cbv beta. unfold Genetic_AI_new.
  eexists _, _. split; [apply init_mutate_eq; unfold default_noise_sd; lra|].
  eexists. split; [now rewrite Hobj|]. split; [simpl; now rewrite Hobj|].
  unfold offspring_record. simpl. rewrite length_imap.
  repeat split; auto. apply imap_clipped_bounds.
Qed.

Lemma cross_post (L : nat) (w : world) (a1 a2 : oid) (aggregate : string) :
  has_len L w a1 -> has_len L w a2 ->
  post (cross a1 a2 aggregate) w
       (fun c w' =>
          exists child,
            c = length (objects w)
            /\ objects w' = objects w ++ [child]
            /\ offspring_record L child).
Proof.
  intros H1 H2.
  assert (Hcases :
            (aggregate <> "uniform"%string -> aggregate <> "blend"%string
             -> 2 <= L)
            \/ (String.eqb aggregate "uniform" = false
                /\ String.eqb aggregate "blend" = false /\ L < 2)).
  { destruct (String.eqb aggregate "uniform") eqn:Eu;
      [left; intros Hu; apply String.eqb_eq in Eu; congruence|].
    destruct (String.eqb aggregate "blend") eqn:Eb;
      [left; intros _ Hb; apply String.eqb_eq in Eb; congruence|].
    destruct (le_lt_dec 2 L); [left | right]; auto. }
  destruct Hcases as [Hok|(Hu & Hb & HL)].
  - now apply total_post, cross_total.
  - intros c w' E. exfalso. unfold cross, cross_new_genotype in E.
    rewrite Hu, Hb in E. destruct H1 as (p1 & Hp1 & Hl1).
    unfold bind in E. rewrite (genotype_len_Ok _ _ _ Hp1) in E.
    unfold random_randint in E.
    destruct (Z.of_nat (length (genotype p1)) - 1 <? 1)%Z eqn:Ez;
      [discriminate | apply Z.ltb_ge in Ez; lia].
Qed.

(** What the constructor does without a vector: it draws one of the
    expected length. *)
Lemma init_random_eq (w : world) (nf hs : nat) (mutate : bool) (noise_sd : R) :
  nf + hs <> 0 ->
  exists g,
    Genetic_AI__init__ None nf hs mutate noise_sd w
    = Ok (length (objects w))
         (with_new_object (after_np_draws w (expected_length nf hs))
                          (mkGenetic_AI nf hs g 0 0 None))
    /\ length g = expected_length nf hs.
Proof.
  intros Hne. unfold Genetic_AI__init__, _xavier_init.
  destruct (nf + hs =? 0) eqn:E; [apply Nat.eqb_eq in E; lia|].
  eexists. split; [reflexivity|].
  now rewrite !length_map, length_seq.
Qed.

(** ** Ranking and elites *)

Lemma insert_desc_perm (x : nat * R) (l : list (nat * R)) :
  insert_desc x l ≡ₚ x :: l.
Proof.
  induction l as [|y l IH]; [reflexivity|]. simpl.
  destruct (Rltb (snd x) (snd y)); [|reflexivity].
  rewrite IH. apply Permutation_swap.
Qed.

Lemma sort_desc_perm (l : list (nat * R)) : foldr insert_desc [] l ≡ₚ l.
Proof.
  induction l as [|x l IH]; [reflexivity|]. simpl.
  now rewrite insert_desc_perm, IH.
Qed.

Lemma ranked_perm (w : world) (population : list oid) :
  ranked w population ≡ₚ population.
Proof.
  unfold ranked. rewrite sort_desc_perm, map_map. simpl.
  now rewrite map_id.
Qed.

Lemma keys_loop (w : world) (population : list oid) (keyed : list (nat * R)) :
  Forall (valid w) population ->
  for_ population
    (fun a keyed => k <- fit_score_of a ;; ret (keyed ++ [(a, k)]))
    keyed w
  = Ok (keyed ++ map (fun o => (o, fit_in w o)) population) w.
Proof.
  revert keyed. induction population as [|o l IH]; intros keyed Hv.
  - simpl. now rewrite app_nil_r.
  - apply Forall_cons in Hv as [Ho Hv]. rewrite for_cons.
    rewrite (bind_Ok _ _ _ _ _ (fit_score_of_valid _ _ Ho)).
    unfold ret. rewrite IH by assumption. now rewrite <- app_assoc.
Qed.

(** [sorted] returns the ranking and leaves the world as it is. *)
Lemma sorted_reverse_eq (w : world) (population : list oid) :
  Forall (valid w) population ->
  sorted_reverse population w = Ok (ranked w population) w.
Proof.
  intros Hv. unfold sorted_reverse.
  now rewrite (bind_Ok _ _ _ _ _ (keys_loop w population [] Hv)).
Qed.

Lemma has_len_valid (L : nat) (w : world) (o : oid) :
  has_len L w o -> valid w o.
Proof. intros (a & Ha & _). now exists a. Qed.

Lemma np_iadd_same_length (a b : list R) :
  length a = length b ->
  np_iadd a b = Return (zip_with Rplus a b).
Proof. intros H. unfold np_iadd. now rewrite H, Nat.eqb_refl. Qed.

(** The elite loop: for the top [num_elite] of the ranking it allocates,
    in this order, controllers that hold the very weight vectors of the
    ranked ones, with fitness 0 and lastObservedY unset; it draws nothing
    and changes no other controller. *)
Lemma elite_selection_total (w : world) (sorted_pop : list oid)
    (num_elite gene_size : nat) :
  num_elite <= length sorted_pop ->
  Forall (has_len gene_size w) sorted_pop ->
  total (elite_selection sorted_pop num_elite gene_size) w
    (fun st w' =>
       exists copies,
         w' = with_new_objects w copies
         /\ length copies = num_elite
         /\ snd st = seq (length (objects w)) num_elite
         /\ forall i e a,
              sorted_pop !! i = Some e -> objects w !! e = Some a ->
              i < num_elite ->
              copies !! i = Some (elite_copy a)).
Proof.
  intros Hn Hall. unfold elite_selection.
  eapply total_mono.
  - apply (total_for_range num_elite _
             (fun i st w' =>
                exists copies,
                  w' = with_new_objects w copies
                  /\ length copies = i
                  /\ snd st = seq (length (objects w)) i
                  /\ length (snd (fst st)) = gene_size
                  /\ forall j e a,
                       sorted_pop !! j = Some e -> objects w !! e = Some a ->
                       j < i ->
                       copies !! j = Some (elite_copy a))).
    + exists []. repeat split.
      * unfold with_new_objects. rewrite app_nil_r. now destruct w.
      * simpl. apply repeat_length.
      * intros j e a _ _ Hj. lia.
    + intros i [[fs genes] ng] w1 Hi (copies & -> & Hlen & Hng & Hgl & Hcopies).
      simpl in Hng, Hgl. subst ng.
      destruct (lookup_lt_is_Some_2 sorted_pop i ltac:(lia)) as [e He].
      rewrite Forall_forall in Hall.
      destruct (Hall e (list_elem_of_lookup_2 _ _ _ He)) as (a & Ha & Hal).
      unfold getitem. rewrite He. cbn [lift].
      eapply total_step; [reflexivity|].
      eapply total_step;
        [unfold getattr; simpl; rewrite (lookup_app_l_Some _ _ _ _ Ha);
         reflexivity|].
      rewrite np_iadd_same_length by congruence. cbn [lift].
      eapply total_step; [reflexivity|].
      eapply total_step; [apply init_keep_eq|].
      apply total_ret. exists (copies ++ [elite_copy a]).
      split; [unfold with_new_object, with_new_objects; simpl;
              now rewrite <- app_assoc|].
      split; [rewrite length_app; simpl; lia|].
      split; [cbn [snd]; unfold with_new_objects; cbn [objects];
              rewrite length_app, Hlen, seq_S; reflexivity|].
      split; [cbn [snd fst]; rewrite length_zip_with; lia|].
      intros j e' a' He' Ha' Hj.
      destruct (decide (j = i)) as [->|Hne].
      * rewrite He in He'. injection He' as <-.
        rewrite Ha in Ha'. injection Ha' as <-.
        rewrite lookup_app_r by lia. now rewrite Hlen, Nat.sub_diag.
      * rewrite lookup_app_l by lia. apply (Hcopies j e' a'); auto. lia.
  - intros st w' (copies & Hw & Hlen & Hng & _ & Hcopies).
    exists copies. auto.
Qed.

(** ** The crossover loop *)

Lemma tournament_total (w : world) (population : list oid) (k : nat) :
  population <> [] -> 0 < k -> Forall (valid w) population ->
  total (tournament_selection population k) w
        (fun b w' => (exists t, w' = with_py_choice w t) /\ b ∈ population).
Proof.
  intros Hne Hk Hv.
  destruct (tournament_selection_spec w population k Hne Hk Hv)
    as (winner & sample & t & Hrun & _ & [rest Hperm] & Hin & _).
  exists winner, (with_py_choice w t). split; [exact Hrun|].
  split; [now exists t|]. rewrite <- Hperm. apply elem_of_app. now left.
Qed.

Lemma tournament_empty (w : world) (k : nat) :
  tournament_selection [] k w = Raise ValueError.
Proof.
  unfold tournament_selection. rewrite Nat.min_0_r. reflexivity.
Qed.

(** If the choice of parents returns, both are members of the pool, they
    differ when the pool has more than one member, and only the generator
    of [random] has advanced. *)
Lemma select_parents_post (fuel : nat) (w : world) (pool : list oid) :
  Forall (valid w) pool ->
  post (select_parents fuel pool) w
       (fun ps w' =>
          (exists t, w' = with_py_choice w t)
          /\ fst ps ∈ pool /\ snd ps ∈ pool
          /\ (1 < length pool -> fst ps <> snd ps)).
Proof.
  intros Hv. destruct pool as [|x pool].
  { intros ps w' E. unfold select_parents, bind in E.
    rewrite tournament_empty in E. discriminate. }
  set (P := x :: pool) in *.
  assert (Hne : P <> []) by discriminate.
  unfold select_parents. apply post_bind.
  eapply post_mono; [apply total_post, (tournament_total w P 3); auto; lia|].
  intros p1 w1 [[t1 ->] Hp1]. cbv beta. apply post_bind.
  eapply post_mono;
    [apply total_post, (tournament_total _ P 3); auto; lia|].
  intros p2 w2 [[t2 ->] Hp2]. cbv beta. apply post_bind.
  eapply post_mono.
  - apply (post_while fuel _ _
             (fun p w' => (exists t, w' = with_py_choice w t) /\ p ∈ P)).
    + split; [now exists t2 | exact Hp2].
    + intros p w' [[t ->] Hp] _.
      eapply post_mono;
        [apply total_post, (tournament_total _ P 3); auto; lia|].
      intros p' w'' [[t' ->] Hp']. split; [now exists t' | exact Hp'].
  - intros p w' [[[t ->] Hp] Hcond]. cbv beta. apply post_ret.
    split; [now exists t|]. split; [exact Hp1|]. split; [exact Hp|].
    cbn [fst snd]. intros Hlen. apply andb_false_iff in Hcond as [Hc|Hc].
    + now apply Nat.eqb_neq in Hc.
    + apply Nat.ltb_ge in Hc. lia.
Qed.

Lemma post_for_range {St} (n : nat) (body : nat -> St -> M St)
    (I : nat -> St -> world -> Prop) (s : St) (w : world) :
  I 0 s w ->
  (forall i s w, i < n -> I i s w -> post (body i s) w (I (S i))) ->
  post (for_ (range n) body s) w (I n).
Proof.
  intros H0 Hstep. induction n as [|n IH].
  - now apply post_ret.
  - intros s2 w2 E. rewrite range_S, for_snoc in E.
    destruct (for_ (range n) body s w) as [s1 w1| |] eqn:Hrun; try discriminate.
    apply (Hstep n s1 w1); [lia | | exact E].
    apply IH; [intros; apply Hstep; [lia | assumption] | exact Hrun].
Qed.

(** If the crossover loop returns, it has allocated [count] controllers,
    each an offspring of [cross], appended their references in this order,
    and changed no other controller. *)
Lemma crossover_loop_post (L fuel : nat) (w : world) (parents : list oid)
    (count : nat) (aggregate : string) (next_gen : list oid) :
  Forall (has_len L w) parents ->
  post (crossover_loop fuel parents count aggregate next_gen) w
       (fun ng w' =>
          exists children,
            objects w' = objects w ++ children
            /\ ng = next_gen ++ seq (length (objects w)) count
            /\ length children = count
            /\ Forall (offspring_record L) children).
Proof.
  intros Hall. unfold crossover_loop.
  apply (post_for_range count _
           (fun i ng w' =>
              exists children,
                objects w' = objects w ++ children
                /\ ng = next_gen ++ seq (length (objects w)) i
                /\ length children = i
                /\ Forall (offspring_record L) children)).
  - exists []. rewrite !app_nil_r. repeat split. constructor.
  - intros i ng w1 Hi (children & Hobj & -> & Hlen & Hch).
    assert (Hall1 : Forall (has_len L w1) parents).
    { eapply Forall_impl; [exact Hall|]. intros o (a & Ha & Hl).
      exists a. split; [|exact Hl]. rewrite Hobj. now apply lookup_app_l_Some. }
    apply post_bind. eapply post_mono.
    { apply select_parents_post. eapply Forall_impl; [exact Hall1|].
      intros o. apply has_len_valid. }
    intros [p1 p2] w2 ([t ->] & Hp1 & Hp2 & _). cbn [fst snd] in *.
    rewrite Forall_forall in Hall1.
    apply post_bind. eapply post_mono.
    { apply (cross_post L); [apply (Hall1 p1 Hp1) | apply (Hall1 p2 Hp2)]. }
    intros c w3 (child & -> & Hobj3 & Hrec). cbv beta. apply post_ret.
    exists (children ++ [child]).
    change (objects (with_py_choice w1 t)) with (objects w1) in *.
    split; [rewrite Hobj3, Hobj; now rewrite <- app_assoc|].
    split; [rewrite Hobj, length_app, Hlen, seq_S, app_assoc; reflexivity|].
    split; [rewrite length_app; simpl; lia|].
    apply Forall_app. split; [exact Hch | now constructor].
Qed.

Lemma post_lift {A} (r : result A) (w : world) (Q : A -> world -> Prop) :
  (forall a, r = Return a -> Q a w) -> post (lift r) w Q.
Proof.
  intros H. destruct r as [a|e]; simpl.
  - apply post_ret. now apply H.
  - intros a w' E. discriminate.
Qed.

Lemma Forall_slice_to {A} (P : A -> Prop) (k : Z) (l : list A) :
  Forall P l -> Forall P (slice_to k l).
Proof. intros H. unfold slice_to. destruct (k <? 0)%Z; now apply Forall_take. Qed.

Lemma has_len_new_objects (L : nat) (w : world) (l : list Genetic_AI) (o : oid) :
  has_len L w o -> has_len L (with_new_objects w l) o.
Proof.
  intros (a & Ha & Hl). exists a. split; [|exact Hl].
  simpl. now apply lookup_app_l_Some.
Qed.

(** If the selection part of an epoch returns, the next generation is
    made of [num_elite] copies of the top of the ranking, in its order,
    followed by [pop_size - num_elite] offspring of [cross]; all are newly
    allocated and no controller of the old generation has changed. *)
Lemma selection_post (L fuel : nat) (w : world) (population : list oid)
    (pop_size num_elite : nat) (survival_rate : R) (aggregate : string) :
  Forall (has_len L w) population ->
  num_elite <= length population ->
  post (selection fuel population pop_size num_elite survival_rate aggregate L) w
    (fun r w' =>
       exists copies children,
         objects w' = objects w ++ copies ++ children
         /\ fst r = seq (length (objects w)) (num_elite + (pop_size - num_elite))
         /\ length copies = num_elite
         /\ length children = pop_size - num_elite
         /\ (forall i e a,
               ranked w population !! i = Some e -> objects w !! e = Some a ->
               i < num_elite ->
               copies !! i = Some (elite_copy a))
         /\ Forall (offspring_record L) children).
Proof.
  intros Hall Hn. unfold selection.
  assert (Hv : Forall (valid w) population).
  { eapply Forall_impl; [exact Hall|]. intros o. apply has_len_valid. }
  assert (Hranked : Forall (has_len L w) (ranked w population))
    by now rewrite ranked_perm.
  assert (Hrl : num_elite <= length (ranked w population)).
  { now rewrite (Permutation_length (ranked_perm w population)). }
  intros r w' E. rewrite (bind_Ok _ _ _ _ _ (sorted_reverse_eq _ _ Hv)) in E.
  revert r w' E. apply post_bind, post_lift. intros top _. apply post_bind.
  eapply post_mono;
    [apply total_post, (elite_selection_total w _ num_elite L Hrl Hranked)|].
  intros [[fs genes] ng] w1 (copies & -> & Hcl & Hng & Hcopies).
  cbn [snd] in Hng. subst ng. cbv beta iota. apply post_bind.
  eapply post_mono.
  { apply (crossover_loop_post L). apply Forall_slice_to.
    eapply Forall_impl; [exact Hranked|]. intros o.
    apply has_len_new_objects. }
  intros ng w2 (children & Hobj & -> & Hchl & Hch). cbv beta. apply post_ret.
  exists copies, children. cbn [fst].
  split; [rewrite Hobj; simpl; now rewrite <- app_assoc|].
  split; [simpl; rewrite length_app, Hcl; now rewrite seq_app|].
  repeat split; auto.
Qed.

(** *** The end-to-end scenario *)

Lemma py_round_two : py_round (INR 4 * 0.5) = 2%Z.
Proof.
  assert (Ex : (INR 4 * 0.5 = 2)%R) by (simpl; lra). rewrite Ex.
  assert (Ei : Int_part 2 = 2%Z) by (symmetry; apply Int_part_spec; lra).
  unfold py_round, frac_part. rewrite Ei.
  assert (E : Rltb (2 - 2) 0.5 = true) by (apply Rltb_true; lra).
  now rewrite E.
Qed.

Lemma scenario_ranked (floats : tape R) (choices : tape nat) (normals : tape R) :
  ranked (World scenario_agents floats choices normals) [0; 1; 2; 3]
  = [0; 1; 2; 3].
Proof.
  unfold ranked, fit_in. simpl.
  repeat (match goal with
          | |- context [Rltb ?a ?b] =>
              first [ rewrite (proj2 (Rltb_true a b)) by lra
                    | rewrite (proj2 (Rltb_false a b)) by lra ]
          end; simpl).
  reflexivity.
Qed.

Lemma scenario_has_len (floats : tape R) (choices : tape nat) (normals : tape R) :
  Forall (has_len 65 (World scenario_agents floats choices normals)) [0; 1; 2; 3].
Proof.
  repeat (apply Forall_cons; split;
          [eexists; split; [reflexivity | reflexivity]|]).
  now apply Forall_nil.
Qed.

(** C5 (defect).  In the specification's end-to-end scenario (population
    A, B, C, D with fitness 40, 30, 20, 10, one elite, survival rate 0.5)
    the selection part of the epoch does not return, whatever the generator
    draws, whichever the crossover strategy and however many retries are
    allowed: the elite is copied, but the choice of parents for the first
    of the three remaining slots never ends. *)
Theorem selection_scenario_hangs (fuel : nat) (floats : tape R)
    (choices : tape nat) (normals : tape R) (aggregate : string) :
  selection fuel [0; 1; 2; 3] 4 1 0.5 aggregate 65
            (World scenario_agents floats choices normals)
  = Timeout.
Proof.
  set (w := World scenario_agents floats choices normals).
  pose proof (scenario_has_len floats choices normals) as Hall. fold w in Hall.
  assert (Hv : Forall (valid w) [0; 1; 2; 3]).
  { eapply Forall_impl; [exact Hall|]. intros o. apply has_len_valid. }
  unfold selection.
  rewrite (bind_Ok _ _ _ _ _ (sorted_reverse_eq _ _ Hv)).
  pose proof (scenario_ranked floats choices normals) as Hr. fold w in Hr.
  rewrite Hr.
  rewrite (bind_Ok _ _ _ _ _ (eq_refl : lift (getitem [0; 1; 2; 3] 0) w = Ok 0 w)).
  cbv beta.
  destruct (elite_selection_total w [0; 1; 2; 3] 1 65 ltac:(simpl; lia) Hall)
    as ([[fs genes] ng] & w1 & Hrun & copies & -> & Hcl & Hng & Hcopies).
  rewrite (bind_Ok _ _ _ _ _ Hrun). cbv beta iota.
  rewrite py_round_two.
  change (slice_to 2 [0; 1; 2; 3]) with [0; 1].
  unfold bind at 1. unfold crossover_loop.
  change (range (4 - 1)) with [0; 1; 2]. rewrite for_cons.
  unfold bind at 1. unfold bind at 1.
  rewrite (select_parents_never_returns fuel _ [0; 1] 0); [reflexivity | | | |].
  - repeat (apply Forall_cons; split; [eexists; reflexivity|]).
    now apply Forall_nil.
  - simpl. lia.
  - left.
  - intros y Hy Hne. apply elem_of_cons in Hy as [->|Hy]; [congruence|].
    apply elem_of_cons in Hy as [->|Hy]; [|now apply not_elem_of_nil in Hy].
    unfold fit_in. simpl. lra.
Qed.

(** ** Weight vectors over the life of a controller and over a run *)

Lemma post_getattr (o : oid) (w : world) :
  post (getattr o) w (fun a w' => w' = w /\ objects w !! o = Some a).
Proof.
  intros a w' E. unfold getattr in E.
  destruct (objects w !! o) as [b|]; [|discriminate].
  now injection E as <- <-.
Qed.

Lemma post_setattr (o : oid) (f : Genetic_AI -> Genetic_AI) (w : world) :
  post (setattr o f) w
       (fun _ w' => exists a, objects w !! o = Some a
                              /\ w' = store_update w o (f a)).
Proof.
  intros u w' E. unfold setattr in E.
  destruct (objects w !! o) as [b|]; [|discriminate].
  injection E as _ <-. now exists b.
Qed.

Lemma post_pure_lift {A} (r : result A) (w : world) :
  post (lift r) w (fun _ w' => w' = w).
Proof. apply post_lift. reflexivity. Qed.

(** The forward pass leaves the world as it is. *)
Lemma forward_pass_pure (self : oid) (x : list R) (w : world) :
  post (_forward_pass self x) w (fun _ w' => w' = w).
Proof.
  unfold _forward_pass. apply post_bind.
  eapply post_mono; [apply post_getattr|]. intros me w1 [Ew _]; cbv beta in Ew; subst w1. cbv beta zeta.
  repeat (apply post_bind; eapply post_mono; [apply post_pure_lift|];
          intros ? ?w Ew; cbv beta in Ew; subst; cbv beta).
  now apply post_ret.
Qed.

(** [getMove] writes lastObservedY of its controller and nothing else. *)
Lemma getMove_post (self : oid) (state : list R) (w : world) :
  post (getMove self state) w
       (fun _ w' =>
          exists a y, objects w !! self = Some a
                      /\ w' = store_update w self (with_previous_y (Some y) a)).
Proof.
  unfold getMove. apply post_bind.
  eapply post_mono; [apply post_getattr|]. intros me w1 [Ew Hme]; cbv beta in Ew; subst w1. cbv beta.
  apply post_bind.
  apply (post_mono _ _ (fun _ w' => w' = w)).
  { destruct (previous_y me).
    - apply post_bind. eapply post_mono; [apply post_pure_lift|].
      intros ? ?w Ew; cbv beta in Ew; subst. now apply post_ret.
    - now apply post_ret. }
  intros velocity w1 Ew; cbv beta in Ew; subst w1. cbv beta.
  apply post_bind. eapply post_mono; [apply post_pure_lift|].
  intros y w1 Ew; cbv beta in Ew; subst w1. cbv beta.
  apply post_bind. eapply post_mono; [apply post_setattr|].
  intros _ w1 (a & Ha & Ew); cbv beta in Ew; subst w1. cbv beta.
  rewrite Hme in Ha. injection Ha as <-.
  repeat (apply post_bind; eapply post_mono; [apply post_pure_lift|];
          intros ? ?w Ew; cbv beta in Ew; subst; cbv beta).
  cbv zeta. apply post_bind. eapply post_mono; [apply forward_pass_pure|].
  intros out w1 Ew; cbv beta in Ew; subst w1. cbv beta. apply post_ret. now exists me, y.
Qed.

Lemma getMove_keeps_genes (self : oid) (state : list R) (w : world) :
  post (getMove self state) w (fun _ w' => genes_kept w w').
Proof.
  eapply post_mono; [apply getMove_post|].
  intros _ w' (a & y & Ha & Ew); cbv beta in Ew; subst w'. now apply genes_kept_update.
Qed.

Lemma setattr_keeps_genes (o : oid) (f : Genetic_AI -> Genetic_AI) (w : world) :
  (forall a, genotype (f a) = genotype a
             /\ num_features (f a) = num_features a
             /\ hidden_size (f a) = hidden_size a) ->
  post (setattr o f) w (fun _ w' => genes_kept w w').
Proof.
  intros Hf. eapply post_mono; [apply post_setattr|].
  intros _ w' (a & Ha & Ew); cbv beta in Ew; subst w'. destruct (Hf a) as (? & ? & ?).
  now apply genes_kept_update.
Qed.

Section Simulator_keeps_genes.

Variable mains : oid -> M R.
Hypothesis mains_keeps_genes :
  forall agent w, post (mains agent) w (fun _ w' => genes_kept w w').

Lemma trial_keeps_genes (agent : oid) (scores : list R) (w : world) :
  post (setattr agent (with_previous_y None) ;;;
        score <- mains agent ;;
        ret (scores ++ [score]))
       w (fun _ w' => genes_kept w w').
Proof.
  apply post_bind.
  eapply post_mono; [apply setattr_keeps_genes; intros a; auto|].
  intros ?u w1 H1. cbv beta in H1. cbv beta. apply post_bind.
  eapply post_mono; [apply mains_keeps_genes|].
  intros score w2 H2. cbv beta in H2. cbv beta. apply post_ret.
  eapply genes_kept_trans; eauto.
Qed.

Lemma compute_fitness_keeps_genes (agent : oid) (num_trials : nat) (w : world) :
  post (compute_fitness mains agent num_trials) w
       (fun _ w' => genes_kept w w').
Proof.
  unfold compute_fitness. apply post_bind.
  eapply post_mono.
  - apply (post_for _ _ (fun _ w' => genes_kept w w')).
    + apply genes_kept_refl.
    + intros trial scores w1 _ H1.
      eapply post_mono; [apply trial_keeps_genes|].
      intros ?u w2 H2. cbv beta in H2. eapply genes_kept_trans; eauto.
  - intros scores w1 H1. cbv beta in H1. cbv beta. now apply post_ret.
Qed.

Lemma fitness_phase_keeps_genes (population : list oid)
    (pop_size num_trials gene_size : nat) (w : world) :
  post (fitness_phase mains population pop_size num_trials gene_size) w
       (fun _ w' => genes_kept w w').
Proof.
  unfold fitness_phase. apply post_bind.
  eapply post_mono.
  - apply (post_for _ _ (fun _ w' => genes_kept w w')).
    + apply genes_kept_refl.
    + intros n [total_fitness gene] w1 _ H1. cbv beta iota.
      apply post_bind. eapply post_mono; [apply post_pure_lift|].
      intros agent ?w Ew; cbv beta in Ew; subst. cbv beta. apply post_bind.
      eapply post_mono; [apply compute_fitness_keeps_genes|].
      intros f w2 H2. cbv beta in H2. cbv beta. apply post_bind.
      eapply post_mono; [apply setattr_keeps_genes; intros a; auto|].
      intros ?u w3 H3. cbv beta in H3. cbv beta. apply post_bind.
      eapply post_mono; [apply post_getattr|].
      intros me ?w [Ew _]; cbv beta in Ew; subst. cbv beta. apply post_bind.
      eapply post_mono; [apply post_pure_lift|].
      intros gene' ?w Ew; cbv beta in Ew; subst. cbv beta. apply post_ret.
      eapply genes_kept_trans; [exact H1|].
      eapply genes_kept_trans; eauto.
  - intros st w1 H1. cbv beta in H1. cbv beta. apply post_bind.
    eapply post_mono.
    + apply (post_for _ _ (fun _ w' => genes_kept w w')); [exact H1|].
      intros agent [] w2 _ H2. apply post_bind.
      eapply post_mono; [apply post_getattr|].
      intros me ?w [Ew _]; cbv beta in Ew; subst. cbv beta.
      eapply post_mono; [apply setattr_keeps_genes; intros a; auto|].
      intros ?u w3 H3. cbv beta in H3. eapply genes_kept_trans; eauto.
    + intros ?u w2 H2. cbv beta in H2. cbv beta. now apply post_ret.
Qed.

End Simulator_keeps_genes.

Lemma post_of_eq {A} (m : M A) (w w' : world) (a : A) (Q : A -> world -> Prop) :
  m w = Ok a w' -> Q a w' -> post m w Q.
Proof.
  intros Hm HQ b w'' E. rewrite Hm in E. now injection E as <- <-.
Qed.

Lemma genes_kept_app (w w' : world) (l : list Genetic_AI) :
  objects w' = objects w ++ l -> genes_kept w w'.
Proof.
  intros E o a Ho. exists a. rewrite E.
  split; [now apply lookup_app_l_Some | auto].
Qed.

(** The members of a next generation all have the weight-vector length of
    the generation they come from. *)
Lemma next_generation_has_len (L : nat) (w w' : world) (population : list oid)
    (copies children : list Genetic_AI) (num_elite count : nat) :
  Forall (has_len L w) population ->
  num_elite <= length population ->
  objects w' = objects w ++ copies ++ children ->
  length copies = num_elite ->
  length children = count ->
  (forall i e a,
     ranked w population !! i = Some e -> objects w !! e = Some a ->
     i < num_elite -> copies !! i = Some (elite_copy a)) ->
  Forall (offspring_record L) children ->
  Forall (has_len L w') (seq (length (objects w)) (num_elite + count)).
Proof.
  intros Hall Hn Hobj Hcl Hchl Hcopies Hch.
  apply Forall_forall. intros o Ho. apply elem_of_seq in Ho.
  set (i := o - length (objects w)).
  assert (Eo : o = length (objects w) + i) by lia.
  assert (Hlook : objects w' !! o = (copies ++ children) !! i).
  { rewrite Hobj, Eo. now rewrite lookup_app_r, Nat.add_sub' by lia. }
  unfold has_len. rewrite Hlook.
  destruct (decide (i < num_elite)) as [Hi|Hi].
  - assert (Hrl : i < length (ranked w population)).
    { rewrite (Permutation_length (ranked_perm w population)). lia. }
    destruct (lookup_lt_is_Some_2 _ _ Hrl) as [e He].
    assert (Hin : e ∈ population).
    { rewrite <- (ranked_perm w population).
      eapply list_elem_of_lookup_2; eauto. }
    rewrite Forall_forall in Hall. destruct (Hall e Hin) as (a & Ha & Hl).
    exists (elite_copy a). split; [|exact Hl].
    rewrite lookup_app_l by lia. now apply (Hcopies i e a).
  - destruct (lookup_lt_is_Some_2 children (i - num_elite) ltac:(lia))
      as [child Hc].
    exists child. split; [rewrite lookup_app_r, Hcl by lia; exact Hc|].
    rewrite Forall_forall in Hch.
    now destruct (Hch child (list_elem_of_lookup_2 _ _ _ Hc)).
Qed.

Section Run.

Variable mains : oid -> M R.
Hypothesis mains_keeps_genes :
  forall agent w, post (mains agent) w (fun _ w' => genes_kept w w').

(** An epoch on a population of controllers of [L] weights leaves every
    controller's weight vector as it is and, when it returns, returns a
    generation of controllers of [L] weights. *)
Lemma epoch_post (L fuel : nat) (population : list oid)
    (num_trials pop_size : nat) (aggregate : string) (num_elite : nat)
    (survival_rate : R) (w : world) :
  Forall (has_len L w) population ->
  num_elite <= length population ->
  post (epoch mains fuel population num_trials pop_size aggregate num_elite
              survival_rate) w
       (fun r w' =>
          genes_kept w w'
          /\ Forall (has_len L w') (fst r)
          /\ length (fst r) = num_elite + (pop_size - num_elite)).
Proof.
  intros Hall Hn. unfold epoch.
  apply post_bind, post_lift. intros first Hfirst.
  assert (Hfl : has_len L w first).
  { unfold getitem in Hfirst.
    destruct (population !! 0) as [x|] eqn:E; [|discriminate].
    injection Hfirst as <-. rewrite Forall_forall in Hall.
    apply Hall. eapply list_elem_of_lookup_2; eauto. }
  destruct Hfl as (pf & Hpf & Hpl).
  apply post_bind.
  eapply post_of_eq; [exact (genotype_len_Ok _ _ _ Hpf)|]. rewrite Hpl.
  apply post_bind.
  eapply post_mono; [apply (fitness_phase_keeps_genes mains mains_keeps_genes)|].
  intros [total_fitness gene] w1 H1. cbv beta in H1. cbv beta iota.
  assert (Hall1 : Forall (has_len L w1) population).
  { eapply Forall_impl; [exact Hall|]. intros o. now apply has_len_kept. }
  apply post_bind.
  eapply post_mono; [apply (selection_post L); assumption|].
  intros [next_gen [[sorted_pop efs] eg]] w2
         (copies & children & Hobj & Hng & Hcl & Hchl & Hcopies & Hch).
  cbn [fst] in Hng. cbv beta iota.
  apply post_bind. eapply post_mono; [apply post_pure_lift|].
  intros top_agent w3 Ew; cbv beta in Ew; subst w3. cbv beta.
  apply post_bind. eapply post_mono; [apply post_getattr|].
  intros top w3 [Ew _]; subst w3. cbv beta.
  assert (Hres : genes_kept w w2
                 /\ Forall (has_len L w2) next_gen
                 /\ length next_gen = num_elite + (pop_size - num_elite)).
  { split; [|split].
    - eapply genes_kept_trans; [exact H1|]. eapply genes_kept_app; eauto.
    - rewrite Hng.
      now apply (next_generation_has_len L w1 w2 population copies children).
    - rewrite Hng. apply length_seq. }
  destruct (num_elite =? 0).
  - intros r w' E. discriminate.
  - now apply post_ret.
Qed.

(** Every generation of a run is made of controllers of 65 weights, and
    the run changes the weight vector of no controller. *)
Lemma run_post (fuel num_epochs num_trials pop_size : nat) (aggregate : string)
    (num_elite : nat) (survival_rate : R) (w : world) :
  num_elite <= pop_size ->
  post (run_X_epochs mains fuel num_epochs num_trials pop_size aggregate
                     num_elite survival_rate) w
       (fun r w' =>
          genes_kept w w'
          /\ Forall (has_len 65 w') (fst r)
          /\ length (fst r) = pop_size).
Proof.
  intros Hn. unfold run_X_epochs. apply post_bind.
  eapply post_mono.
  - apply (post_for_range pop_size _
             (fun i population w' =>
                genes_kept w w'
                /\ Forall (has_len 65 w') population
                /\ length population = i)).
    + split; [apply genes_kept_refl|]. split; [constructor | reflexivity].
    + intros i population w1 Hi (Hk & Hall & Hlen).
      destruct (init_random_eq w1 6 8 false default_noise_sd ltac:(lia))
        as (g & Hinit & Hg).
      apply post_bind. eapply post_of_eq; [exact Hinit|]. cbv beta.
      apply post_ret.
      set (w2 := with_new_object _ _).
      assert (Hk12 : genes_kept w1 w2)
        by (apply (genes_kept_app w1 w2 [mkGenetic_AI 6 8 g 0 0 None]);
            reflexivity).
      split; [eapply genes_kept_trans; eauto|].
      split; [|rewrite length_app; simpl; lia].
      apply Forall_app. split.
      * eapply Forall_impl; [exact Hall|]. intros o. now apply has_len_kept.
      * constructor; [|constructor]. eexists.
        split; [apply (lookup_new_object (after_np_draws w1 _)) | exact Hg].
  - intros population w1 (Hk & Hall & Hlen). cbv beta.
    eapply post_mono.
    + apply (post_for _ _
               (fun st w' =>
                  genes_kept w w'
                  /\ Forall (has_len 65 w') (fst st)
                  /\ length (fst st) = pop_size)).
      * auto.
      * intros _ [pop rec] w2 _ (Hk2 & Hall2 & Hlen2). cbn [fst] in *.
        eapply post_mono; [apply (epoch_post 65); [assumption | lia]|].
        intros r w3 (Hk3 & Hall3 & Hlen3).
        split; [eapply genes_kept_trans; eauto|]. split; [assumption|]. lia.
    + auto.
Qed.

End Run.

Lemma replay_keeps_genes (agent : oid) (w : world) :
  post (replay_mains agent) w (fun _ w' => genes_kept w w').
Proof.
  intros score w' E. unfold replay_mains, random_random in E.
  injection E as _ <-. now apply genes_kept_same_objects.
Qed.

(** C8 (amended).  Random initialisation yields a weight vector of length
    features*hidden + hidden + hidden + 1.  Each of the three crossover
    strategies, on parents of one length L (at least 2 for single-point
    crossover, whose cut must exist), and mutation yield a vector of the
    length of the parents or of the source; the offspring of crossover is
    given the default architecture of 6 features and 8 hidden units, so its
    length is features*hidden + hidden + hidden + 1 exactly when L is 65.
    No call of [getMove] changes the weight vector of a controller, and in
    a run (whose simulator changes none either, and with numElite at most
    the population size) no weight vector changes and every generation is
    made of controllers of 65 weights. *)
Theorem weight_vector_length (mains : oid -> M R) (w : world)
    (nf hs L : nat) (a1 a2 self : oid) (aggregate : string) (g state : list R)
    (mutate : bool) (noise_sd survival_rate : R)
    (fuel num_epochs num_trials pop_size num_elite : nat) :
  (forall agent w, post (mains agent) w (fun _ w' => genes_kept w w')) ->
  nf + hs <> 0 ->
  has_len L w a1 -> has_len L w a2 ->
  (aggregate <> "uniform"%string -> aggregate <> "blend"%string -> 2 <= L) ->
  (0 <= noise_sd)%R ->
  num_elite <= pop_size ->
  (exists c w' child,
     Genetic_AI__init__ None nf hs mutate noise_sd w = Ok c w'
     /\ objects w' !! c = Some child
     /\ num_features child = nf /\ hidden_size child = hs
     /\ length (genotype child) = expected_length nf hs)
  /\ (exists c w' child,
        cross a1 a2 aggregate w = Ok c w'
        /\ objects w' !! c = Some child
        /\ num_features child = 6 /\ hidden_size child = 8
        /\ length (genotype child) = L
        /\ (length (genotype child)
            = expected_length (num_features child) (hidden_size child)
            <-> L = 65))
  /\ (exists c w' child,
        Genetic_AI__init__ (Some g) nf hs true noise_sd w = Ok c w'
        /\ objects w' !! c = Some child
        /\ length (genotype child) = length g)
  /\ post (getMove self state) w (fun _ w' => genes_kept w w')
  /\ post (run_X_epochs mains fuel num_epochs num_trials pop_size aggregate
                        num_elite survival_rate) w
          (fun r w' => genes_kept w w' /\ Forall (has_len 65 w') (fst r)).
Proof.
  intros Hmains Hne H1 H2 Hcut Hsd Hn.
  split; [|split; [|split; [|split]]].
  - destruct (init_random_eq w nf hs mutate noise_sd Hne) as (g0 & Hinit & Hg).
    eexists _, _, _. split; [exact Hinit|].
    split; [apply (lookup_new_object (after_np_draws w _))|]. auto.
  - destruct (cross_total L w a1 a2 aggregate H1 H2 Hcut)
      as (c & w' & Hrun & child & -> & Hobj & Hl & Hnf & Hhs & _).
    exists (length (objects w)), w', child. split; [exact Hrun|].
    split; [rewrite Hobj; now apply list_lookup_middle|].
    repeat split; auto; rewrite Hnf, Hhs, Hl; unfold expected_length;
      simpl; lia.
  - eexists _, _, _. rewrite init_mutate_eq by assumption.
    split; [reflexivity|].
    split; [apply (lookup_new_object (after_np_draws w _))|].
    simpl. apply length_imap.
  - apply getMove_keeps_genes.
  - eapply post_mono; [now apply (run_post mains Hmains)|].
    intros r w' (Hk & Hall & _). auto.
Qed.

Lemma weight_vector_length_witness :
  (exists c w' child,
     Genetic_AI__init__ None 6 8 false default_noise_sd scenario_world = Ok c w'
     /\ objects w' !! c = Some child
     /\ num_features child = 6 /\ hidden_size child = 8
     /\ length (genotype child) = expected_length 6 8)
  /\ (exists c w' child,
        cross 0 1 "lin" scenario_world = Ok c w'
        /\ objects w' !! c = Some child
        /\ num_features child = 6 /\ hidden_size child = 8
        /\ length (genotype child) = 65
        /\ (length (genotype child)
            = expected_length (num_features child) (hidden_size child)
            <-> 65 = 65))
  /\ (exists c w' child,
        Genetic_AI__init__ (Some short_vector) 6 8 true default_noise_sd
                           scenario_world
        = Ok c w'
        /\ objects w' !! c = Some child
        /\ length (genotype child) = length short_vector)
  /\ post (getMove 0 [0; 200; 256; 1]%R) scenario_world
          (fun _ w' => genes_kept scenario_world w')
  /\ post (run_X_epochs replay_mains 5 2 3 4 "lin" 4 0.5) scenario_world
          (fun r w' =>
             genes_kept scenario_world w' /\ Forall (has_len 65 w') (fst r)).
Proof.
  apply (weight_vector_length replay_mains scenario_world 6 8 65 0 1 0 "lin"
           short_vector [0; 200; 256; 1]%R false default_noise_sd 0.5
           5 2 3 4 4).
  - exact replay_keeps_genes.
  - lia.
  - exists agent_A. split; reflexivity.
  - exists agent_B. split; reflexivity.
  - intros _ _. lia.
  - unfold default_noise_sd. lra.
  - lia.
Defined.

(** The offspring of two controllers of one feature and one hidden unit,
    each with the 4 weights its architecture expects, has 4 weights and the
    default architecture, which expects 65. *)
Lemma cross_tiny_parents :
  length (genotype tiny_agent_1)
  = expected_length (num_features tiny_agent_1) (hidden_size tiny_agent_1)
  /\ length (genotype tiny_agent_2)
     = expected_length (num_features tiny_agent_2) (hidden_size tiny_agent_2)
  /\ exists c w' child,
       cross 0 1 "uniform" tiny_world = Ok c w'
       /\ objects w' !! c = Some child
       /\ length (genotype child)
          <> expected_length (num_features child) (hidden_size child).
Proof.
  split; [reflexivity|]. split; [reflexivity|].
  destruct (cross_total 4 tiny_world 0 1 "uniform") as
    (c & w' & Hrun & child & -> & Hobj & Hl & Hnf & Hhs & _).
  - exists tiny_agent_1. split; reflexivity.
  - exists tiny_agent_2. split; reflexivity.
  - intros Hu. congruence.
  - exists (length (objects tiny_world)), w', child. split; [exact Hrun|].
    split; [rewrite Hobj; now apply list_lookup_middle|].
    rewrite Hnf, Hhs, Hl. unfold expected_length. simpl. lia.
Qed.

(** ** Further properties *)

Lemma spec_output_app (g extra : list R) (nf hs : nat) (x : list R) :
  length g = expected_length nf hs ->
  spec_output (g ++ extra) nf hs x = spec_output g nf hs x.
Proof.
  intros Hlen. unfold expected_length in Hlen.
  unfold spec_output, spec_W1, spec_b1, spec_W2, spec_b2.
  f_equal; [|apply app_nth1; lia].
  apply Rsum_upto_ext. intros j Hj.
  rewrite !(app_nth1 g extra) by lia.
  f_equal. f_equal. f_equal.
  apply Rsum_upto_ext. intros i Hi. f_equal. apply app_nth1. nia.
Qed.

(** Inference reads only the first features*hidden + hidden + hidden + 1
    weights: on a longer vector it raises nothing and returns what the
    vector cut to that length gives. *)
Theorem inference_ignores_extra_weights (w : world) (self : oid)
    (a : Genetic_AI) (g extra x : list R) :
  objects w !! self = Some a ->
  genotype a = g ++ extra ->
  length g = expected_length (num_features a) (hidden_size a) ->
  length x = num_features a ->
  _forward_pass self x w
  = Ok (spec_output g (num_features a) (hidden_size a) x) w.
Proof.
  intros Hself Hg Hlen Hx.
  rewrite (forward_pass_spec w self a x Hself Hx).
  - now rewrite Hg, spec_output_app.
  - rewrite Hg, length_app. lia.
Qed.

Lemma inference_ignores_extra_weights_witness :
  _forward_pass 0 (spec_features 0 200 256 None)
                (world_with [long_agent] [] [] [])
  = Ok (spec_output (repeat 0%R 65) 6 8 (spec_features 0 200 256 None))
       (world_with [long_agent] [] [] []).
Proof.
  apply (inference_ignores_extra_weights (world_with [long_agent] [] [] []) 0
           long_agent (repeat 0%R 65) [7%R]); reflexivity.
Defined.

(** On a weight vector shorter than the architecture expects inference
    raises: [ValueError] from [reshape] when even the first matrix is
    incomplete, [IndexError] from the read of the output bias otherwise. *)
Theorem inference_raises_on_short_vector (w : world) (self : oid)
    (a : Genetic_AI) (x : list R) :
  objects w !! self = Some a ->
  length (genotype a) < expected_length (num_features a) (hidden_size a) ->
  _forward_pass self x w
  = Raise (if length (genotype a) <? num_features a * hidden_size a
           then ValueError else IndexError).
Proof.
  intros Hself Hlen. unfold expected_length in Hlen.
  unfold _forward_pass, bind, getattr. rewrite Hself.
  unfold np_reshape, slice. rewrite drop_0, length_take.
  destruct (length (genotype a) <? num_features a * hidden_size a) eqn:E.
  - apply Nat.ltb_lt in E.
    destruct (_ =? _) eqn:E2; [apply Nat.eqb_eq in E2; lia | reflexivity].
  - apply Nat.ltb_ge in E.
    destruct (_ =? _) eqn:E2; [|apply Nat.eqb_neq in E2; lia].
    simpl. unfold getitem. rewrite lookup_ge_None_2 by lia. reflexivity.
Qed.

Lemma inference_raises_on_short_vector_witness :
  _forward_pass 0 (spec_features 0 200 256 None)
                (world_with [short_agent] [] [] [])
  = Raise ValueError.
Proof.
  apply (inference_raises_on_short_vector (world_with [short_agent] [] [] [])
           0 short_agent).
  - reflexivity.
  - simpl. unfold expected_length. lia.
Defined.

(** Tournament selection on a non-empty pool with a positive size
    returns: a sample of min(size, |pool|) members of the pool at distinct
    positions has been drawn, the controller returned is a member of the
    sample, no member of the sample is fitter, and only the generator of
    [random] has advanced. *)
Theorem tournament_returns_fittest_of_sample (w : world) (population : list oid)
    (tournament_size : nat) :
  population <> [] ->
  0 < tournament_size ->
  Forall (valid w) population ->
  exists (winner : oid) (sample : list oid) (t : tape nat),
    tournament_selection population tournament_size w
    = Ok winner (with_py_choice w t)
    /\ length sample = Nat.min tournament_size (length population)
    /\ (exists rest, sample ++ rest ≡ₚ population)
    /\ winner ∈ sample
    /\ Forall (fun y => (fit_in w y <= fit_in w winner)%R) sample.
Proof. apply tournament_selection_spec. Qed.

Lemma scenario_valid :
  Forall (valid scenario_world) [0; 1; 2; 3].
Proof.
  eapply Forall_impl; [apply scenario_has_len|]. intros o. apply has_len_valid.
Qed.

Lemma tournament_returns_fittest_of_sample_witness :
  exists (winner : oid) (sample : list oid) (t : tape nat),
    tournament_selection [0; 1; 2; 3] 3 scenario_world
    = Ok winner (with_py_choice scenario_world t)
    /\ length sample = Nat.min 3 (length [0; 1; 2; 3])
    /\ (exists rest, sample ++ rest ≡ₚ [0; 1; 2; 3])
    /\ winner ∈ sample
    /\ Forall (fun y => (fit_in scenario_world y
                         <= fit_in scenario_world winner)%R) sample.
Proof.
  apply (tournament_returns_fittest_of_sample scenario_world [0; 1; 2; 3] 3).
  - discriminate.
  - lia.
  - exact scenario_valid.
Defined.

(** The choice of two parents among at most three survivors of which one
    is fitter than all others does not return, whatever the generator
    draws and however many retries are allowed. *)
Theorem small_pool_never_yields_parents (fuel : nat) (w : world)
    (pool : list oid) (best : oid) :
  Forall (valid w) pool ->
  1 < length pool <= 3 ->
  best ∈ pool ->
  (forall y, y ∈ pool -> y <> best -> (fit_in w y < fit_in w best)%R) ->
  select_parents fuel pool w = Timeout.
Proof. apply select_parents_never_returns. Qed.

Lemma small_pool_never_yields_parents_witness :
  select_parents 1000 [1; 2; 3] scenario_world = Timeout.
Proof.
  apply (small_pool_never_yields_parents 1000 scenario_world [1; 2; 3] 1).
  - repeat (apply Forall_cons; split; [eexists; reflexivity|]).
    now apply Forall_nil.
  - simpl. lia.
  - left.
  - intros y Hy Hne. unfold fit_in.
    repeat (apply elem_of_cons in Hy as [->|Hy]; [try congruence; simpl; lra|]).
    now apply not_elem_of_nil in Hy.
Defined.

(** If the choice of two parents returns, both are members of the survivor
    pool, they are different controllers when the pool has more than one
    member, and only the generator of [random] has advanced. *)
Theorem selected_parents_differ (fuel : nat) (w : world) (pool : list oid) :
  Forall (valid w) pool ->
  post (select_parents fuel pool) w
       (fun parents w' =>
          (exists t, w' = with_py_choice w t)
          /\ fst parents ∈ pool /\ snd parents ∈ pool
          /\ (1 < length pool -> fst parents <> snd parents)).
Proof. apply select_parents_post. Qed.

(** For every ranking of controllers of one weight-vector length and every
    numElite not above its size the elite loop returns: it has allocated
    numElite controllers, in the order of the ranking, each holding the
    weight vector of the ranked controller with fitness 0 and
    lastObservedY unset; it has drawn nothing and changed no controller. *)
Theorem elites_are_unmutated_copies (w : world) (sorted_pop : list oid)
    (num_elite gene_size : nat) :
  num_elite <= length sorted_pop ->
  Forall (has_len gene_size w) sorted_pop ->
  exists st copies,
    elite_selection sorted_pop num_elite gene_size w
    = Ok st (with_new_objects w copies)
    /\ length copies = num_elite
    /\ snd st = seq (length (objects w)) num_elite
    /\ forall i e a,
         sorted_pop !! i = Some e -> objects w !! e = Some a ->
         i < num_elite ->
         copies !! i = Some (mkGenetic_AI 6 8 (genotype a) 0 0 None).
Proof.
  intros Hn Hall.
  destruct (elite_selection_total w sorted_pop num_elite gene_size Hn Hall)
    as (st & w' & Hrun & copies & -> & Hrest).
  exists st, copies. split; [exact Hrun | exact Hrest].
Qed.

Lemma elites_are_unmutated_copies_witness :
  exists st copies,
    elite_selection [0; 1; 2; 3] 2 65 scenario_world
    = Ok st (with_new_objects scenario_world copies)
    /\ length copies = 2
    /\ snd st = seq (length (objects scenario_world)) 2
    /\ forall i e a,
         [0; 1; 2; 3] !! i = Some e -> objects scenario_world !! e = Some a ->
         i < 2 ->
         copies !! i = Some (mkGenetic_AI 6 8 (genotype a) 0 0 None).
Proof.
  apply (elites_are_unmutated_copies scenario_world [0; 1; 2; 3] 2 65).
  - simpl. lia.
  - apply scenario_has_len.
Defined.

(** If the selection part of an epoch returns, the next generation is made
    of newly allocated controllers: numElite copies of the top of the
    ranking, in its order, then pop_size - numElite offspring of [cross],
    each of the default architecture with a weight vector of the
    population's length and every gene in [[-3, 3]]; no controller of the
    old generation has changed. *)
Theorem next_generation_shape (L fuel : nat) (w : world)
    (population : list oid) (pop_size num_elite : nat)
    (survival_rate : R) (aggregate : string) :
  Forall (has_len L w) population ->
  num_elite <= length population ->
  post (selection fuel population pop_size num_elite survival_rate aggregate L) w
    (fun r w' =>
       exists copies children,
         objects w' = objects w ++ copies ++ children
         /\ fst r = seq (length (objects w)) (num_elite + (pop_size - num_elite))
         /\ length copies = num_elite
         /\ length children = pop_size - num_elite
         /\ (forall i e a,
               ranked w population !! i = Some e -> objects w !! e = Some a ->
               i < num_elite ->
               copies !! i = Some (mkGenetic_AI 6 8 (genotype a) 0 0 None))
         /\ Forall (offspring_record L) children).
Proof. apply selection_post. Qed.

(** Uniform crossover on parents of equal length returns a list with one
    gene per index, each the first or the second parent's gene at this
    index. *)
Theorem uniform_crossover_spec (w : world) (a1 a2 : oid) (p1 p2 : Genetic_AI) :
  objects w !! a1 = Some p1 ->
  objects w !! a2 = Some p2 ->
  length (genotype p1) = length (genotype p2) ->
  exists offspring w',
    cross_new_genotype a1 a2 "uniform" w = Ok offspring w'
    /\ objects w' = objects w
    /\ length offspring = length (genotype p1)
    /\ forall i x, offspring !! i = Some x ->
         genotype p1 !! i = Some x \/ genotype p2 !! i = Some x.
Proof.
  intros H1 H2 Hlen. unfold cross_new_genotype.
  change (String.eqb "uniform" "uniform") with true. cbv iota.
  eapply total_step; [exact (genotype_len_Ok _ _ _ H1)|].
  now apply (uniform_loop_total _ w a1 a2 p1 p2).
Qed.

Lemma uniform_crossover_spec_witness :
  exists offspring w',
    cross_new_genotype 0 1 "uniform" scenario_world = Ok offspring w'
    /\ objects w' = objects scenario_world
    /\ length offspring = length (genotype agent_A)
    /\ forall i x, offspring !! i = Some x ->
         genotype agent_A !! i = Some x \/ genotype agent_B !! i = Some x.
Proof.
  apply (uniform_crossover_spec scenario_world 0 1 agent_A agent_B);
    reflexivity.
Defined.

(** Single-point crossover on parents of one length, at least 2, returns
    the first parent's genes before a cut and the second parent's from it
    on, for a cut between 1 and the length minus 1. *)
Theorem single_point_crossover_spec (w : world) (a1 a2 : oid)
    (p1 p2 : Genetic_AI) (aggregate : string) :
  objects w !! a1 = Some p1 ->
  objects w !! a2 = Some p2 ->
  aggregate <> "uniform"%string ->
  aggregate <> "blend"%string ->
  length (genotype p1) = length (genotype p2) ->
  2 <= length (genotype p1) ->
  exists cut w',
    cross_new_genotype a1 a2 aggregate w
    = Ok (take cut (genotype p1) ++ drop cut (genotype p2)) w'
    /\ objects w' = objects w
    /\ 1 <= cut <= length (genotype p1) - 1.
Proof.
  intros H1 H2 Hu Hb Hlen HL. unfold cross_new_genotype.
  apply String.eqb_neq in Hu, Hb. rewrite Hu, Hb.
  rewrite (bind_Ok _ _ _ _ _ (genotype_len_Ok _ _ _ H1)).
  destruct (randint_total 1 (Z.of_nat (length (genotype p1)) - 1) w
                          ltac:(lia)) as (cp & w1 & Hrun & Hobj & Hcp).
  rewrite (bind_Ok _ _ _ _ _ Hrun).
  exists (Z.to_nat cp), w1. unfold bind, getattr.
  rewrite Hobj, H1. cbv beta iota. rewrite Hobj, H2.
  unfold slice. rewrite drop_0. split; [reflexivity|]. split; [reflexivity|]. lia.
Qed.

Lemma single_point_crossover_spec_witness :
  exists cut w',
    cross_new_genotype 0 1 "lin" scenario_world
    = Ok (take cut (genotype agent_A) ++ drop cut (genotype agent_B)) w'
    /\ objects w' = objects scenario_world
    /\ 1 <= cut <= length (genotype agent_A) - 1.
Proof.
  apply (single_point_crossover_spec scenario_world 0 1 agent_A agent_B "lin").
  - reflexivity.
  - reflexivity.
  - discriminate.
  - discriminate.
  - reflexivity.
  - simpl. lia.
Defined.

(** *** Runs on concrete inputs *)

Ltac eval_Rltb :=
  repeat (match goal with
          | |- context [Rltb ?a ?b] =>
              first [ rewrite (proj2 (Rltb_true a b)) by lra
                    | rewrite (proj2 (Rltb_false a b)) by lra ]
          end; cbn).

(** On a pool of four the choice of parents can return: the first
    tournament samples A, B, C and the second B, C, D. *)
Example select_parents_run :
  select_parents 0 [0; 1; 2; 3]
                 (world_with scenario_agents [] [0; 0; 0; 1; 1; 1] [])
  = Ok (0, 1)
       (World scenario_agents (tape_of 0%R [])
              (Tape (fun n => nth n [0; 0; 0; 1; 1; 1] 0) 6) (tape_of 0%R [])).
Proof.
  unfold select_parents, tournament_selection, max_by_fit_score.
  repeat (unfold bind, fit_score_of, getattr, ret; cbn; eval_Rltb).
  reflexivity.
Qed.

Example single_point_run :
  exists w', cross_new_genotype 0 1 "lin"
               (world_with [tiny_agent_1; tiny_agent_2] [] [1] [])
             = Ok [1; 2; 7; 8]%R w'.
Proof. eexists. unfold cross_new_genotype. cbn. reflexivity. Qed.

Example uniform_run :
  exists w', cross_new_genotype 0 1 "uniform"
               (world_with [tiny_agent_1; tiny_agent_2]
                           [0.2; 0.7; 0.4; 0.9]%R [] [])
             = Ok [1; 6; 3; 8]%R w'.
Proof.
  eexists. unfold cross_new_genotype.
  repeat (unfold bind, genotype_len, genotype_at, random_random, getattr, ret;
          cbn; eval_Rltb).
  reflexivity.
Qed.

Example py_round_examples :
  py_round 2.5 = 2%Z /\ py_round 3.5 = 4%Z /\ py_round 1.75 = 2%Z
  /\ py_round (-0.5) = 0%Z /\ py_round (-1.2) = (-1)%Z.
Proof.
  assert (I1 : Int_part 2.5 = 2%Z) by (symmetry; apply Int_part_spec; lra).
  assert (I2 : Int_part 3.5 = 3%Z) by (symmetry; apply Int_part_spec; lra).
  assert (I3 : Int_part 1.75 = 1%Z) by (symmetry; apply Int_part_spec; lra).
  assert (I4 : Int_part (-0.5) = (-1)%Z) by (symmetry; apply Int_part_spec; lra).
  assert (I5 : Int_part (-1.2) = (-2)%Z) by (symmetry; apply Int_part_spec; lra).
  unfold py_round, frac_part. rewrite I1, I2, I3, I4, I5.
  repeat split; eval_Rltb; reflexivity.
Qed.

(** * Further properties of the code *)

(** ** Fitness aggregation on small samples *)

Lemma Rsum_cons (x : R) (l : list R) : Rsum (x :: l) = (x + Rsum l)%R.
Proof. reflexivity. Qed.

Lemma Rsum_app (l1 l2 : list R) : Rsum (l1 ++ l2) = (Rsum l1 + Rsum l2)%R.
Proof.
  induction l1 as [|x l1 IH]; [simpl; lra|].
  change ((x :: l1) ++ l2) with (x :: (l1 ++ l2)). rewrite !Rsum_cons, IH. lra.
Qed.

Lemma Rsum_products_nonneg (l : list R) :
  (0 <= Rsum (map (fun x => x * x) l))%R.
Proof.
  induction l as [|x l IH]; [simpl; lra|].
  cbn [map]. rewrite Rsum_cons.
  pose proof (Rle_0_sqr x) as Hsq. unfold Rsqr in Hsq. lra.
Qed.

(** The square of a sum is at most the number of terms times the sum of
    the squares. *)
Lemma Rsum_square_bound (l : list R) :
  (Rsum l * Rsum l <= INR (length l) * Rsum (map (fun x => x * x) l))%R.
Proof.
  induction l as [|a l IH]; [simpl; lra|].
  cbn [map length]. rewrite !Rsum_cons, S_INR.
  pose proof (Rsum_products_nonneg l) as HQ.
  pose proof (pos_INR (length l)) as Hk.
  set (s := Rsum l) in *. set (q := Rsum (map (fun x => (x * x)%R) l)) in *.
  set (k := INR (length l)) in *.
  assert (Hmix : (2 * a * s <= k * (a * a) + q)%R).
  { destruct (Req_dec_T k 0) as [E|Hne].
    - rewrite E in *.
      assert (Hs : (s * s <= 0)%R) by lra.
      pose proof (Rle_0_sqr s) as Hsq. unfold Rsqr in Hsq.
      assert (Es : s = 0%R).
      { destruct (Req_dec_T s 0) as [Es|Hsn]; [exact Es|].
        pose proof (Rsqr_pos_lt s Hsn) as Hp. unfold Rsqr in Hp. lra. }
      rewrite Es. lra.
    - assert (Hkp : (0 < k)%R) by lra.
      pose proof (Rle_0_sqr (k * a - s)) as Hsq. unfold Rsqr in Hsq.
      apply (Rmult_le_reg_l k); [exact Hkp|].
      assert (Hexp : ((k * a - s) * (k * a - s)
                      = k * (k * (a * a)) - k * (2 * a * s) + s * s)%R) by ring.
      rewrite Hexp in Hsq.
      replace (k * (k * (a * a) + q))%R with (k * (k * (a * a)) + k * q)%R
        by ring.
      lra. }
  replace ((a + s) * (a + s))%R with (a * a + 2 * a * s + s * s)%R by ring.
  replace ((k + 1) * (a * a + q))%R
    with (a * a + (k * (a * a) + q) + k * q)%R by ring.
  lra.
Qed.

Lemma Rsum_shifted (m : R) (l : list R) :
  Rsum (map (fun x => (x - m)%R) l) = (Rsum l - INR (length l) * m)%R.
Proof.
  induction l as [|x l IH]; [simpl; lra|].
  cbn [map length]. rewrite !Rsum_cons, S_INR, IH. lra.
Qed.

(** The deviations from the mean sum to zero. *)
Lemma Rsum_deviations (l : list R) :
  l <> [] -> Rsum (map (fun x => (x - np_mean l)%R) l) = 0%R.
Proof.
  intros Hne. rewrite Rsum_shifted.
  pose proof (np_mean_times_length l Hne). lra.
Qed.

(** No squared deviation exceeds [n - 1] times the variance: with [n]
    values whose deviations from [m] sum to zero, [n] times the squared
    deviation of one of them is at most [n - 1] times the sum of all. *)
Lemma deviation_bound (m x : R) (l : list R) :
  x ∈ l ->
  Rsum (map (fun y => (y - m)%R) l) = 0%R ->
  (INR (length l) * ((x - m) * (x - m))
   <= (INR (length l) - 1) * Rsum (map (fun y => (y - m) * (y - m)) l))%R.
Proof.
  intros Hin Hzero. apply list_elem_of_split in Hin as (l1 & l2 & ->).
  rewrite !map_app, !Rsum_app in *. cbn [map] in *. rewrite !Rsum_cons in *.
  rewrite length_app. cbn [length]. rewrite Nat.add_succ_r, S_INR.
  pose proof (Rsum_square_bound (map (fun y => (y - m)%R) (l1 ++ l2))) as Hcs.
  rewrite length_map, map_map, !map_app, !Rsum_app in Hcs. cbv beta in Hcs.
  rewrite <- length_app.
  set (k := INR (length (l1 ++ l2))) in *.
  set (s1 := Rsum (map (fun y => (y - m)%R) l1)) in *.
  set (s2 := Rsum (map (fun y => (y - m)%R) l2)) in *.
  set (q1 := Rsum (map (fun y => ((y - m) * (y - m))%R) l1)) in *.
  set (q2 := Rsum (map (fun y => ((y - m) * (y - m))%R) l2)) in *.
  assert (Ed : (x - m = - (s1 + s2))%R) by lra.
  replace ((x - m) * (x - m))%R with ((s1 + s2) * (s1 + s2))%R
    by (rewrite Ed; ring).
  replace ((k + 1) * ((s1 + s2) * (s1 + s2)))%R
    with (k * ((s1 + s2) * (s1 + s2)) + (s1 + s2) * (s1 + s2))%R by ring.
  replace ((k + 1 - 1) * (q1 + ((s1 + s2) * (s1 + s2) + q2)))%R
    with (k * ((s1 + s2) * (s1 + s2)) + k * (q1 + q2))%R by ring.
  lra.
Qed.

(** With at most five scores every score lies within two standard
    deviations of the mean. *)
Lemma small_sample_retained (scores : list R) :
  length scores <= 5 -> retained scores = scores.
Proof.
  intros Hn. unfold retained. apply filter_all, Forall_forall. intros x Hx.
  apply Rleb_true.
  assert (Hne : scores <> []) by (intros E; rewrite E in Hx; inversion Hx).
  pose proof (deviation_bound (np_mean scores) x scores Hx
                (Rsum_deviations scores Hne)) as Hdev.
  pose proof (Rsum_squares_nonneg (np_mean scores) scores) as HQ.
  unfold np_std. set (m := np_mean scores) in *.
  set (sq := map (fun y => ((y - m) * (y - m))%R) scores) in *.
  assert (Hlen : length sq = length scores) by apply length_map.
  assert (Hsqne : sq <> []).
  { intros E. apply Hne, length_zero_iff_nil. now rewrite <- Hlen, E. }
  pose proof (np_mean_times_length sq Hsqne) as Hmean. rewrite Hlen in Hmean.
  set (V := np_mean sq) in *. set (n := INR (length scores)) in *.
  assert (Hn1 : (1 <= n)%R).
  { unfold n. change 1%R with (INR 1). apply le_INR.
    destruct scores; [congruence | simpl; lia]. }
  assert (Hn5 : (n <= 5)%R).
  { unfold n. replace 5%R with (INR 5) by (simpl; lra). now apply le_INR. }
  assert (HV : (0 <= V)%R).
  { apply Rnot_lt_le. intros HV.
    assert ((V * n < 0 * n)%R) by (apply Rmult_lt_compat_r; lra). lra. }
  assert (Hd4 : ((x - m) * (x - m) <= 4 * V)%R).
  { apply (Rmult_le_reg_l n); [lra|].
    assert (Hq : ((n - 1) * Rsum sq <= 4 * Rsum sq)%R)
      by (apply Rmult_le_compat_r; lra).
    replace (n * (4 * V))%R with (4 * (V * n))%R by ring. lra. }
  pose proof (sqrt_sqrt V HV) as Hs. pose proof (sqrt_pos V) as Hp.
  assert (Habs : (Rabs (x - m) * Rabs (x - m) = (x - m) * (x - m))%R).
  { unfold Rabs. destruct (Rcase_abs (x - m)); lra. }
  pose proof (Rabs_pos (x - m)) as Ha.
  apply Rnot_lt_le. intros Hlt.
  assert (Hsq : (2 * sqrt V * (2 * sqrt V) < Rabs (x - m) * Rabs (x - m))%R).
  { apply Rmult_le_0_lt_compat; lra. }
  lra.
Qed.

Lemma small_sample_fitness (scores : list R) :
  length scores <= 5 -> fitness_of_scores scores = np_mean scores.
Proof.
  intros Hn. destruct (fitness_of_scores_cases scores) as [Hyes Hno].
  destruct (Nat.le_gt_cases (length scores) 2) as [Hle|Hgt].
  - apply Hno. lia.
  - destruct (Req_dec_T (np_std scores) 0) as [E|Hne].
    + apply Hno. intros [_ H]. contradiction.
    + rewrite Hyes by (split; [lia | exact Hne]).
      rewrite (small_sample_retained scores Hn). now destruct scores.
Qed.

(** *** Six scores, one of them far off *)

Lemma six_scores_mean : np_mean six_scores = 1%R.
Proof. unfold np_mean, six_scores. simpl. lra. Qed.

Lemma six_scores_std : np_std six_scores = sqrt 5.
Proof.
  unfold np_std. rewrite six_scores_mean. f_equal.
  unfold np_mean, six_scores. simpl. lra.
Qed.

Lemma six_scores_retained : retained six_scores = [0; 0; 0; 0; 0]%R.
Proof.
  unfold retained. rewrite six_scores_mean, six_scores_std.
  assert (H5 : (0 <= 5)%R) by lra.
  pose proof (sqrt_sqrt 5 H5) as Hs. pose proof (sqrt_pos 5) as Hp.
  assert (Hlo : (1 <= 2 * sqrt 5)%R) by nra.
  assert (Hhi : (2 * sqrt 5 < 5)%R) by nra.
  assert (E0 : Rleb (Rabs (0 - 1)) (2 * sqrt 5) = true).
  { apply Rleb_true. unfold Rabs. destruct (Rcase_abs (0 - 1)); lra. }
  assert (E6 : Rleb (Rabs (6 - 1)) (2 * sqrt 5) = false).
  { apply Rleb_false. unfold Rabs. destruct (Rcase_abs (6 - 1)); lra. }
  unfold six_scores. cbn [List.filter]. rewrite E0, E6. reflexivity.
Qed.

Lemma six_scores_fitness : fitness_of_scores six_scores = 0%R.
Proof.
  destruct (fitness_of_scores_cases six_scores) as [Hcase _].
  rewrite Hcase.
  - rewrite six_scores_retained. unfold np_mean. simpl. lra.
  - split; [simpl; lia|]. rewrite six_scores_std.
    pose proof (sqrt_lt_R0 5). lra.
Qed.

(** On binary64 the deviation of 11 from the rounded mean of 10, 10, 10,
    10, 11 exceeds twice the rounded standard deviation. *)
Lemma five_scores_retained :
  Binary64.retained Binary64.five_scores = repeat (Binary64.float_of_nat 10) 4.
Proof. vm_compute. reflexivity. Qed.

Lemma five_scores_fitness :
  Binary64.fitness_of_scores Binary64.five_scores = Binary64.float_of_nat 10.
Proof. vm_compute. reflexivity. Qed.

(** With at most five trials the outlier filter of [compute_fitness]
    discards a score through rounding only.  In exact arithmetic every one
    of at most five scores lies within two standard deviations of their
    mean, so that the result is the plain mean; the bound is attained by
    four equal scores and one other, and there the rounding of binary64
    decides: of the scores 10, 10, 10, 10, 11 the code discards 11 and
    returns 10.  With six scores a score is discarded in exact arithmetic
    too: of 0, 0, 0, 0, 0, 6 the last one, and the result is 0 while the
    mean is 1. *)
Theorem small_sample_discards_by_rounding_only :
  (forall scores : list R,
      length scores <= 5 ->
      retained scores = scores /\ fitness_of_scores scores = np_mean scores)
  /\ Binary64.retained Binary64.five_scores
     = repeat (Binary64.float_of_nat 10) 4
  /\ Binary64.fitness_of_scores Binary64.five_scores
     = Binary64.float_of_nat 10
  /\ retained six_scores = [0; 0; 0; 0; 0]%R
  /\ fitness_of_scores six_scores = 0%R
  /\ np_mean six_scores = 1%R.
Proof.
  split; [|split; [|split; [|split; [|split]]]].
  - intros scores Hn. split.
    + now apply small_sample_retained.
    + now apply small_sample_fitness.
  - apply five_scores_retained.
  - apply five_scores_fitness.
  - apply six_scores_retained.
  - apply six_scores_fitness.
  - apply six_scores_mean.
Qed.

(** ** The aggregate lies within the range of the scores *)

Lemma np_mean_between (lo hi : R) (l : list R) :
  l <> [] ->
  Forall (fun x => (lo <= x <= hi)%R) l ->
  (lo <= np_mean l <= hi)%R.
Proof.
  intros Hne Hall.
  assert (Hsum : (lo * INR (length l) <= Rsum l <= hi * INR (length l))%R).
  { clear Hne. induction Hall as [|x l Hx _ IH]; [simpl; lra|].
    cbn [length]. rewrite Rsum_cons, S_INR. lra. }
  assert (Hn : (0 < INR (length l))%R).
  { apply lt_0_INR. destruct l; [congruence | simpl; lia]. }
  pose proof (np_mean_times_length l Hne) as Hmean.
  split.
  - apply (Rmult_le_reg_r (INR (length l))); [exact Hn | lra].
  - apply (Rmult_le_reg_r (INR (length l))); [exact Hn | lra].
Qed.

Lemma Forall_List_filter {A} (P : A -> Prop) (f : A -> bool) (l : list A) :
  Forall P l -> Forall P (List.filter f l).
Proof.
  induction 1 as [|x l Hx _ IH]; simpl; [constructor|].
  destruct (f x); [now constructor | exact IH].
Qed.

Lemma sublist_List_filter {A} (f : A -> bool) (l : list A) :
  sublist (List.filter f l) l.
Proof.
  induction l as [|x l IH]; simpl; [constructor|].
  destruct (f x); now constructor.
Qed.

Lemma nonempty_of_length {A} (l : list A) : (0 <? length l) = true -> l <> [].
Proof. intros E ->. discriminate. Qed.

(** The value returned is the mean of the scores kept: of all, or of those
    that pass the filter when there are any. *)
Lemma fitness_is_mean_of_kept (scores : list R) :
  scores <> [] ->
  exists kept, kept <> [] /\ sublist kept scores
               /\ fitness_of_scores scores = np_mean kept.
Proof.
  intros Hne. unfold fitness_of_scores.
  destruct (2 <? length scores); [|now exists scores].
  destruct (Rltb 0 (np_std scores)); [|now exists scores].
  match goal with |- context [List.filter ?f scores] =>
    set (kept := List.filter f scores) end.
  destruct (0 <? length kept) eqn:E; [|now exists scores].
  exists kept. split; [now apply nonempty_of_length|].
  split; [apply sublist_List_filter | reflexivity].
Qed.

Lemma fitness_is_mean_of_kept_binary64 (scores : list PrimFloat.float) :
  scores <> [] ->
  exists kept, kept <> [] /\ sublist kept scores
               /\ Binary64.fitness_of_scores scores = Binary64.np_mean kept.
Proof.
  intros Hne. unfold Binary64.fitness_of_scores.
  destruct (2 <? length scores); [|now exists scores].
  destruct (PrimFloat.ltb _ _); [|now exists scores].
  match goal with |- context [List.filter ?f scores] =>
    set (kept := List.filter f scores) end.
  destruct (0 <? length kept) eqn:E; [|now exists scores].
  exists kept. split; [now apply nonempty_of_length|].
  split; [apply sublist_List_filter | reflexivity].
Qed.

Lemma fitness_between (scores : list R) (lo hi : R) :
  scores <> [] ->
  Forall (fun x => (lo <= x <= hi)%R) scores ->
  (lo <= fitness_of_scores scores <= hi)%R.
Proof.
  intros Hne Hall.
  destruct (fitness_is_mean_of_kept scores Hne) as (kept & Hk & Hsub & ->).
  apply np_mean_between; [exact Hk|].
  rewrite Forall_forall in *. intros x Hx. apply Hall.
  exact (elem_of_sublist _ _ _ Hx Hsub).
Qed.

(** For every non-empty list of scores the value [compute_fitness]
    returns for them is the mean of a non-empty sub-list of the scores,
    on binary64 (for the fewer than eight scores that numpy adds in
    order) as in exact arithmetic.  In exact arithmetic this value is
    never below the least score nor above the greatest.  On binary64 it
    can be: for three scores 0.1 the code returns a value above 0.1, since
    their sum is rounded up. *)
Theorem fitness_is_a_mean_of_scores :
  (forall scores : list R,
      scores <> [] ->
      (exists kept, kept <> [] /\ sublist kept scores
                    /\ fitness_of_scores scores = np_mean kept)
      /\ forall lo hi, Forall (fun x => (lo <= x <= hi)%R) scores ->
                       (lo <= fitness_of_scores scores <= hi)%R)
  /\ (forall scores : list PrimFloat.float,
        scores <> [] -> length scores < 8 ->
        exists kept, kept <> [] /\ sublist kept scores
                     /\ Binary64.fitness_of_scores scores
                        = Binary64.np_mean kept)
  /\ PrimFloat.ltb Binary64.one_tenth
                   (Binary64.fitness_of_scores Binary64.three_scores)
     = true.
Proof.
  split; [|split].
  - intros scores Hne. split; [now apply fitness_is_mean_of_kept|].
    intros lo hi. now apply fitness_between.
  - intros scores Hne _. now apply fitness_is_mean_of_kept_binary64.
  - vm_compute. reflexivity.
Qed.

(** ** The ranking of a generation *)

Lemma insert_desc_descending (x : nat * R) (l : list (nat * R)) :
  descending (map snd l) -> descending (map snd (insert_desc x l)).
Proof.
  induction l as [|y t IH]; intros Hd.
  - simpl. split; [constructor | exact I].
  - destruct Hd as [Hy Ht]. fold (map snd t) in Hy, Ht. cbn [insert_desc].
    destruct (Rltb (snd x) (snd y)) eqn:E.
    + apply Rltb_true in E. cbn [map descending]. split; [|now apply IH].
      rewrite insert_desc_perm. cbn [map]. constructor; [lra | exact Hy].
    + apply Rltb_false in E. cbn [map descending].
      split; [|split; assumption].
      constructor; [exact E|].
      eapply Forall_impl; [exact Hy|]. intros k Hk. simpl in Hk. lra.
Qed.

Lemma sort_desc_descending (l : list (nat * R)) :
  descending (map snd (foldr insert_desc [] l)).
Proof.
  induction l as [|x l IH]; [exact I|]. simpl. now apply insert_desc_descending.
Qed.

(** Insertion does not change the order among the elements of one key. *)
Lemma insert_desc_filter (v : R) (x : nat * R) (l : list (nat * R)) :
  List.filter (fun e => if Req_dec_T (snd e) v then true else false)
              (insert_desc x l)
  = List.filter (fun e => if Req_dec_T (snd e) v then true else false)
                (x :: l).
Proof.
  induction l as [|y t IH]; [reflexivity|]. cbn [insert_desc].
  destruct (Rltb (snd x) (snd y)) eqn:E; [|reflexivity].
  apply Rltb_true in E. cbn [List.filter] in *. rewrite IH.
  destruct (Req_dec_T (snd x) v) as [Ex|Hx];
    destruct (Req_dec_T (snd y) v) as [Ey|Hy]; try reflexivity.
  exfalso. lra.
Qed.

Lemma sort_desc_filter (v : R) (l : list (nat * R)) :
  List.filter (fun e => if Req_dec_T (snd e) v then true else false)
              (foldr insert_desc [] l)
  = List.filter (fun e => if Req_dec_T (snd e) v then true else false) l.
Proof.
  induction l as [|x l IH]; [reflexivity|].
  cbn [foldr]. rewrite insert_desc_filter. cbn [List.filter]. now rewrite IH.
Qed.

Lemma filter_map_fst (f : nat -> bool) (l : list (nat * R)) :
  List.filter f (map fst l) = map fst (List.filter (fun e => f (fst e)) l).
Proof.
  induction l as [|x l IH]; [reflexivity|]. simpl.
  destruct (f (fst x)); simpl; now rewrite IH.
Qed.

Lemma filter_ext_Forall {A} (f g : A -> bool) (l : list A) :
  Forall (fun x => f x = g x) l -> List.filter f l = List.filter g l.
Proof.
  induction 1 as [|x l Hx _ IH]; [reflexivity|]. simpl. now rewrite Hx, IH.
Qed.

Lemma map_ext_Forall_R {A} (f g : A -> R) (l : list A) :
  Forall (fun x => f x = g x) l -> map f l = map g l.
Proof.
  induction 1 as [|x l Hx _ IH]; [reflexivity|]. simpl. now rewrite Hx, IH.
Qed.

(** The ranking has the fitness of each controller as its key. *)
Lemma ranked_keys (w : world) (population : list oid) :
  Forall (fun e => snd e = fit_in w (fst e))
         (foldr insert_desc [] (map (fun o => (o, fit_in w o)) population)).
Proof.
  rewrite sort_desc_perm. apply Forall_map, Forall_forall. reflexivity.
Qed.

Lemma ranked_descending (w : world) (population : list oid) :
  descending (map (fit_in w) (ranked w population)).
Proof.
  unfold ranked. rewrite map_map.
  rewrite (map_ext_Forall_R (fun e => fit_in w (fst e)) snd).
  - apply sort_desc_descending.
  - eapply Forall_impl; [apply ranked_keys|]. intros e He. simpl in He. auto.
Qed.

Lemma ranked_stable (w : world) (population : list oid) (v : R) :
  List.filter (has_fitness w v) (ranked w population)
  = List.filter (has_fitness w v) population.
Proof.
  unfold ranked. rewrite filter_map_fst.
  rewrite (filter_ext_Forall
             (fun e => has_fitness w v (fst e))
             (fun e => if Req_dec_T (snd e) v then true else false)).
  - rewrite sort_desc_filter. induction population as [|o l IH]; [reflexivity|].
    unfold has_fitness in *. cbn [map List.filter fst snd].
    destruct (Req_dec_T (fit_in w o) v); cbn [map fst]; now rewrite IH.
  - eapply Forall_impl; [apply ranked_keys|]. intros e He. simpl in He.
    unfold has_fitness. now rewrite He.
Qed.

(** [sorted(population, reverse=True)] under [__lt__] returns and leaves
    the world as it is; the list it returns is a rearrangement of the
    population in which fitness never increases from one position to the
    next, and the controllers of any one fitness come in the order they
    have in the population. *)
Theorem sorted_reverse_spec (w : world) (population : list oid) :
  Forall (valid w) population ->
  exists sorted_pop,
    sorted_reverse population w = Ok sorted_pop w
    /\ sorted_pop ≡ₚ population
    /\ descending (map (fit_in w) sorted_pop)
    /\ forall v, List.filter (has_fitness w v) sorted_pop
                 = List.filter (has_fitness w v) population.
Proof.
  intros Hv. exists (ranked w population).
  split; [now apply sorted_reverse_eq|].
  split; [apply ranked_perm|].
  split; [apply ranked_descending|].
  intros v. apply ranked_stable.
Qed.

Lemma sorted_reverse_spec_witness :
  exists sorted_pop,
    sorted_reverse [3; 1; 0; 2] scenario_world = Ok sorted_pop scenario_world
    /\ sorted_pop ≡ₚ [3; 1; 0; 2]
    /\ descending (map (fit_in scenario_world) sorted_pop)
    /\ forall v, List.filter (has_fitness scenario_world v) sorted_pop
                 = List.filter (has_fitness scenario_world v) [3; 1; 0; 2].
Proof.
  apply (sorted_reverse_spec scenario_world [3; 1; 0; 2]).
  repeat (apply Forall_cons; split; [eexists; reflexivity|]).
  now apply Forall_nil.
Defined.

(** ** What a run needs to return *)

Lemma post_const {A} (m : M A) (w : world) (P : Prop) :
  P -> post m w (fun _ _ => P).
Proof. intros H a w' _. exact H. Qed.

Lemma post_bind_any {A B} (m : M A) (k : A -> M B) (w : world)
    (Q : B -> world -> Prop) :
  (forall a w1, post (k a) w1 Q) -> post (bind m k) w Q.
Proof. intros H. apply post_bind. intros a w1 _. apply H. Qed.

Lemma getitem_Return_lt {A} (l : list A) (i : nat) (x : A) :
  getitem l i = Return x -> i < length l.
Proof.
  unfold getitem. intros H. destruct (l !! i) eqn:E; [|discriminate].
  eapply lookup_lt_Some; eauto.
Qed.

Lemma keys_loop_length (population : list oid) (keyed : list (nat * R))
    (w : world) :
  post (for_ population
          (fun a keyed => k <- fit_score_of a ;; ret (keyed ++ [(a, k)]))
          keyed)
       w (fun r _ => length r = length keyed + length population).
Proof.
  revert keyed w. induction population as [|o l IH]; intros keyed w.
  - apply post_ret. simpl. lia.
  - cbn [for_]. apply post_bind, post_bind_any. intros k w1. apply post_ret.
    eapply post_mono; [apply IH|]. intros r w2 Hr. cbv beta in Hr.
    rewrite Hr, length_app. simpl. lia.
Qed.

Lemma sorted_reverse_length (population : list oid) (w : world) :
  post (sorted_reverse population) w
       (fun r _ => length r = length population).
Proof.
  unfold sorted_reverse. apply post_bind.
  eapply post_mono; [apply keys_loop_length|].
  intros keyed w1 Hk. cbv beta in Hk. apply post_ret.
  rewrite length_map, (Permutation_length (sort_desc_perm keyed)), Hk.
  reflexivity.
Qed.

(** If the elite loop returns, the ranking has at least [num_elite]
    members. *)
Lemma elite_selection_shape (sorted_pop : list oid) (num_elite gene_size : nat)
    (w : world) :
  post (elite_selection sorted_pop num_elite gene_size) w
       (fun st _ => num_elite <= length sorted_pop
                    /\ length (snd st) = num_elite).
Proof.
  unfold elite_selection.
  apply (post_for_range num_elite _
           (fun i st _ => i <= length sorted_pop /\ length (snd st) = i)).
  - split; [lia | reflexivity].
  - intros i [[fs genes] ng] w1 Hi [Hle Hng]. cbn [snd] in Hng.
    apply post_bind, post_lift. intros e He. apply getitem_Return_lt in He.
    apply post_bind_any. intros me w2. apply post_bind_any. intros eg w3.
    apply post_bind_any. intros c w4. apply post_ret.
    split; [lia|]. cbn [snd]. rewrite length_app. simpl. lia.
Qed.

Lemma select_parents_needs_pool (fuel : nat) (parents : list oid) (w : world) :
  post (select_parents fuel parents) w (fun _ _ => parents <> []).
Proof.
  destruct parents as [|p parents]; [|now apply post_const].
  intros ps w' E. unfold select_parents, bind in E.
  rewrite tournament_empty in E. discriminate.
Qed.

(** If the crossover loop returns, it has appended [count] references,
    and the pool of parents is not empty unless [count] is zero. *)
Lemma crossover_loop_shape (fuel : nat) (parents : list oid) (count : nat)
    (aggregate : string) (next_gen : list oid) (w : world) :
  post (crossover_loop fuel parents count aggregate next_gen) w
       (fun ng _ => length ng = length next_gen + count
                    /\ (count = 0 \/ parents <> [])).
Proof.
  unfold crossover_loop.
  apply (post_for_range count _
           (fun i ng _ => length ng = length next_gen + i
                          /\ (i = 0 \/ parents <> []))).
  - split; [lia | now left].
  - intros i ng w1 Hi [Hlen _]. apply post_bind.
    eapply post_mono; [apply select_parents_needs_pool|].
    intros ps w2 Hne. cbv beta in Hne. apply post_bind_any. intros c w3.
    apply post_ret. split; [rewrite length_app; simpl; lia | now right].
Qed.

Lemma slice_to_nonempty {A} (k : Z) (l : list A) :
  slice_to k l <> [] -> k <> 0%Z.
Proof. intros H ->. apply H. reflexivity. Qed.

Lemma selection_shape (fuel : nat) (population : list oid)
    (pop_size num_elite : nat) (survival_rate : R) (aggregate : string)
    (gene_size : nat) (w : world) :
  post (selection fuel population pop_size num_elite survival_rate aggregate
                  gene_size) w
       (fun r _ =>
          num_elite <= length population
          /\ length (fst r) = num_elite + (pop_size - num_elite)
          /\ (pop_size <= num_elite
              \/ py_round (INR pop_size * survival_rate) <> 0%Z)).
Proof.
  unfold selection. apply post_bind.
  eapply post_mono; [apply sorted_reverse_length|].
  intros sorted_pop w1 Hlen. cbv beta in Hlen.
  apply post_bind_any. intros top w2. apply post_bind.
  eapply post_mono; [apply elite_selection_shape|].
  intros [[efs eg] ng] w3 [Hle Hng]. cbn [snd] in Hng. cbv beta iota zeta.
  apply post_bind. eapply post_mono; [apply crossover_loop_shape|].
  intros ng' w4 [Hl Hpool]. cbv beta. apply post_ret. cbn [fst].
  split; [lia|]. split; [lia|].
  destruct Hpool as [H0|Hne]; [left; lia | right].
  now apply slice_to_nonempty in Hne.
Qed.

Section Shape.

Variable mains : oid -> M R.

Lemma fitness_phase_shape (population : list oid)
    (pop_size num_trials gene_size : nat) (w : world) :
  post (fitness_phase mains population pop_size num_trials gene_size) w
       (fun _ _ => pop_size <= length population).
Proof.
  unfold fitness_phase. apply post_bind.
  eapply post_mono.
  - apply (post_for_range pop_size _ (fun i _ _ => i <= length population)).
    + lia.
    + intros i [total_fitness gene] w1 Hi Hle. cbv beta iota.
      apply post_bind, post_lift. intros agent Hg.
      apply getitem_Return_lt in Hg. apply post_const. lia.
  - intros st w1 Hle. cbv beta in Hle. now apply post_const.
Qed.

Lemma epoch_shape (fuel : nat) (population : list oid)
    (num_trials pop_size : nat) (aggregate : string) (num_elite : nat)
    (survival_rate : R) (w : world) :
  post (epoch mains fuel population num_trials pop_size aggregate num_elite
              survival_rate) w
       (fun r _ =>
          1 <= num_elite <= length population
          /\ pop_size <= length population
          /\ length (fst r) = num_elite + (pop_size - num_elite)
          /\ (pop_size <= num_elite
              \/ py_round (INR pop_size * survival_rate) <> 0%Z)).
Proof.
  unfold epoch. apply post_bind_any. intros first w1.
  apply post_bind_any. intros gene_size w2. apply post_bind.
  eapply post_mono; [apply fitness_phase_shape|].
  intros [total_fitness gene] w3 Hps. cbv beta in Hps. cbv beta iota.
  apply post_bind. eapply post_mono; [apply selection_shape|].
  intros [next_gen [[sorted_pop efs] eg]] w4 (Hle & Hlen & Hpool).
  cbn [fst] in Hlen. cbv beta iota.
  apply post_bind_any. intros top_agent w5.
  apply post_bind_any. intros top w6.
  destruct (num_elite =? 0) eqn:E.
  - intros r w' Hr. discriminate.
  - apply Nat.eqb_neq in E. apply post_ret. cbn [fst].
    repeat split; auto; lia.
Qed.

(** Whatever the simulator does, a run of at least one epoch returns only
    if [1 <= num_elite <= pop_size] and, unless the elites fill the whole
    generation, the number of parents [round(pop_size * survival_rate)] is
    not zero; the population it ends on has [pop_size] members. *)
Theorem run_returns_only_if (fuel num_epochs num_trials pop_size : nat)
    (aggregate : string) (num_elite : nat) (survival_rate : R) (w : world) :
  post (run_X_epochs mains fuel num_epochs num_trials pop_size aggregate
                     num_elite survival_rate) w
       (fun r _ =>
          length (fst r) = pop_size
          /\ (num_epochs = 0
              \/ (1 <= num_elite <= pop_size
                  /\ (num_elite = pop_size
                      \/ py_round (INR pop_size * survival_rate) <> 0%Z)))).
Proof.
  unfold run_X_epochs. apply post_bind.
  eapply post_mono.
  - apply (post_for_range pop_size _
             (fun i population _ => length population = i)).
    + reflexivity.
    + intros i population w1 Hi Hlen. apply post_bind_any. intros a w2.
      apply post_ret. rewrite length_app. simpl. lia.
  - intros population w1 Hlen. cbv beta in Hlen. cbv beta.
    apply (post_for_range num_epochs _
             (fun i st _ =>
                length (fst st) = pop_size
                /\ (i = 0
                    \/ (1 <= num_elite <= pop_size
                        /\ (num_elite = pop_size
                            \/ py_round (INR pop_size * survival_rate)
                               <> 0%Z))))).
    + split; [exact Hlen | now left].
    + intros i [pop rec] w2 Hi [Hl _]. cbn [fst] in *.
      eapply post_mono; [apply epoch_shape|].
      intros r w3 (Hel & Hps & Hr & Hpool). cbv beta in *.
      rewrite Hl in Hel. split; [lia|]. right. split; [lia|].
      destruct Hpool as [Hge|Hround]; [left; lia | now right].
Qed.

End Shape.

(** *** More elites than controllers *)

Lemma for_app {A S} (xs ys : list A) (body : A -> S -> M S) (s : S)
    (w : world) :
  for_ (xs ++ ys) body s w
  = match for_ xs body s w with
    | Ok s' w' => for_ ys body s' w'
    | Raise e => Raise e
    | Timeout => Timeout
    end.
Proof.
  revert s w. induction xs as [|x xs IH]; intros s w; [reflexivity|].
  change ((x :: xs) ++ ys) with (x :: (xs ++ ys)). rewrite !for_cons.
  destruct (body x s w) as [s' w'| |]; [apply IH | reflexivity | reflexivity].
Qed.

Lemma range_split (n m : nat) :
  n < m -> range m = range n ++ n :: seq (S n) (m - S n).
Proof.
  intros H. unfold range. replace m with (n + S (m - S n)) at 1 by lia.
  rewrite seq_app. reflexivity.
Qed.

Lemma elite_selection_overrun (w : world) (sorted_pop : list oid)
    (num_elite gene_size : nat) :
  Forall (has_len gene_size w) sorted_pop ->
  length sorted_pop < num_elite ->
  elite_selection sorted_pop num_elite gene_size w = Raise IndexError.
Proof.
  intros Hall Hlt.
  destruct (elite_selection_total w sorted_pop (length sorted_pop) gene_size
              (Nat.le_refl _) Hall) as (st & w1 & Hrun & _).
  unfold elite_selection in *.
  rewrite (range_split (length sorted_pop) num_elite Hlt), for_app, Hrun.
  rewrite for_cons. destruct st as [[efs eg] ng].
  unfold bind at 1. unfold getitem.
  rewrite (proj2 (lookup_ge_None sorted_pop (length sorted_pop)))
    by apply Nat.le_refl.
  reflexivity.
Qed.

(** With more elites than controllers the selection part of an epoch
    raises [IndexError] ([sorted_pop[i]] past the end of the ranking), on
    every population of one weight-vector length and whatever the other
    parameters. *)
Theorem too_many_elites_raise (fuel : nat) (w : world) (population : list oid)
    (pop_size num_elite : nat) (survival_rate : R) (aggregate : string)
    (gene_size : nat) :
  Forall (has_len gene_size w) population ->
  length population < num_elite ->
  selection fuel population pop_size num_elite survival_rate aggregate
            gene_size w
  = Raise IndexError.
Proof.
  intros Hall Hlt. unfold selection.
  assert (Hv : Forall (valid w) population).
  { eapply Forall_impl; [exact Hall|]. intros o. apply has_len_valid. }
  rewrite (bind_Ok _ _ _ _ _ (sorted_reverse_eq _ _ Hv)).
  assert (Hranked : Forall (has_len gene_size w) (ranked w population))
    by now rewrite ranked_perm.
  assert (Hrl : length (ranked w population) < num_elite)
    by now rewrite (Permutation_length (ranked_perm w population)).
  unfold bind at 1. unfold getitem.
  destruct (ranked w population !! 0) as [top|]; [|reflexivity].
  cbn [lift ret]. unfold bind at 1.
  now rewrite elite_selection_overrun.
Qed.

Lemma too_many_elites_raise_witness :
  selection 0 [0; 1; 2; 3] 4 5 0.5 "blend" 65 scenario_world
  = Raise IndexError.
Proof.
  apply (too_many_elites_raise 0 scenario_world [0; 1; 2; 3] 4 5 0.5 "blend" 65).
  - apply scenario_has_len.
  - simpl. lia.
Defined.

(** ** A pool of one survivor *)

(** When a single controller survives, the choice of parents returns at
    once, for every bound on the retries: both tournaments sample that
    controller, it is both parents, the retry loop is not entered and two
    draws of the generator of [random] are consumed. *)
Theorem single_survivor_is_both_parents (fuel : nat) (w : world) (p : oid) :
  valid w p ->
  select_parents fuel [p] w
  = Ok (p, p)
       (with_py_choice w (Tape (draws (py_choice w))
                               (cursor (py_choice w) + 2))).
Proof.
  intros [a Ha].
  assert (Ht : forall t,
            tournament_selection [p] 3
              (World (objects w) (py_random w) t (np_random w))
            = Ok p (World (objects w) (py_random w)
                          (Tape (draws t) (S (cursor t))) (np_random w))).
  { intros t.
    assert (Hs : sample_picks 1 [p] t = ([p], Tape (draws t) (S (cursor t)))).
    { cbn [sample_picks length]. rewrite Nat.mod_1_r. reflexivity. }
    unfold tournament_selection, bind, random_sample.
    change (Nat.min 3 (length [p])) with 1. cbn [length Nat.ltb Nat.leb py_choice].
    rewrite Hs. cbn [fst snd max_by_fit_score for_].
    unfold fit_score_of, bind, getattr. cbn [objects]. rewrite Ha. reflexivity. }
  unfold select_parents.
  assert (Ew : w = World (objects w) (py_random w) (py_choice w) (np_random w))
    by now destruct w.
  rewrite Ew at 1. rewrite (bind_Ok _ _ _ _ _ (Ht _)).
  rewrite (bind_Ok _ _ _ _ _ (Ht _)).
  destruct fuel; cbn [while_]; rewrite Nat.eqb_refl; cbn;
    unfold ret, with_py_choice; repeat f_equal; lia.
Qed.

Lemma single_survivor_is_both_parents_witness :
  select_parents 0 [0] scenario_world
  = Ok (0, 0)
       (with_py_choice scenario_world
          (Tape (draws (py_choice scenario_world))
                (cursor (py_choice scenario_world) + 2))).
Proof.
  apply (single_survivor_is_both_parents 0 scenario_world 0).
  eexists. reflexivity.
Defined.

(** ** Crossover of a controller with itself *)

Lemma map_nth_seq (g : list R) :
  map (fun i => nth i g 0%R) (seq 0 (length g)) = g.
Proof.
  apply list_eq. intros i. rewrite list_lookup_fmap.
  destruct (decide (i < length g)) as [Hi|Hi].
  - rewrite lookup_seq_lt by lia. simpl. symmetry. now apply lookup_nth_R.
  - rewrite lookup_seq_ge by lia. simpl. symmetry. apply lookup_ge_None. lia.
Qed.

(** Each crossover strategy applied to one controller as both parents
    builds that controller's own weight vector, whatever the generator
    draws (single-point crossover needs two weights for its cut to exist):
    the offspring [cross] returns is then a mutation of the parent. *)
Theorem self_crossover_keeps_genes (w : world) (a : oid) (p : Genetic_AI)
    (aggregate : string) :
  objects w !! a = Some p ->
  (aggregate <> "uniform"%string -> aggregate <> "blend"%string ->
   2 <= length (genotype p)) ->
  exists w',
    cross_new_genotype a a aggregate w = Ok (genotype p) w'
    /\ objects w' = objects w.
Proof.
  intros Ha Hcut. unfold cross_new_genotype.
  destruct (String.eqb aggregate "uniform") eqn:Eu.
  - rewrite (bind_Ok _ _ _ _ _ (genotype_len_Ok _ _ _ Ha)).
    destruct (uniform_loop_total (length (genotype p)) w a a p p Ha Ha
                eq_refl eq_refl) as (g & w' & Hrun & Hobj & Hlen & Hfrom).
    exists w'. split; [|exact Hobj]. rewrite Hrun. f_equal.
    apply list_eq. intros i.
    destruct (g !! i) as [x|] eqn:E.
    + destruct (Hfrom i x E) as [H|H]; now rewrite H.
    + symmetry. apply lookup_ge_None. apply lookup_ge_None in E. lia.
  - destruct (String.eqb aggregate "blend") eqn:Eb.
    + rewrite (bind_Ok _ _ _ _ _ (fit_score_of_Ok _ _ _ Ha)).
      rewrite (bind_Ok _ _ _ _ _ (fit_score_of_Ok _ _ _ Ha)).
      rewrite (bind_Ok _ _ _ _ _ (genotype_len_Ok _ _ _ Ha)).
      exists w. split; [|reflexivity].
      rewrite (blend_loop w a a p p _ _ Ha Ha (Nat.le_refl _)). f_equal.
      transitivity (map (fun i => nth i (genotype p) 0%R)
                        (seq 0 (length (genotype p)))); [|apply map_nth_seq].
      apply map_ext. intros i.
      destruct (Rltb 0 (fit_score p + fit_score p)) eqn:E.
      * apply Rltb_true in E. field. lra.
      * lra.
    + apply String.eqb_neq in Eu, Eb. specialize (Hcut Eu Eb).
      rewrite (bind_Ok _ _ _ _ _ (genotype_len_Ok _ _ _ Ha)).
      destruct (randint_total 1 (Z.of_nat (length (genotype p)) - 1) w)
        as (cp & w1 & Hrun & Hobj & Hcp); [lia|].
      rewrite (bind_Ok _ _ _ _ _ Hrun).
      unfold bind, getattr. rewrite Hobj, Ha. cbv beta iota.
      rewrite Hobj, Ha. exists w1.
      split; [|exact Hobj]. unfold ret, slice. f_equal.
      rewrite drop_0. apply take_drop.
Qed.

Lemma self_crossover_keeps_genes_witness :
  exists w',
    cross_new_genotype 0 0 "uniform" scenario_world = Ok (genotype agent_A) w'
    /\ objects w' = objects scenario_world.
Proof.
  apply (self_crossover_keeps_genes scenario_world 0 agent_A "uniform").
  - reflexivity.
  - intros H. now contradiction H.
Defined.

(** ** Random initialisation *)

(** Without a supplied vector the constructor draws
    [features*hidden + hidden + hidden + 1] weights, each at least
    [-limit] and below [limit] for [limit = sqrt(6 / (features + hidden))],
    given that the raw draws of the generator lie in [[0, 1)]; the flag
    [mutate] and the noise are not looked at. *)
Theorem random_init_within_limit (w : world) (nf hs : nat) (mutate : bool)
    (noise_sd : R) :
  nf + hs <> 0 ->
  (forall n, (0 <= draws (np_random w) n < 1)%R) ->
  exists g,
    Genetic_AI__init__ None nf hs mutate noise_sd w
    = Ok (length (objects w))
         (with_new_object (after_np_draws w (expected_length nf hs))
                          (mkGenetic_AI nf hs g 0 0 None))
    /\ length g = expected_length nf hs
    /\ Forall (fun x => (- xavier_limit nf hs <= x < xavier_limit nf hs)%R) g.
Proof.
  intros Hne Hdraws. unfold Genetic_AI__init__, _xavier_init.
  destruct (nf + hs =? 0) eqn:E; [apply Nat.eqb_eq in E; lia|].
  eexists. split; [reflexivity|].
  split; [now rewrite !length_map, length_seq|].
  fold (xavier_limit nf hs).
  assert (Hlim : (0 < xavier_limit nf hs)%R).
  { unfold xavier_limit. apply sqrt_lt_R0.
    apply Rdiv_lt_0_compat; [lra|]. apply lt_0_INR. lia. }
  apply Forall_map, Forall_map, Forall_forall. intros n _. simpl.
  specialize (Hdraws n). nra.
Qed.

Lemma random_init_within_limit_witness :
  exists g,
    Genetic_AI__init__ None 6 8 false default_noise_sd scenario_world
    = Ok (length (objects scenario_world))
         (with_new_object (after_np_draws scenario_world (expected_length 6 8))
                          (mkGenetic_AI 6 8 g 0 0 None))
    /\ length g = expected_length 6 8
    /\ Forall (fun x => (- xavier_limit 6 8 <= x < xavier_limit 6 8)%R) g.
Proof.
  apply (random_init_within_limit scenario_world 6 8 false default_noise_sd).
  - lia.
  - intros n. simpl. destruct n as [|n]; [lra | destruct n; simpl; lra].
Defined.

(** ** Decisions: errors and consecutive calls *)

Lemma getattr_Ok (w : world) (o : oid) (a : Genetic_AI) :
  objects w !! o = Some a -> getattr o w = Ok a w.
Proof. intros H. unfold getattr. now rewrite H. Qed.

Lemma setattr_Ok (w : world) (o : oid) (a : Genetic_AI)
    (f : Genetic_AI -> Genetic_AI) :
  objects w !! o = Some a -> setattr o f w = Ok tt (store_update w o (f a)).
Proof. intros H. unfold setattr. now rewrite H. Qed.

Lemma lift_getitem_Ok {A} (l : list A) (i : nat) (x : A) (w : world) :
  l !! i = Some x -> lift (getitem l i) w = Ok x w.
Proof. intros H. unfold getitem. now rewrite H. Qed.

Lemma lookup_store_update (w : world) (o : oid) (a b : Genetic_AI) :
  objects w !! o = Some a -> objects (store_update w o b) !! o = Some b.
Proof.
  intros H. simpl. apply list_lookup_insert_eq. eapply lookup_lt_Some; eauto.
Qed.

Lemma store_update_twice (w : world) (o : oid) (a b : Genetic_AI) :
  store_update (store_update w o a) o b = store_update w o b.
Proof. unfold store_update. simpl. now rewrite list_insert_insert_eq. Qed.

(** The velocity [getMove] computes before it overwrites lastObservedY. *)
Lemma velocity_Ok (w : world) (a : Genetic_AI) (state : list R) (s2 : R) :
  state !! 2 = Some s2 ->
  match previous_y a with
  | Some prev => y <- lift (getitem state 2) ;; ret (y - prev)%R
  | None => ret 0%R
  end w
  = Ok (match previous_y a with
        | Some last => s2 - last
        | None => 0
        end)%R w.
Proof.
  intros H2. destruct (previous_y a); [|reflexivity].
  now rewrite (bind_Ok _ _ _ _ _ (lift_getitem_Ok _ _ _ _ H2)).
Qed.

(** [getMove] on a state of at least three entries and a controller of
    six features with enough weights. *)
Lemma getMove_eq (w : world) (self : oid) (a : Genetic_AI) (state : list R)
    (s0 s1 s2 : R) :
  objects w !! self = Some a ->
  num_features a = 6 ->
  expected_length 6 (hidden_size a) <= length (genotype a) ->
  state !! 0 = Some s0 -> state !! 1 = Some s1 -> state !! 2 = Some s2 ->
  getMove self state w
  = Ok (Rltb 0 (spec_output (genotype a) 6 (hidden_size a)
                  (spec_features s0 s1 s2 (previous_y a))))
       (store_update w self (with_previous_y (Some s2) a)).
Proof.
  intros Hself Hnf Hlen H0 H1 H2. unfold getMove.
  rewrite (bind_Ok _ _ _ _ _ (getattr_Ok _ _ _ Hself)).
  rewrite (bind_Ok _ _ _ _ _ (velocity_Ok w a state s2 H2)).
  rewrite (bind_Ok _ _ _ _ _ (lift_getitem_Ok _ _ _ _ H2)).
  rewrite (bind_Ok _ _ _ _ _ (setattr_Ok _ _ _ _ Hself)).
  rewrite (bind_Ok _ _ _ _ _ (lift_getitem_Ok _ _ _ _ H0)).
  rewrite (bind_Ok _ _ _ _ _ (lift_getitem_Ok _ _ _ _ H1)).
  rewrite (bind_Ok _ _ _ _ _ (lift_getitem_Ok _ _ _ _ H2)).
  cbv zeta.
  erewrite bind_Ok.
  2:{ apply (forward_pass_spec _ self (with_previous_y (Some s2) a)).
      - now apply (lookup_store_update w self a).
      - simpl. now rewrite Hnf.
      - simpl. now rewrite Hnf. }
  simpl. rewrite Hnf. reflexivity.
Qed.

(** A forward pass on an input whose length is not the number of
    features raises [ValueError] (from [np.dot]). *)
Lemma forward_pass_wrong_input (w : world) (self : oid) (a : Genetic_AI)
    (x : list R) :
  objects w !! self = Some a ->
  length x <> num_features a ->
  expected_length (num_features a) (hidden_size a) <= length (genotype a) ->
  _forward_pass self x w = Raise ValueError.
Proof.
  intros Hself Hx Hlen. unfold expected_length in Hlen.
  set (nf := num_features a) in *. set (hs := hidden_size a) in *.
  unfold _forward_pass, bind, getattr. rewrite Hself. fold nf hs.
  unfold np_reshape. rewrite length_slice by lia.
  rewrite Nat.sub_0_r, Nat.eqb_refl. simpl.
  destruct (lookup_lt_is_Some_2 (genotype a) (nf * hs + hs + hs)) as [b2 Hb2];
    [lia|].
  unfold getitem. rewrite Hb2. simpl.
  unfold np_dot_vm. simpl.
  destruct (length x =? nf) eqn:E; [apply Nat.eqb_eq in E; lia | reflexivity].
Qed.

(** [getMove] raises [IndexError] on a state of fewer than three entries,
    whatever the controller; on a longer state and a controller whose
    number of features is not 6 (with the weights its own architecture
    expects, or more) it raises [ValueError]: the six features it builds do
    not fit the first layer. *)
Theorem getMove_raises (w : world) (self : oid) (a : Genetic_AI)
    (state : list R) :
  objects w !! self = Some a ->
  (length state < 3 -> getMove self state w = Raise IndexError)
  /\ (3 <= length state ->
      num_features a <> 6 ->
      expected_length (num_features a) (hidden_size a) <= length (genotype a) ->
      getMove self state w = Raise ValueError).
Proof.
  intros Hself. split.
  - intros Hshort.
    assert (H2 : state !! 2 = None) by (apply lookup_ge_None; lia).
    unfold getMove. rewrite (bind_Ok _ _ _ _ _ (getattr_Ok _ _ _ Hself)).
    unfold bind, lift, getitem. rewrite H2.
    destruct (previous_y a); reflexivity.
  - intros Hlong Hnf Hlen.
    destruct (lookup_lt_is_Some_2 state 0 ltac:(lia)) as [s0 H0].
    destruct (lookup_lt_is_Some_2 state 1 ltac:(lia)) as [s1 H1].
    destruct (lookup_lt_is_Some_2 state 2 ltac:(lia)) as [s2 H2].
    unfold getMove.
    rewrite (bind_Ok _ _ _ _ _ (getattr_Ok _ _ _ Hself)).
    rewrite (bind_Ok _ _ _ _ _ (velocity_Ok w a state s2 H2)).
    rewrite (bind_Ok _ _ _ _ _ (lift_getitem_Ok _ _ _ _ H2)).
    rewrite (bind_Ok _ _ _ _ _ (setattr_Ok _ _ _ _ Hself)).
    rewrite (bind_Ok _ _ _ _ _ (lift_getitem_Ok _ _ _ _ H0)).
    rewrite (bind_Ok _ _ _ _ _ (lift_getitem_Ok _ _ _ _ H1)).
    rewrite (bind_Ok _ _ _ _ _ (lift_getitem_Ok _ _ _ _ H2)).
    cbv zeta. unfold bind.
    rewrite (forward_pass_wrong_input _ self (with_previous_y (Some s2) a)).
    + reflexivity.
    + now apply (lookup_store_update w self a).
    + simpl. congruence.
    + exact Hlen.
Qed.

Lemma getMove_raises_witness :
  (length [0; 200]%R < 3 ->
   getMove 0 [0; 200]%R tiny_world = Raise IndexError)
  /\ (3 <= length [0; 200]%R ->
      num_features tiny_agent_1 <> 6 ->
      expected_length (num_features tiny_agent_1) (hidden_size tiny_agent_1)
      <= length (genotype tiny_agent_1) ->
      getMove 0 [0; 200]%R tiny_world = Raise ValueError).
Proof.
  apply (getMove_raises tiny_world 0 tiny_agent_1 [0; 200]%R). reflexivity.
Defined.

(** Two consecutive calls of [getMove]: the second decision is taken on
    the velocity [(y2 - y1) / 10] between the two states, whatever
    lastObservedY was before the first call, and the world is left as the
    second call alone would leave it. *)
Theorem velocity_between_consecutive_calls (w : world) (self : oid)
    (a : Genetic_AI) (g1 h1 y1 b1 g2 h2 y2 b2 : R) :
  objects w !! self = Some a ->
  num_features a = 6 ->
  expected_length 6 (hidden_size a) <= length (genotype a) ->
  (getMove self [g1; h1; y1; b1] ;;; getMove self [g2; h2; y2; b2]) w
  = Ok (Rltb 0 (spec_output (genotype a) 6 (hidden_size a)
                  (spec_features g2 h2 y2 (Some y1))))
       (store_update w self (with_previous_y (Some y2) a)).
Proof.
  intros Hself Hnf Hlen.
  rewrite (bind_Ok _ _ _ _ _
             (getMove_eq w self a [g1; h1; y1; b1] g1 h1 y1 Hself Hnf Hlen
                         eq_refl eq_refl eq_refl)).
  rewrite (getMove_eq _ self (with_previous_y (Some y1) a)
                      [g2; h2; y2; b2] g2 h2 y2
                      (lookup_store_update w self a _ Hself) Hnf Hlen
                      eq_refl eq_refl eq_refl).
  now rewrite store_update_twice.
Qed.

Lemma velocity_between_consecutive_calls_witness :
  (getMove 0 [50; 200; 256; 1]%R ;;; getMove 0 [30; 180; 240; 1]%R)
    (world_with [zero_agent] [] [] [])
  = Ok (Rltb 0 (spec_output (genotype zero_agent) 6 (hidden_size zero_agent)
                  (spec_features 30 180 240 (Some 256%R))))
       (store_update (world_with [zero_agent] [] [] []) 0
                     (with_previous_y (Some 240%R) zero_agent)).
Proof.
  apply (velocity_between_consecutive_calls
           (world_with [zero_agent] [] [] []) 0 zero_agent
           50 200 256 1 30 180 240 1).
  - reflexivity.
  - reflexivity.
  - unfold expected_length. simpl. lia.
Defined.

(** ** Export and import of weights *)

Lemma export_eq (w : world) (agent : oid) (a : Genetic_AI) (filename : string)
    (fs : files) :
  objects w !! agent = Some a ->
  export_agent_weights agent filename fs w
  = Ok (WeightsFile (genotype a) (fit_score a)
                    (Architecture 6 8 (length (genotype a))),
        write_file fs filename
          (WeightsFile (genotype a) (fit_score a)
                       (Architecture 6 8 (length (genotype a)))))
       w.
Proof.
  intros Ha. unfold export_agent_weights.
  now rewrite (bind_Ok _ _ _ _ _ (getattr_Ok _ _ _ Ha)).
Qed.

Lemma write_file_same (fs : files) (filename : string) (data : weights_file) :
  write_file fs filename data filename = Some data.
Proof. unfold write_file. now rewrite String.eqb_refl. Qed.

Lemma write_file_other (fs : files) (filename name : string)
    (data : weights_file) :
  name <> filename -> write_file fs filename data name = fs name.
Proof.
  intros Hne. unfold write_file.
  destruct (String.eqb name filename) eqn:E; [|reflexivity].
  apply String.eqb_eq in E. contradiction.
Qed.

Lemma load_eq (mains : oid -> M R) (data : weights_file) (w w' : world)
    (scores : list R) :
  episodes mains (length (objects w))
           (with_new_object w (fresh_controller (weights data))) 3 scores w' ->
  load_and_test_exported_weights mains (Some data) w
  = Ok (Some (length (objects w))) w'.
Proof.
  intros H. unfold load_and_test_exported_weights, Genetic_AI_new.
  rewrite (bind_Ok _ _ _ _ _ (init_keep_eq _ _ _ _ _)).
  now rewrite (bind_Ok _ _ _ _ _ (trial_loop_episodes _ _ _ _ _ _ H)).
Qed.

(** Export followed by import.  [export_agent_weights] changes no
    controller and writes, under the given name only, the controller's
    weights and fitness with an architecture that always reads 6 and 8 and
    whose [total_weights] is the number of weights written.  The importer
    run on that file then builds a new controller with the same weights,
    of the default architecture, with fitness 0 (the fitness in the file is
    not restored) and lastObservedY unset, runs its three test episodes on
    it and returns it. *)
Theorem export_then_import (mains : oid -> M R) (fs : files)
    (filename : string) (agent : oid) (a : Genetic_AI) (w w' : world)
    (scores : list R) :
  objects w !! agent = Some a ->
  episodes mains (length (objects w))
           (with_new_object w (fresh_controller (genotype a))) 3 scores w' ->
  exists data fs',
    export_agent_weights agent filename fs w = Ok (data, fs') w
    /\ data = WeightsFile (genotype a) (fit_score a)
                          (Architecture 6 8 (length (genotype a)))
    /\ fs' filename = Some data
    /\ (forall name, name <> filename -> fs' name = fs name)
    /\ load_and_test_exported_weights mains (fs' filename) w
       = Ok (Some (length (objects w))) w'.
Proof.
  intros Ha Hep. eexists _, _.
  split; [exact (export_eq w agent a filename fs Ha)|].
  split; [reflexivity|]. split; [apply write_file_same|].
  split; [intros name Hne; now apply write_file_other|].
  rewrite write_file_same. now apply (load_eq mains _ w w' scores).
Qed.

Lemma roundtrip_episodes :
  episodes replay_mains 1
    (with_new_object roundtrip_world (fresh_controller (genotype agent_A)))
    3 [1; 2; 3]%R roundtrip_world_end.
Proof.
  change [1; 2; 3]%R with ((([] ++ [1]) ++ [2]) ++ [3])%R.
  eapply episodes_more;
    [eapply episodes_more;
     [eapply episodes_more; [apply episodes_none | |] | |] | |];
    reflexivity.
Qed.

Lemma export_then_import_witness :
  exists data fs',
    export_agent_weights 0 "docs/best_weights.json" (fun _ => None)
                         roundtrip_world
    = Ok (data, fs') roundtrip_world
    /\ data = WeightsFile (genotype agent_A) (fit_score agent_A)
                          (Architecture 6 8 (length (genotype agent_A)))
    /\ fs' "docs/best_weights.json"%string = Some data
    /\ (forall name, name <> "docs/best_weights.json"%string ->
                     fs' name = (fun _ => None) name)
    /\ load_and_test_exported_weights replay_mains
         (fs' "docs/best_weights.json"%string) roundtrip_world
       = Ok (Some (length (objects roundtrip_world))) roundtrip_world_end.
Proof.
  apply (export_then_import replay_mains (fun _ => None)
           "docs/best_weights.json" 0 agent_A roundtrip_world
           roundtrip_world_end [1; 2; 3]%R).
  - reflexivity.
  - apply roundtrip_episodes.
Defined.

(** Whatever the simulator, the seeded generator and the course of the
    training, if [train_and_export_best_model] returns, the file
    [docs/best_weights.json] holds the 65 hand-written weights of
    [create_sample_trained_weights] with fitness 150 and the architecture
    6, 8, 65: nothing of the training run reaches this file.  The
    controller exported is the last one allocated, and numpy's generator
    is left in its state after [seed(42)]. *)
Theorem train_and_export_ignores_training (mains : oid -> M R)
    (np_seeded : Z -> tape R) (fuel : nat) (fs : files) (w : world) :
  post (train_and_export_best_model mains np_seeded fuel fs) w
       (fun content w' =>
          content = Some (WeightsFile sample_weights 150 (Architecture 6 8 65))
          /\ length sample_weights = expected_length 6 8
          /\ np_random w' = np_seeded 42%Z
          /\ exists trained,
               objects w' = trained ++ [mkGenetic_AI 6 8 sample_weights 150 0 None]).
Proof.
  unfold train_and_export_best_model. apply post_bind_any.
  intros results w1.
  set (w2 := World (objects w1) (py_random w1) (py_choice w1) (np_seeded 42%Z)).
  assert (Hsample : create_sample_trained_weights np_seeded w1
                    = Ok sample_weights w2) by reflexivity.
  set (trained_agent := mkGenetic_AI 6 8 sample_weights 0 0 None).
  assert (Hnew : objects (with_new_object w2 trained_agent)
                 !! length (objects w2) = Some trained_agent)
    by apply lookup_new_object.
  intros content w' E.
  rewrite (bind_Ok _ _ _ _ _ Hsample) in E. unfold Genetic_AI_new in E.
  rewrite (bind_Ok _ _ _ _ _ (init_keep_eq _ _ _ _ _)) in E.
  rewrite (bind_Ok _ _ _ _ _ (setattr_Ok _ _ _ _ Hnew)) in E.
  rewrite (bind_Ok _ _ _ _ _
             (export_eq _ _ _ _ _ (lookup_store_update _ _ _ _ Hnew))) in E.
  injection E as <- <-. split; [reflexivity|]. split; [reflexivity|].
  split; [reflexivity|]. exists (objects w1). simpl.
  rewrite insert_app_r_alt, Nat.sub_diag by apply Nat.le_refl. reflexivity.
Qed.

(** ** The distance to the gap *)

(** The value of [getVeritcalDistance] is positive exactly when the
    centre of the bird (16 below its [y]) is above the centre of the gap;
    its absolute value is at most half the height of the gap exactly when
    the centre of the bird lies between the two pipes; and below 50, the
    threshold of [getMove] for its alignment feature, the centre of the
    bird lies strictly between the pipes whenever the gap is at least 100
    high. *)
Theorem gap_distance_meaning (bird : Bird.t) (pipe : Pipe.t) :
  ((0 < getVeritcalDistance bird pipe)%R
   <-> (Bird.y bird + 16
        < Pipe.top_height_px pipe
          + (512 - Pipe.top_height_px pipe - Pipe.bottom_height_px pipe) / 2)%R)
  /\ ((Rabs (getVeritcalDistance bird pipe)
       <= (512 - Pipe.top_height_px pipe - Pipe.bottom_height_px pipe) / 2)%R
      <-> (Pipe.top_height_px pipe <= Bird.y bird + 16
           <= 512 - Pipe.bottom_height_px pipe)%R)
  /\ ((100 <= 512 - Pipe.top_height_px pipe - Pipe.bottom_height_px pipe)%R ->
      (Rabs (getVeritcalDistance bird pipe) < 50)%R ->
      (Pipe.top_height_px pipe < Bird.y bird + 16
       < 512 - Pipe.bottom_height_px pipe)%R).
Proof.
  unfold getVeritcalDistance. cbv zeta.
  set (top := Pipe.top_height_px pipe). set (bottom := Pipe.bottom_height_px pipe).
  set (c := (Bird.y bird + 16)%R).
  split; [|split].
  - split; intros H; lra.
  - unfold Rabs.
    destruct (Rcase_abs (top + (512 - top - bottom) / 2 - c));
      split; intros H; lra.
  - unfold Rabs.
    destruct (Rcase_abs (top + (512 - top - bottom) / 2 - c));
      intros Hgap H; lra.
Qed.

(** ** The report of the comparison script *)

(** Each turn of the loop of [test_neural_network_match] appends one row:
    the decision [getMove] takes with the velocity since the state before,
    and the output of a forward pass on the features with velocity 0. *)
Lemma match_loop_rows (ai : oid) (states : list (list R)) (w : world)
    (a : Genetic_AI) :
  objects w !! ai = Some a ->
  num_features a = 6 -> hidden_size a = 8 ->
  65 <= length (genotype a) ->
  Forall (fun state => 3 <= length state) states ->
  exists w',
    match_loop ai states w
    = Ok (match_rows (genotype a) (previous_y a) states) w'.
Proof.
  intros Hself Hnf Hhs Hlen Hstates. unfold match_loop.
  match goal with
  | |- context [for_ states ?b []] => set (body := b)
  end.
  change (match_rows (genotype a) (previous_y a) states)
    with ([] ++ match_rows (genotype a) (previous_y a) states).
  generalize (@nil (bool * R)) as report.
  revert w a Hself Hnf Hhs Hlen.
  induction Hstates as [|state states Hst _ IH];
    intros w a Hself Hnf Hhs Hlen report.
  - exists w. cbn [for_ match_rows]. now rewrite app_nil_r.
  - destruct (lookup_lt_is_Some_2 state 0 ltac:(lia)) as [s0 H0].
    destruct (lookup_lt_is_Some_2 state 1 ltac:(lia)) as [s1 H1].
    destruct (lookup_lt_is_Some_2 state 2 ltac:(lia)) as [s2 H2].
    assert (Hexp : expected_length 6 (hidden_size a) <= length (genotype a))
      by (rewrite Hhs; unfold expected_length; simpl; lia).
    set (a1 := with_previous_y (Some s2) a).
    assert (Hself1 : objects (store_update w ai a1) !! ai = Some a1)
      by now apply (lookup_store_update w ai a).
    set (row := (Rltb 0 (spec_output (genotype a) 6 8
                           (spec_features s0 s1 s2 (previous_y a))),
                 spec_output (genotype a) 6 8 (spec_features s0 s1 s2 None))).
    destruct (IH (store_update w ai a1) a1 Hself1 Hnf Hhs Hlen
                 (report ++ [row])) as [w' Hrest].
    exists w'. rewrite for_cons. unfold body at 1.
    rewrite (bind_Ok _ _ _ _ _
               (getMove_eq w ai a state s0 s1 s2 Hself Hnf Hexp H0 H1 H2)).
    rewrite (bind_Ok _ _ _ _ _ (lift_getitem_Ok _ _ _ _ H2)).
    rewrite (bind_Ok _ _ _ _ _ (setattr_Ok _ _ _ _ Hself1)).
    rewrite store_update_twice.
    change (with_previous_y (Some s2) a1) with a1.
    rewrite (bind_Ok _ _ _ _ _ (lift_getitem_Ok _ _ _ _ H0)).
    rewrite (bind_Ok _ _ _ _ _ (lift_getitem_Ok _ _ _ _ H1)).
    rewrite (bind_Ok _ _ _ _ _ (lift_getitem_Ok _ _ _ _ H2)).
    cbv zeta.
    erewrite bind_Ok.
    2:{ apply (forward_pass_spec _ ai a1).
        - exact Hself1.
        - simpl. now rewrite Hnf.
        - simpl. rewrite Hnf, Hhs. unfold expected_length. simpl. lia. }
    unfold ret. cbn [genotype num_features hidden_size a1 with_previous_y].
    rewrite Hnf, Hhs.
    transitivity (Ok ((report ++ [row])
                      ++ match_rows (genotype a1) (previous_y a1) states) w');
      [exact Hrest|].
    f_equal. cbn [match_rows]. rewrite <- app_assoc. cbn [app].
    rewrite (nth_lookup_R _ _ _ H0), (nth_lookup_R _ _ _ H1),
      (nth_lookup_R _ _ _ H2).
    reflexivity.
Qed.

Lemma tanh_0 : tanh 0 = 0%R.
Proof. unfold tanh. rewrite sinh_0, cosh_0. lra. Qed.

Lemma tanh_pos (x : R) : (0 < x)%R -> (0 < tanh x)%R.
Proof.
  intros Hx. unfold tanh. apply Rdiv_lt_0_compat.
  - rewrite <- sinh_0. now apply sinh_lt.
  - unfold cosh. pose proof (exp_pos x). pose proof (exp_pos (- x)). lra.
Qed.

(** With [velocity_only_weights] the output is the hyperbolic tangent of
    the velocity feature. *)
Lemma velocity_only_output (x0 x1 x2 x3 x4 x5 : R) :
  spec_output velocity_only_weights 6 8 [x0; x1; x2; x3; x4; x5] = tanh x3.
Proof.
  unfold spec_output, Rsum_upto, spec_W1, spec_b1, spec_W2, spec_b2,
    velocity_only_weights.
  cbn [seq map Rsum fold_right repeat app nth Nat.add Nat.mul].
  match goal with
  | |- (tanh ?t * 1 + _ + _)%R = _ => replace t with x3 by ring
  end.
  ring.
Qed.

(** The rows [test_neural_network_match] prints for a weight file of at
    least 65 weights: only in the first row is the decision the sign of
    the raw output printed beside it.  In the later rows the decision was
    taken with the velocity since the state before, while the raw output
    is computed with velocity 0; with weights that look at the velocity
    only, the third row pairs the decision to jump with the raw output 0,
    which is not positive. *)
Theorem match_report_mixes_inputs (data : weights_file) (w : world) :
  65 <= length (weights data) ->
  exists report w',
    test_neural_network_match (Some data) w = Ok report w'
    /\ report = match_rows (weights data) None test_states
    /\ (forall decision output,
          report !! 0 = Some (decision, output) ->
          decision = Rltb 0 output)
    /\ (weights data = velocity_only_weights ->
        exists output,
          report !! 2 = Some (true, output) /\ Rltb 0 output = false).
Proof.
  intros Hlen. unfold test_neural_network_match, Genetic_AI_new.
  rewrite (bind_Ok _ _ _ _ _ (init_keep_eq _ _ _ _ _)).
  destruct (match_loop_rows (length (objects w)) test_states
              (with_new_object w (fresh_controller (weights data)))
              (fresh_controller (weights data)))
    as [w' Hrun].
  - apply lookup_new_object.
  - reflexivity.
  - reflexivity.
  - exact Hlen.
  - unfold test_states.
    repeat (apply Forall_cons; split; [simpl; lia|]). now apply Forall_nil.
  - exists (match_rows (weights data) None test_states), w'.
    split; [exact Hrun|]. split; [reflexivity|]. split.
    + intros decision output Hrow. cbn in Hrow. now injection Hrow as <- <-.
    + intros ->. eexists. split.
      * cbn [match_rows test_states lookup list_lookup nth].
        unfold spec_features at 1. rewrite velocity_only_output.
        rewrite (proj2 (Rltb_true 0 (tanh ((300 - 200) / 10))))
          by (apply tanh_pos; lra).
        reflexivity.
      * unfold spec_features. rewrite velocity_only_output.
        replace (0 / 10)%R with 0%R by lra. rewrite tanh_0.
        apply Rltb_false. lra.
Qed.

Lemma match_report_mixes_inputs_witness :
  exists report w',
    test_neural_network_match
      (Some (WeightsFile velocity_only_weights 0 (Architecture 6 8 65)))
      (world_with [] [] [] [])
    = Ok report w'
    /\ report = match_rows velocity_only_weights None test_states
    /\ (forall decision output,
          report !! 0 = Some (decision, output) ->
          decision = Rltb 0 output)
    /\ (velocity_only_weights = velocity_only_weights ->
        exists output,
          report !! 2 = Some (true, output) /\ Rltb 0 output = false).
Proof.
  apply (match_report_mixes_inputs
           (WeightsFile velocity_only_weights 0 (Architecture 6 8 65))
           (world_with [] [] [] [])).
  simpl. lia.
Defined.

(** ** Generations made of elites only *)

Lemma valid_kept (w w' : world) (o : oid) :
  genes_kept w w' -> valid w o -> valid w' o.
Proof.
  intros Hk [a Ha]. destruct (Hk o a Ha) as (a' & Ha' & _). now exists a'.
Qed.

Lemma total_for {A S} (xs : list A) (body : A -> S -> M S)
    (I : S -> world -> Prop) (s : S) (w : world) :
  I s w ->
  (forall x s w, x ∈ xs -> I s w -> total (body x s) w I) ->
  total (for_ xs body s) w I.
Proof.
  revert s w. induction xs as [|x xs IH]; intros s w H0 Hstep.
  - now apply total_ret.
  - cbn [for_]. apply total_bind.
    eapply total_mono; [apply Hstep; [left | exact H0]|].
    intros s1 w1 H1. apply IH; [exact H1|].
    intros y s2 w2 Hy. apply Hstep. now right.
Qed.

Lemma replay_total (agent : oid) (w : world) :
  valid w agent ->
  total (replay_mains agent) w (fun _ w' => genes_kept w w').
Proof.
  intros _. eexists _, _. split; [reflexivity|].
  now apply genes_kept_same_objects.
Qed.

Lemma genes_of_kept (w w' : world) (o : oid) :
  genes_kept w w' -> valid w o -> genes_of w' o = genes_of w o.
Proof.
  intros Hk [a Ha]. destruct (Hk o a Ha) as (a' & Ha' & Hg & _).
  unfold genes_of. rewrite Ha, Ha'. simpl. now rewrite Hg.
Qed.

(** With as many elites as controllers the selection copies the ranking
    and makes no offspring. *)
Lemma selection_elite_only (L fuel : nat) (w : world) (population : list oid)
    (survival_rate : R) (aggregate : string) :
  Forall (has_len L w) population ->
  population <> [] ->
  total (selection fuel population (length population) (length population)
                   survival_rate aggregate L) w
    (fun r w' =>
       exists copies,
         objects w' = objects w ++ copies
         /\ fst r = seq (length (objects w)) (length population)
         /\ fst (fst (snd r)) = ranked w population
         /\ length copies = length population
         /\ forall i e a,
              ranked w population !! i = Some e -> objects w !! e = Some a ->
              copies !! i = Some (elite_copy a)).
Proof.
  intros Hall Hne. unfold selection.
  assert (Hv : Forall (valid w) population).
  { eapply Forall_impl; [exact Hall|]. intros o. apply has_len_valid. }
  assert (Hranked : Forall (has_len L w) (ranked w population))
    by now rewrite ranked_perm.
  assert (Hrl : length (ranked w population) = length population)
    by apply (Permutation_length (ranked_perm w population)).
  eapply total_step; [exact (sorted_reverse_eq _ _ Hv)|].
  destruct (lookup_lt_is_Some_2 (ranked w population) 0) as [top Htop].
  { rewrite Hrl. destruct population; [congruence | simpl; lia]. }
  eapply total_step; [exact (lift_getitem_Ok _ _ _ _ Htop)|].
  apply total_bind. eapply total_mono.
  { apply (elite_selection_total w _ (length population) L); [lia | exact Hranked]. }
  intros [[efs eg] ng] w1 (copies & -> & Hcl & Hng & Hcopies).
  cbn [snd] in Hng. subst ng. cbv beta iota zeta.
  rewrite Nat.sub_diag. unfold crossover_loop. cbn [range seq for_].
  eapply total_step; [reflexivity|]. apply total_ret.
  exists copies. cbn [fst snd]. repeat split; auto.
  intros i e a He Ha. apply (Hcopies i e a He Ha).
  rewrite <- Hrl. eapply lookup_lt_Some; eauto.
Qed.

Section Elite_only.

Variable mains : oid -> M R.
Hypothesis mains_total :
  forall agent w, valid w agent ->
    total (mains agent) w (fun _ w' => genes_kept w w').

Lemma compute_fitness_total (agent : oid) (num_trials : nat) (w : world) :
  valid w agent ->
  total (compute_fitness mains agent num_trials) w
        (fun _ w' => genes_kept w w').
Proof.
  intros Hv. unfold compute_fitness. apply total_bind.
  eapply total_mono.
  - apply (total_for_range num_trials _ (fun _ _ w' => genes_kept w w')).
    + apply genes_kept_refl.
    + intros i scores w1 Hi Hk.
      destruct (valid_kept _ _ _ Hk Hv) as [a1 Ha1].
      eapply total_step; [exact (setattr_Ok _ _ _ _ Ha1)|].
      apply total_bind. eapply total_mono.
      { apply mains_total. eexists. now apply (lookup_store_update w1 agent a1). }
      intros score w3 Hk3. cbv beta in Hk3. apply total_ret.
      eapply genes_kept_trans; [exact Hk|].
      eapply genes_kept_trans; [|exact Hk3].
      now apply genes_kept_update.
  - intros scores w1 Hk. cbv beta in Hk. now apply total_ret.
Qed.

Lemma fitness_phase_total (L : nat) (population : list oid)
    (pop_size num_trials : nat) (w : world) :
  Forall (has_len L w) population ->
  pop_size <= length population ->
  total (fitness_phase mains population pop_size num_trials L) w
        (fun _ w' => genes_kept w w').
Proof.
  intros Hall Hps. unfold fitness_phase. apply total_bind.
  eapply total_mono.
  - apply (total_for_range pop_size _
             (fun _ st w' => genes_kept w w' /\ length (snd st) = L)).
    + split; [apply genes_kept_refl | apply repeat_length].
    + intros i [total_fitness gene] w1 Hi [Hk Hgl]. cbn [snd] in Hgl.
      cbv beta iota.
      destruct (lookup_lt_is_Some_2 population i ltac:(lia)) as [agent Hag].
      eapply total_step; [exact (lift_getitem_Ok _ _ _ _ Hag)|].
      rewrite Forall_forall in Hall.
      pose proof (Hall agent (list_elem_of_lookup_2 _ _ _ Hag)) as Hlen.
      apply (has_len_kept L w w1 agent Hk) in Hlen.
      apply total_bind. eapply total_mono.
      { apply compute_fitness_total. now apply has_len_valid in Hlen. }
      intros f w2 Hk2. cbv beta in Hk2.
      apply (has_len_kept L w1 w2 agent Hk2) in Hlen.
      destruct Hlen as (a2 & Ha2 & Hl2).
      eapply total_step; [exact (setattr_Ok _ _ _ _ Ha2)|].
      eapply total_step;
        [exact (getattr_Ok _ _ _ (lookup_store_update _ _ _ _ Ha2))|].
      rewrite np_iadd_same_length by (simpl; congruence).
      eapply total_step; [reflexivity|]. apply total_ret. split.
      * eapply genes_kept_trans; [exact Hk|].
        eapply genes_kept_trans; [exact Hk2|]. now apply genes_kept_update.
      * cbn [snd]. rewrite length_zip_with. simpl. lia.
  - intros [total_fitness gene] w1 [Hk _]. cbv beta.
    apply total_bind. eapply total_mono.
    + apply (total_for _ _ (fun _ w' => genes_kept w w')); [exact Hk|].
      intros agent [] w2 Hin Hk2.
      rewrite Forall_forall in Hall.
      destruct (has_len_kept L w w2 agent Hk2 (Hall agent Hin))
        as (a2 & Ha2 & _).
      eapply total_step; [exact (getattr_Ok _ _ _ Ha2)|].
      eexists _, _. split; [exact (setattr_Ok _ _ _ _ Ha2)|].
      eapply genes_kept_trans; [exact Hk2|]. now apply genes_kept_update.
    + intros [] w2 Hk2. cbv beta in Hk2. now apply total_ret.
Qed.

(** An epoch whose elites fill the whole generation. *)
Lemma elite_only_epoch_total (L fuel n : nat) (population : list oid)
    (num_trials : nat) (aggregate : string) (survival_rate : R) (w : world) :
  Forall (has_len L w) population ->
  length population = n ->
  1 <= n ->
  total (epoch mains fuel population num_trials n aggregate n survival_rate) w
        (fun r w' =>
           genes_kept w w'
           /\ length (fst r) = n
           /\ Forall (has_len L w') (fst r)
           /\ Forall (fun o => length (objects w) <= o) (fst r)
           /\ map (genes_of w') (fst r) ≡ₚ map (genes_of w) population).
Proof.
  intros Hall <- Hn. unfold epoch.
  destruct population as [|first rest] eqn:Epop; [simpl in Hn; lia|].
  rewrite <- Epop in *.
  assert (Hfirst : population !! 0 = Some first) by now rewrite Epop.
  eapply total_step; [exact (lift_getitem_Ok _ _ _ _ Hfirst)|].
  pose proof Hall as Hall'. rewrite Forall_forall in Hall.
  destruct (Hall first (list_elem_of_lookup_2 _ _ _ Hfirst)) as (pf & Hpf & Hpl).
  eapply total_step; [exact (genotype_len_Ok _ _ _ Hpf)|]. rewrite Hpl.
  apply total_bind. eapply total_mono.
  { apply (fitness_phase_total L); [exact Hall' | lia]. }
  intros [total_fitness gene] w1 Hk1. cbv beta in Hk1. cbv beta iota.
  assert (Hall1 : Forall (has_len L w1) population).
  { apply Forall_forall. intros o Ho. apply (has_len_kept L w w1 o Hk1).
    now apply Hall. }
  apply total_bind. eapply total_mono.
  { apply (selection_elite_only L fuel w1 population); [exact Hall1|].
    rewrite Epop. discriminate. }
  intros [next_gen [[sorted_pop efs] eg]] w2
         (copies & Hobj & Hng & Hsorted & Hcl & Hcopies).
  cbn [fst snd] in Hng, Hsorted. subst next_gen sorted_pop. cbv beta iota.
  assert (Hrl : length (ranked w1 population) = length population)
    by apply (Permutation_length (ranked_perm w1 population)).
  destruct (lookup_lt_is_Some_2 (ranked w1 population) 0) as [top Htop];
    [lia|].
  eapply total_step; [exact (lift_getitem_Ok _ _ _ _ Htop)|].
  assert (Htopin : top ∈ population).
  { rewrite <- (ranked_perm w1 population).
    eapply list_elem_of_lookup_2; eauto. }
  pose proof Hall1 as Hall1'. rewrite Forall_forall in Hall1.
  destruct (Hall1 top Htopin) as (ptop & Hptop & _).
  eapply total_step.
  { apply getattr_Ok. rewrite Hobj. apply lookup_app_l_Some. exact Hptop. }
  assert (Hn0 : (length population =? 0) = false)
    by (apply Nat.eqb_neq; lia).
  rewrite Hn0. apply total_ret. cbn [fst].
  assert (Hk12 : genes_kept w1 w2) by (eapply genes_kept_app; eauto).
  assert (Hlen01 : length (objects w) <= length (objects w1)).
  { destruct (le_lt_dec (length (objects w)) (length (objects w1)))
      as [Hle|Hlt]; [exact Hle|].
    exfalso.
    destruct (lookup_lt_is_Some_2 (objects w) (length (objects w1)) Hlt)
      as [x Hx].
    destruct (Hk1 _ x Hx) as (x' & Hx' & _).
    apply lookup_lt_Some in Hx'. lia. }
  split; [eapply genes_kept_trans; eauto|].
  split; [apply length_seq|].
  split.
  { rewrite <- (Nat.add_0_r (length population)).
    apply (next_generation_has_len L w1 w2 population copies []
             (length population) 0); auto.
    - now rewrite app_nil_r.
    - intros i e a He Ha _. now apply (Hcopies i e a). }
  split.
  { apply Forall_forall. intros o Ho. apply elem_of_seq in Ho. lia. }
  transitivity (map (genes_of w1) (ranked w1 population)).
  - replace (map (genes_of w2) (seq (length (objects w1)) (length population)))
      with (map (genes_of w1) (ranked w1 population)); [reflexivity|].
    apply list_eq. intros i. rewrite !list_lookup_fmap.
    destruct (decide (i < length population)) as [Hi|Hi].
    + rewrite lookup_seq_lt by lia.
      destruct (lookup_lt_is_Some_2 (ranked w1 population) i ltac:(lia))
        as [e He].
      rewrite He. simpl. f_equal.
      assert (Hein : e ∈ population).
      { rewrite <- (ranked_perm w1 population).
        eapply list_elem_of_lookup_2; eauto. }
      destruct (Hall1 e Hein) as (a & Ha & _).
      unfold genes_of. rewrite Ha, Hobj.
      rewrite lookup_app_r, Nat.add_sub' by lia.
      now rewrite (Hcopies i e a He Ha).
    + rewrite lookup_seq_ge by lia.
      rewrite (proj2 (lookup_ge_None (ranked w1 population) i)) by lia.
      reflexivity.
  - rewrite (ranked_perm w1 population).
    replace (map (genes_of w1) population) with (map (genes_of w) population);
      [reflexivity|].
    apply map_ext_in. intros o Ho. symmetry. apply genes_of_kept; [exact Hk1|].
    apply (has_len_valid L). apply Hall. now apply list_elem_of_In.
Qed.

(** A run whose elites fill the whole generation. *)
Lemma elite_only_run_total (fuel num_epochs num_trials pop_size : nat)
    (aggregate : string) (survival_rate : R) (w : world) :
  1 <= pop_size ->
  total (run_X_epochs mains fuel num_epochs num_trials pop_size aggregate
                      pop_size survival_rate) w
        (fun r w' =>
           genes_kept w w'
           /\ length (fst r) = pop_size
           /\ Forall (has_len 65 w') (fst r)).
Proof.
  intros Hps. unfold run_X_epochs. apply total_bind.
  eapply total_mono.
  - apply (total_for_range pop_size _
             (fun i population w' =>
                genes_kept w w'
                /\ length population = i
                /\ Forall (has_len 65 w') population)).
    + split; [apply genes_kept_refl|]. split; [reflexivity | constructor].
    + intros i population w1 Hi (Hk & Hlen & Hall).
      destruct (init_random_eq w1 6 8 false default_noise_sd ltac:(lia))
        as (g & Hinit & Hg).
      eapply total_step; [exact Hinit|]. apply total_ret.
      set (w2 := with_new_object _ _).
      assert (Hk12 : genes_kept w1 w2)
        by (apply (genes_kept_app w1 w2 [mkGenetic_AI 6 8 g 0 0 None]);
            reflexivity).
      split; [eapply genes_kept_trans; eauto|].
      split; [rewrite length_app; simpl; lia|].
      apply Forall_app. split.
      * eapply Forall_impl; [exact Hall|]. intros o. now apply has_len_kept.
      * constructor; [|constructor]. eexists.
        split; [apply (lookup_new_object (after_np_draws w1 _)) | exact Hg].
  - intros population w1 (Hk & Hlen & Hall). cbv beta.
    apply (total_for_range num_epochs _
             (fun _ st w' =>
                genes_kept w w'
                /\ length (fst st) = pop_size
                /\ Forall (has_len 65 w') (fst st))).
    + auto.
    + intros i [pop rec] w2 Hi (Hk2 & Hlen2 & Hall2). cbn [fst] in *.
      eapply total_mono;
        [apply (elite_only_epoch_total 65 fuel pop_size pop); assumption|].
      intros r w3 (Hk3 & Hlen3 & Hall3 & _).
      split; [eapply genes_kept_trans; eauto|]. auto.
Qed.

End Elite_only.

(** An epoch whose elites fill the whole generation returns, given a
    simulator that returns and changes no weight vector: the next
    generation consists of newly allocated controllers, as many as before
    and of the same weight-vector length, and their weight vectors are
    those of the old generation rearranged, so nothing evolves. *)
Theorem elite_only_epoch_keeps_weight_vectors (mains : oid -> M R)
    (L fuel : nat) (population : list oid) (num_trials : nat)
    (aggregate : string) (survival_rate : R) (w : world) :
  (forall agent w, valid w agent ->
     total (mains agent) w (fun _ w' => genes_kept w w')) ->
  Forall (has_len L w) population ->
  population <> [] ->
  total (epoch mains fuel population num_trials (length population) aggregate
               (length population) survival_rate) w
        (fun r w' =>
           genes_kept w w'
           /\ length (fst r) = length population
           /\ Forall (has_len L w') (fst r)
           /\ Forall (fun o => length (objects w) <= o) (fst r)
           /\ map (genes_of w') (fst r) ≡ₚ map (genes_of w) population).
Proof.
  intros Hmains Hall Hne.
  apply (elite_only_epoch_total mains Hmains L fuel (length population));
    [exact Hall | reflexivity|].
  destruct population; [congruence | simpl; lia].
Qed.

Lemma elite_only_epoch_keeps_weight_vectors_witness :
  total (epoch replay_mains 0 [0; 1; 2; 3] 2 (length [0; 1; 2; 3]) "blend"
               (length [0; 1; 2; 3]) 0.35) scenario_world
        (fun r w' =>
           genes_kept scenario_world w'
           /\ length (fst r) = length [0; 1; 2; 3]
           /\ Forall (has_len 65 w') (fst r)
           /\ Forall (fun o => length (objects scenario_world) <= o) (fst r)
           /\ map (genes_of w') (fst r)
              ≡ₚ map (genes_of scenario_world) [0; 1; 2; 3]).
Proof.
  apply (elite_only_epoch_keeps_weight_vectors replay_mains 65 0 [0; 1; 2; 3]
           2 "blend" 0.35 scenario_world).
  - exact replay_total.
  - apply scenario_has_len.
  - discriminate.
Defined.

(** A run with [num_elite = pop_size >= 1] returns, for every number of
    epochs and trials, every strategy and every survival rate, given a
    simulator that returns and changes no weight vector: no parent is ever
    chosen, so the retry loop cannot be entered.  The population it ends
    on has [pop_size] controllers of 65 weights. *)
Theorem elite_only_run_returns (mains : oid -> M R)
    (fuel num_epochs num_trials pop_size : nat) (aggregate : string)
    (survival_rate : R) (w : world) :
  (forall agent w, valid w agent ->
     total (mains agent) w (fun _ w' => genes_kept w w')) ->
  1 <= pop_size ->
  total (run_X_epochs mains fuel num_epochs num_trials pop_size aggregate
                      pop_size survival_rate) w
        (fun r w' =>
           genes_kept w w'
           /\ length (fst r) = pop_size
           /\ Forall (has_len 65 w') (fst r)).
Proof.
  intros Hmains Hps. now apply elite_only_run_total.
Qed.

Lemma elite_only_run_returns_witness :
  total (run_X_epochs replay_mains 0 3 2 4 "blend" 4 0.35) scenario_world
        (fun r w' =>
           genes_kept scenario_world w'
           /\ length (fst r) = 4
           /\ Forall (has_len 65 w') (fst r)).
Proof.
  apply (elite_only_run_returns replay_mains 0 3 2 4 "blend" 0.35
                                scenario_world).
  - exact replay_total.
  - lia.
Defined.

(** * Inputs outside the amended statements, and runs that return *)

(** ** Inference on another architecture *)

(** A controller of one feature and one hidden unit holds the 4 weights
    its architecture expects; [getMove] builds six features for it all the
    same, and the product with its 1 x 1 matrix raises [ValueError]. *)
Lemma getMove_rejects_other_architecture :
  length (genotype tiny_agent_1)
  = expected_length (num_features tiny_agent_1) (hidden_size tiny_agent_1)
  /\ getMove 0 [0; 200; 256; 1]%R tiny_world = Raise ValueError.
Proof. split; reflexivity. Qed.

(** ** Blend crossover on binary64 and on parents of different lengths *)

(** On binary64 the blend of two equal genes 2.5 of parents with fitness 1
    and 12 is above 2.5; the weights for the fitness scores 0.2 and 0.6 add
    up to less than 1; and on a second parent with fewer genes than the
    first the blend raises [IndexError], both fitness scores being
    positive. *)
Lemma blend_rounds_and_needs_length :
  (exists gene,
      Binary64.cross_blend (Binary64.float_of_nat 1) (Binary64.float_of_nat 12)
                           [Binary64.five_halves] [Binary64.five_halves]
      = Return [gene]
      /\ PrimFloat.ltb Binary64.five_halves gene = true)
  /\ PrimFloat.ltb
       (PrimFloat.add
          (fst (Binary64.blend_weights Binary64.one_fifth Binary64.three_fifths))
          (snd (Binary64.blend_weights Binary64.one_fifth Binary64.three_fifths)))
       (Binary64.float_of_nat 1)
     = true
  /\ (0 < fit_score tiny_agent_1)%R /\ (0 < fit_score tiny_agent_3)%R
  /\ cross_new_genotype 0 1 "blend" mismatched_world = Raise IndexError.
Proof.
  split; [|split; [|split; [|split]]].
  - eexists. split; vm_compute; reflexivity.
  - vm_compute. reflexivity.
  - simpl. lra.
  - simpl. lra.
  - unfold cross_new_genotype.
    repeat (unfold bind, fit_score_of, genotype_len, genotype_at, getattr, ret;
            cbn; eval_Rltb).
    reflexivity.
Qed.

(** ** The choice of the parents *)

(** Every arrangement of members of the pool at distinct positions is the
    sample for some draws of the generator. *)
Lemma sample_picks_reachable {A} (sample rest pool : list A) :
  sample ++ rest ≡ₚ pool ->
  exists ds : list nat,
    forall (d : nat -> nat) (c : nat),
      (forall j, j < length sample -> d (c + j) = nth j ds 0) ->
      fst (sample_picks (length sample) pool (Tape d c)) = sample.
Proof.
  revert pool. induction sample as [|x sample IH]; intros pool Hperm.
  - exists []. intros d c _. reflexivity.
  - assert (Hx : x ∈ pool) by (rewrite <- Hperm; left).
    apply list_elem_of_lookup in Hx as [i Hi].
    assert (Hrest : sample ++ rest ≡ₚ delete i pool).
    { apply (Permutation_cons_inv (a := x)).
      rewrite <- (delete_Permutation pool i x Hi). exact Hperm. }
    destruct (IH _ Hrest) as [ds Hds].
    exists (i :: ds). intros d c Hd.
    assert (Hlt : i < length pool) by (eapply lookup_lt_Some; eauto).
    cbn [length]. rewrite sample_picks_S. cbn [next_draw fst snd draws cursor].
    assert (Hc : d c = i).
    { specialize (Hd 0 ltac:(simpl; lia)). now rewrite Nat.add_0_r in Hd. }
    rewrite Hc, (Nat.mod_small i (length pool)) by exact Hlt. rewrite Hi.
    cbn [fst]. f_equal. apply Hds. intros j Hj.
    specialize (Hd (S j) ltac:(simpl; lia)).
    now rewrite Nat.add_succ_r in Hd.
Qed.

Lemma random_sample_reachable (w : world) (pool sample rest : list oid) :
  sample ++ rest ≡ₚ pool ->
  exists t t',
    random_sample pool (length sample) (with_py_choice w t)
    = Ok sample (with_py_choice w t').
Proof.
  intros Hperm. destruct (sample_picks_reachable sample rest pool Hperm)
    as [ds Hds].
  set (t := Tape (fun n => nth n ds 0) 0).
  exists t, (snd (sample_picks (length sample) pool t)).
  unfold random_sample.
  assert (Hlen : length sample <= length pool).
  { rewrite <- (Permutation_length Hperm), length_app. lia. }
  destruct (length pool <? length sample) eqn:E;
    [apply Nat.ltb_lt in E; lia|].
  cbn [py_choice with_py_choice]. f_equal. apply Hds. reflexivity.
Qed.

(** Tournament selection with the sample [random.sample] returns. *)
Lemma tournament_selection_sample (w : world) (population : list oid)
    (tournament_size : nat) :
  population <> [] ->
  0 < tournament_size ->
  Forall (valid w) population ->
  exists (winner : oid) (sample : list oid) (t : tape nat),
    random_sample population (Nat.min tournament_size (length population)) w
    = Ok sample (with_py_choice w t)
    /\ tournament_selection population tournament_size w
       = Ok winner (with_py_choice w t)
    /\ length sample = Nat.min tournament_size (length population)
    /\ (exists rest, sample ++ rest ≡ₚ population)
    /\ winner ∈ sample
    /\ Forall (fun y => (fit_in w y <= fit_in w winner)%R) sample.
Proof.
  intros Hne Hk Hv.
  destruct (random_sample_spec population
              (Nat.min tournament_size (length population)) w)
    as (sample & t & Hrun & Hlen & rest & Hperm); [lia|].
  assert (Hsne : sample <> []).
  { intros ->. simpl in Hlen. destruct population; [congruence|].
    simpl in Hlen. lia. }
  assert (Hsv : Forall (valid (with_py_choice w t)) sample).
  { rewrite <- Hperm in Hv. now apply Forall_app in Hv as [Hv _]. }
  destruct (max_by_fit_score_spec _ sample Hsne Hsv) as (b & Hmax & Hin & Hall).
  exists b, sample, t. split; [exact Hrun|]. split; [|repeat split; eauto].
  unfold tournament_selection. now rewrite (bind_Ok _ _ _ _ _ Hrun).
Qed.

(** The retry loop returns exactly after a chain of retries at the end of
    which the condition of the loop is false. *)
Lemma retry_loop_spec (pool : list oid) (parent1 : oid) (fuel : nat)
    (q : oid) (w : world) (parent2 : oid) (w' : world) :
  while_ fuel
    (fun parent2 => (parent1 =? parent2) && (1 <? length pool))
    (fun _ => tournament_selection pool 3)
    q w
  = Ok parent2 w'
  <-> exists n, n <= fuel
                /\ retried pool parent1 n q w parent2 w'
                /\ (1 < length pool -> parent1 <> parent2).
Proof.
  split.
  - revert q w. induction fuel as [|fuel IH]; intros q w E.
    + cbn [while_] in E.
      destruct ((parent1 =? q) && (1 <? length pool)) eqn:Hc; [discriminate|].
      injection E as <- <-. exists 0. split; [lia|]. split; [constructor|].
      intros Hlen. apply andb_false_iff in Hc as [Hc|Hc].
      * now apply Nat.eqb_neq in Hc.
      * apply Nat.ltb_ge in Hc. lia.
    + cbn [while_] in E.
      destruct ((parent1 =? q) && (1 <? length pool)) eqn:Hc.
      * apply andb_true_iff in Hc as [Hq Hlen].
        apply Nat.eqb_eq in Hq. apply Nat.ltb_lt in Hlen.
        unfold bind in E.
        destruct (tournament_selection pool 3 w) as [q' w1| |] eqn:Ht;
          try discriminate.
        destruct (IH q' w1 E) as (n & Hn & Hret & Hexit).
        exists (S n). split; [lia|]. split; [|exact Hexit].
        now apply (retried_again pool parent1 n q q' parent2 w w1 w').
      * injection E as <- <-. exists 0. split; [lia|]. split; [constructor|].
        intros Hlen. apply andb_false_iff in Hc as [Hc|Hc].
        -- now apply Nat.eqb_neq in Hc.
        -- apply Nat.ltb_ge in Hc. lia.
  - intros (n & Hn & Hret & Hexit). revert fuel Hn.
    induction Hret as [q w|n q q' parent2 w w1 w' Hq Hlen Ht Hret IH];
      intros fuel Hn.
    + assert (Hc : (parent1 =? q) && (1 <? length pool) = false).
      { apply andb_false_iff.
        destruct (Nat.ltb_spec 1 (length pool)) as [Hlen|Hlen]; [|now right].
        left. apply Nat.eqb_neq. now apply Hexit. }
      destruct fuel; cbn [while_]; rewrite Hc; reflexivity.
    + destruct fuel as [|fuel]; [lia|]. cbn [while_].
      assert (Hc : (parent1 =? q) && (1 <? length pool) = true).
      { apply andb_true_iff. split; [now apply Nat.eqb_eq|now apply Nat.ltb_lt]. }
      rewrite Hc. rewrite (bind_Ok _ _ _ _ _ Ht). apply IH; [exact Hexit | lia].
Qed.

(** The choice of the two parents returns exactly when two tournaments
    and a chain of retries do. *)
Lemma select_parents_spec (fuel : nat) (pool : list oid) (w : world)
    (ps : oid * oid) (w' : world) :
  select_parents fuel pool w = Ok ps w'
  <-> exists (q : oid) (w1 w2 : world) (n : nat),
        tournament_selection pool 3 w = Ok (fst ps) w1
        /\ tournament_selection pool 3 w1 = Ok q w2
        /\ n <= fuel
        /\ retried pool (fst ps) n q w2 (snd ps) w'
        /\ (1 < length pool -> fst ps <> snd ps).
Proof.
  unfold select_parents. split.
  - intros E. unfold bind at 1 in E.
    destruct (tournament_selection pool 3 w) as [p1 w1| |] eqn:H1;
      try discriminate.
    unfold bind at 1 in E.
    destruct (tournament_selection pool 3 w1) as [q w2| |] eqn:H2;
      try discriminate.
    unfold bind at 1 in E.
    match type of E with
    | match ?m with _ => _ end = _ => destruct m as [p2 w3| |] eqn:H3
    end; try discriminate.
    injection E as <- <-. cbn [fst snd].
    apply retry_loop_spec in H3 as (n & Hn & Hret & Hexit).
    exists q, w1, w2, n. auto.
  - intros (q & w1 & w2 & n & H1 & H2 & Hn & Hret & Hexit).
    rewrite (bind_Ok _ _ _ _ _ H1), (bind_Ok _ _ _ _ _ H2).
    assert (H3 : while_ fuel
                   (fun parent2 => (fst ps =? parent2) && (1 <? length pool))
                   (fun _ => tournament_selection pool 3) q w2
                 = Ok (snd ps) w').
    { apply retry_loop_spec. exists n. auto. }
    rewrite (bind_Ok _ _ _ _ _ H3). now destruct ps.
Qed.

Lemma parents_world_valid : Forall (valid parents_world) [0; 1; 2; 3].
Proof.
  eapply Forall_impl; [apply scenario_has_len|]. intros o. apply has_len_valid.
Qed.

(** C7 (amended).  For every non-empty pool of controllers and every
    positive tournament size, tournament selection draws with
    [random.sample] a sample of min(size, |pool|) members of the pool at
    distinct positions (without replacement) and returns a member of the
    sample that no member of the sample exceeds in fitness; every
    arrangement of that many members at distinct positions is the sample
    for some state of the generator.
    The choice of the two parents returns exactly when two tournaments of
    size 3 are followed by retries of the second, each held because the
    pool has more than one member and the candidate is the first parent
    itself, until the pool has one member or the candidate is another
    controller than the first parent. *)
Theorem parent_selection_spec (w : world) (pool : list oid)
    (tournament_size : nat) :
  pool <> [] ->
  0 < tournament_size ->
  Forall (valid w) pool ->
  (exists (winner : oid) (sample : list oid) (t : tape nat),
      random_sample pool (Nat.min tournament_size (length pool)) w
      = Ok sample (with_py_choice w t)
      /\ tournament_selection pool tournament_size w
         = Ok winner (with_py_choice w t)
      /\ length sample = Nat.min tournament_size (length pool)
      /\ (exists rest, sample ++ rest ≡ₚ pool)
      /\ winner ∈ sample
      /\ Forall (fun y => (fit_in w y <= fit_in w winner)%R) sample)
  /\ (forall sample rest : list oid,
        length sample = Nat.min tournament_size (length pool) ->
        sample ++ rest ≡ₚ pool ->
        exists t t',
          random_sample pool (Nat.min tournament_size (length pool))
                        (with_py_choice w t)
          = Ok sample (with_py_choice w t'))
  /\ (forall (fuel : nat) (parents : oid * oid) (w' : world),
        select_parents fuel pool w = Ok parents w'
        <-> exists (q : oid) (w1 w2 : world) (n : nat),
              tournament_selection pool 3 w = Ok (fst parents) w1
              /\ tournament_selection pool 3 w1 = Ok q w2
              /\ n <= fuel
              /\ retried pool (fst parents) n q w2 (snd parents) w'
              /\ (1 < length pool -> fst parents <> snd parents)).
Proof.
  intros Hne Hk Hv. split; [|split].
  - now apply tournament_selection_sample.
  - intros sample rest Hlen Hperm. rewrite <- Hlen.
    now apply (random_sample_reachable w pool sample rest).
  - intros fuel parents w'. apply select_parents_spec.
Qed.

Lemma parent_selection_spec_witness :
  select_parents 0 [0; 1; 2; 3] parents_world = Ok (0, 1) parents_world_end
  /\ (exists (winner : oid) (sample : list oid) (t : tape nat),
        random_sample [0; 1; 2; 3] (Nat.min 3 (length [0; 1; 2; 3]))
                      parents_world
        = Ok sample (with_py_choice parents_world t)
        /\ tournament_selection [0; 1; 2; 3] 3 parents_world
           = Ok winner (with_py_choice parents_world t)
        /\ length sample = Nat.min 3 (length [0; 1; 2; 3])
        /\ (exists rest, sample ++ rest ≡ₚ [0; 1; 2; 3])
        /\ winner ∈ sample
        /\ Forall (fun y => (fit_in parents_world y
                             <= fit_in parents_world winner)%R) sample)
  /\ (forall sample rest : list oid,
        length sample = Nat.min 3 (length [0; 1; 2; 3]) ->
        sample ++ rest ≡ₚ [0; 1; 2; 3] ->
        exists t t',
          random_sample [0; 1; 2; 3] (Nat.min 3 (length [0; 1; 2; 3]))
                        (with_py_choice parents_world t)
          = Ok sample (with_py_choice parents_world t'))
  /\ (forall (fuel : nat) (parents : oid * oid) (w' : world),
        select_parents fuel [0; 1; 2; 3] parents_world = Ok parents w'
        <-> exists (q : oid) (w1 w2 : world) (n : nat),
              tournament_selection [0; 1; 2; 3] 3 parents_world
              = Ok (fst parents) w1
              /\ tournament_selection [0; 1; 2; 3] 3 w1 = Ok q w2
              /\ n <= fuel
              /\ retried [0; 1; 2; 3] (fst parents) n q w2 (snd parents) w'
              /\ (1 < length [0; 1; 2; 3] -> fst parents <> snd parents)).
Proof.
  split; [exact select_parents_run|].
  apply (parent_selection_spec parents_world [0; 1; 2; 3] 3).
  - discriminate.
  - lia.
  - exact parents_world_valid.
Defined.

(** A tournament of size 0 samples nothing and raises [ValueError]. *)
Lemma tournament_of_size_zero_raises :
  tournament_selection [0; 1; 2; 3] 0 scenario_world = Raise ValueError.
Proof. reflexivity. Qed.

(** ** Runs of the choice of the parents and of the selection that return *)

Lemma selected_parents_differ_witness :
  select_parents 0 [0; 1; 2; 3] parents_world = Ok (0, 1) parents_world_end
  /\ (exists t, parents_world_end = with_py_choice parents_world t)
  /\ fst (0, 1) ∈ [0; 1; 2; 3] /\ snd (0, 1) ∈ [0; 1; 2; 3]
  /\ (1 < length [0; 1; 2; 3] -> fst (0, 1) <> snd (0, 1)).
Proof.
  split; [exact select_parents_run|].
  exact (selected_parents_differ 0 parents_world [0; 1; 2; 3]
           parents_world_valid (0, 1) parents_world_end select_parents_run).
Defined.

Lemma py_round_four : py_round (INR 4 * 1) = 4%Z.
Proof.
  assert (Ex : (INR 4 * 1 = 4)%R) by (simpl; lra). rewrite Ex.
  assert (Ei : Int_part 4 = 4%Z) by (symmetry; apply Int_part_spec; lra).
  unfold py_round, frac_part. rewrite Ei.
  assert (E : Rltb (4 - 4) 0.5 = true) by (apply Rltb_true; lra).
  now rewrite E.
Qed.

(** The run of [select_parents_run] in a store that holds further
    controllers. *)
Lemma select_parents_with_copies (copies : list Genetic_AI) :
  select_parents 0 [0; 1; 2; 3] (with_new_objects parents_world copies)
  = Ok (0, 1) (with_new_objects parents_world_end copies).
Proof.
  unfold select_parents, tournament_selection, max_by_fit_score.
  repeat (unfold bind, fit_score_of, getattr, ret; cbn; eval_Rltb).
  reflexivity.
Qed.

(** With three elites in a population of four and every member a
    survivor, the selection part of an epoch returns for the draws of
    [parents_world]: the one offspring has the parents A and B. *)
Lemma selection_returns_with_offspring :
  exists r w',
    selection 0 [0; 1; 2; 3] 4 3 1 "blend" 65 parents_world = Ok r w'.
Proof.
  assert (Hall : Forall (has_len 65 parents_world) [0; 1; 2; 3])
    by apply scenario_has_len.
  unfold selection.
  rewrite (bind_Ok _ _ _ _ _ (sorted_reverse_eq _ _ parents_world_valid)).
  rewrite (scenario_ranked _ _ _ : ranked parents_world [0; 1; 2; 3] = _).
  rewrite (bind_Ok _ _ _ _ _
             (eq_refl : lift (getitem [0; 1; 2; 3] 0) parents_world
                        = Ok 0 parents_world)).
  cbv beta.
  destruct (elite_selection_total parents_world [0; 1; 2; 3] 3 65
              ltac:(simpl; lia) Hall)
    as ([[fs genes] ng] & w1 & Hrun & copies & -> & Hcl & Hng & Hcopies).
  rewrite (bind_Ok _ _ _ _ _ Hrun). cbv beta iota.
  rewrite py_round_four.
  change (slice_to 4 [0; 1; 2; 3]) with [0; 1; 2; 3].
  unfold bind at 1. unfold crossover_loop.
  change (range (4 - 3)) with [0]. rewrite for_cons.
  unfold bind at 1.
  rewrite (select_parents_with_copies copies). cbv beta iota. cbn [fst snd].
  destruct (cross_total 65 (with_new_objects parents_world_end copies) 0 1
                        "blend")
    as (c & w3 & Hcross & _).
  - exists agent_A. split; reflexivity.
  - exists agent_B. split; reflexivity.
  - intros _ Hb. congruence.
  - rewrite (bind_Ok _ _ _ _ _ Hcross). cbn [for_]. eexists _, _. reflexivity.
Qed.

Lemma next_generation_shape_witness :
  exists r w',
    selection 0 [0; 1; 2; 3] 4 3 1 "blend" 65 parents_world = Ok r w'
    /\ exists copies children,
         objects w' = objects parents_world ++ copies ++ children
         /\ fst r = seq (length (objects parents_world)) (3 + (4 - 3))
         /\ length copies = 3
         /\ length children = 4 - 3
         /\ (forall i e a,
               ranked parents_world [0; 1; 2; 3] !! i = Some e ->
               objects parents_world !! e = Some a ->
               i < 3 ->
               copies !! i = Some (mkGenetic_AI 6 8 (genotype a) 0 0 None))
         /\ Forall (offspring_record 65) children.
Proof.
  destruct selection_returns_with_offspring as (r & w' & Hrun).
  exists r, w'. split; [exact Hrun|].
  assert (Hall : Forall (has_len 65 parents_world) [0; 1; 2; 3])
    by apply scenario_has_len.
  assert (Hle : 3 <= length [0; 1; 2; 3]) by (simpl; lia).
  exact (next_generation_shape 65 0 parents_world [0; 1; 2; 3] 4 3 1 "blend"
           Hall Hle r w' Hrun).
Defined.
